(** * dgit: a shallow embedding of the repository core

    The development follows the C++ sources of dgit: the SHA-1 hasher
    ([src/core/sha1.cpp]), the object codec ([src/objects/object.cpp]), the
    object database ([src/objects/object_database.cpp]), the reference store
    ([src/refs/refs.cpp]), the index ([src/core/index.cpp]) and the merge
    engine ([src/merge/merge.cpp]).

    Conventions.
    - A [std::string] is a byte string: Rocq's [string], whose characters
      are the 256 byte values.  The NUL byte is ["000"%char].
    - [uint32_t] and [uint64_t] values are [Z] with the wrap-around written
      out ([u32], [u64]).
    - A C++ exception is the [Throw] case of [Result]; the text is the
      argument of [GitException].
    - Recursion that the sources do not bound takes a fuel argument; [None]
      stands for a call that has not returned within the fuel. *)

From Stdlib Require Import ZArith Ascii String List Lia DecimalString.
From stdpp Require Import gmap strings list sorting.

Local Open Scope Z_scope.

(** ** Exceptions *)

Inductive Result (A : Type) : Type :=
| Ok (a : A)
| Throw (what : string).
Arguments Ok {A} a.
Arguments Throw {A} what.

Definition bindR {A B : Type} (r : Result A) (k : A -> Result B) : Result B :=
  match r with
  | Ok a => k a
  | Throw w => Throw w
  end.

(** ** Byte strings *)

Definition NUL : ascii := "000"%char.

Definition byte_of_char (c : ascii) : Z := Z.of_N (N_of_ascii c).
Definition char_of_byte (b : Z) : ascii := ascii_of_N (Z.to_N (b mod 256)).

Definition bytes_of_string (s : string) : list Z :=
  map byte_of_char (list_ascii_of_string s).
Definition string_of_bytes (l : list Z) : string :=
  string_of_list_ascii (map char_of_byte l).

(** [std::string::find(char)] : position of the first occurrence. *)
Fixpoint find_char (c : ascii) (s : string) : option nat :=
  match s with
  | EmptyString => None
  | String d s' =>
      if Ascii.eqb d c then Some O
      else match find_char c s' with
           | Some n => Some (S n)
           | None => None
           end
  end.

(** [s.substr(pos)] for [pos <= s.size()]. *)
Fixpoint substr_from (pos : nat) (s : string) : string :=
  match pos, s with
  | O, _ => s
  | S p, EmptyString => EmptyString
  | S p, String _ s' => substr_from p s'
  end.

(** [s.substr(0, n)]: at most [n] characters. *)
Fixpoint substr_to (n : nat) (s : string) : string :=
  match n, s with
  | O, _ => EmptyString
  | S _, EmptyString => EmptyString
  | S p, String c s' => String c (substr_to p s')
  end.

(** [s.substr(pos, n)] for [pos <= s.size()]. *)
Definition substr (pos n : nat) (s : string) : string :=
  substr_to n (substr_from pos s).

(** The characters a [const char*] literal contributes to [operator<<] or
    to [std::string::operator+]: those before its first NUL. *)
Fixpoint c_str_view (s : string) : string :=
  match s with
  | EmptyString => EmptyString
  | String c s' => if Ascii.eqb c NUL then EmptyString else String c (c_str_view s')
  end.

(** [operator<<] of a [size_t] or an [int] in the default (decimal) base. *)
Definition decimal (n : N) : string := NilZero.string_of_uint (N.to_uint n).

Definition decimal_int (z : Z) : string := NilZero.string_of_int (Z.to_int z).

(** ** SHA-1 ([src/core/sha1.cpp]) *)

Module SHA1.

Definition u32 (x : Z) : Z := x mod 2 ^ 32.
Definition u64 (x : Z) : Z := x mod 2 ^ 64.

(** The four round constants [K]. *)
Definition K : list Z := [0x5A827999; 0x6ED9EBA1; 0x8F1BBCDC; 0xCA62C1D6].

Definition left_rotate (value count : Z) : Z :=
  Z.lor (u32 (Z.shiftl value count)) (Z.shiftr value (32 - count)).

(** The byte order of the machine the program runs on.  [final] copies
    the state words through a [uint32_t*], so the bytes of the digest are
    the object representation of the words. *)
Inductive byte_order : Type := LittleEndian | BigEndian.

(** Object representation of a [uint32_t]. *)
Definition word_bytes (o : byte_order) (w : Z) : list Z :=
  let b0 := w mod 256 in
  let b1 := (w / 2 ^ 8) mod 256 in
  let b2 := (w / 2 ^ 16) mod 256 in
  let b3 := (w / 2 ^ 24) mod 256 in
  match o with
  | LittleEndian => [b0; b1; b2; b3]
  | BigEndian => [b3; b2; b1; b0]
  end.

(** [reinterpret_cast<uint32_t*>(a)[i] = w] on a byte array [a]. *)
Definition store_word (o : byte_order) (i : nat) (w : Z) (a : list Z) : list Z :=
  match word_bytes o w with
  | [x0; x1; x2; x3] =>
      <[(4 * i + 3)%nat := x3]> (<[(4 * i + 2)%nat := x2]>
        (<[(4 * i + 1)%nat := x1]> (<[(4 * i)%nat := x0]> a)))
  | _ => a
  end.

(** The hasher object.  [buffer_] is the 64-byte block buffer, of which
    the first [buffer_length_] bytes are pending input. *)
Record t : Type := mk {
  h0_ : Z; h1_ : Z; h2_ : Z; h3_ : Z; h4_ : Z;
  message_length_ : Z;
  buffer_ : list Z;
  buffer_length_ : nat;
  finalized_ : bool
}.

(** [SHA1::SHA1()] *)
Definition new : t :=
  {| h0_ := 0x67452301; h1_ := 0xEFCDAB89; h2_ := 0x98BADCFE;
     h3_ := 0x10325476; h4_ := 0xC3D2E1F0; message_length_ := 0;
     buffer_ := replicate 64 0; buffer_length_ := 0; finalized_ := false |}.

Definition set_buffer (s : t) (b : list Z) (n : nat) : t :=
  mk (h0_ s) (h1_ s) (h2_ s) (h3_ s) (h4_ s) (message_length_ s) b n (finalized_ s).

Definition buf (s : t) (i : nat) : Z := nth i (buffer_ s) 0.

(** The message schedule: [w[0..15]] from the buffer, then the
    extension loop [for (i = 16; i < 80; ++i)]. *)
Definition schedule_head (s : t) : list Z :=
  map (fun i : nat =>
         Z.lor (Z.lor (Z.lor (u32 (Z.shiftl (buf s (i * 4)) 24))
                             (Z.shiftl (buf s (i * 4 + 1)) 16))
                      (Z.shiftl (buf s (i * 4 + 2)) 8))
               (buf s (i * 4 + 3)))
      (seq 0 16).

Definition schedule_step (w : list Z) (i : nat) : list Z :=
  w ++ [left_rotate
          (Z.lxor (Z.lxor (Z.lxor (nth (i - 3) w 0) (nth (i - 8) w 0))
                          (nth (i - 14) w 0))
                  (nth (i - 16) w 0)) 1].

Definition schedule (s : t) : list Z :=
  fold_left schedule_step (seq 16 64) (schedule_head s).

(** One iteration of the main loop on the working variables. *)
Definition round (w : list Z) (v : Z * Z * Z * Z * Z) (i : nat) : Z * Z * Z * Z * Z :=
  let '(a, b, c, d, e) := v in
  let '(f, k) :=
    if (i <? 20)%nat then
      (Z.lor (Z.land b c) (Z.land (u32 (Z.lnot b)) d), nth 0 K 0)
    else if (i <? 40)%nat then
      (Z.lxor (Z.lxor b c) d, nth 1 K 0)
    else if (i <? 60)%nat then
      (Z.lor (Z.lor (Z.land b c) (Z.land b d)) (Z.land c d), nth 2 K 0)
    else
      (Z.lxor (Z.lxor b c) d, nth 3 K 0) in
  let temp := u32 (left_rotate a 5 + f + e + k + nth i w 0) in
  (temp, a, left_rotate b 30, c, d).

(** [SHA1::process_block] *)
Definition process_block (s : t) : t :=
  let w := schedule s in
  let '(a, b, c, d, e) :=
    fold_left (round w) (seq 0 80) (h0_ s, h1_ s, h2_ s, h3_ s, h4_ s) in
  mk (u32 (h0_ s + a)) (u32 (h1_ s + b)) (u32 (h2_ s + c))
     (u32 (h3_ s + d)) (u32 (h4_ s + e))
     (message_length_ s) (buffer_ s) (buffer_length_ s) (finalized_ s).

(** The body of the loop of [update]: one input byte. *)
Definition update_byte (s : t) (x : Z) : t :=
  let s1 :=
    mk (h0_ s) (h1_ s) (h2_ s) (h3_ s) (h4_ s)
       (u64 (message_length_ s + 8))
       (<[buffer_length_ s := x]> (buffer_ s))
       (S (buffer_length_ s)) (finalized_ s) in
  if (buffer_length_ s1 =? 64)%nat then
    set_buffer (process_block s1) (buffer_ s1) 0
  else s1.

(** [SHA1::update(const uint8_t*, size_t)] *)
Definition update (s : t) (data : list Z) : Result t :=
  if finalized_ s then Throw "SHA1: Cannot update after finalization"
  else Ok (fold_left update_byte data s).

(** [SHA1::update(const std::string&)] *)
Definition update_string (s : t) (data : string) : Result t :=
  update s (bytes_of_string data).

(** The [while (buffer_length_ % 64 != 56)] loop of [pad_message].  The
    loop runs at most 63 times from any buffer length ([pad_zeros_exits]
    below), so 64 units of fuel are never used up. *)
Fixpoint pad_zeros (fuel : nat) (s : t) : t :=
  if negb (buffer_length_ s mod 64 =? 56)%nat then
    match fuel with
    | O => s
    | S fuel' =>
        let s1 :=
          if (buffer_length_ s =? 64)%nat
          then set_buffer (process_block s) (buffer_ s) 0
          else s in
        pad_zeros fuel'
          (set_buffer s1 (<[buffer_length_ s1 := 0]> (buffer_ s1))
                      (S (buffer_length_ s1)))
    end
  else s.

(** The length suffix: [for (i = 7; i >= 0; --i)]. *)
Definition append_length (s : t) : t :=
  fold_left
    (fun (s : t) (i : nat) =>
       set_buffer s
         (<[buffer_length_ s :=
              Z.land (Z.shiftr (message_length_ s) (Z.of_nat i * 8)) 0xFF]>
            (buffer_ s))
         (S (buffer_length_ s)))
    [7; 6; 5; 4; 3; 2; 1; 0]%nat s.

(** [SHA1::pad_message] *)
Definition pad_message (s : t) : t :=
  let s1 := set_buffer s (<[buffer_length_ s := 0x80]> (buffer_ s))
                       (S (buffer_length_ s)) in
  append_length (pad_zeros 64 s1).

Definition hex_digit (d : Z) : ascii :=
  if d <? 10 then ascii_of_N (Z.to_N (48 + d))
  else ascii_of_N (Z.to_N (97 + (d - 10))).

(** [binary_to_hex]: two lowercase hexadecimal digits per byte. *)
Fixpoint binary_to_hex (data : list Z) : string :=
  match data with
  | [] => EmptyString
  | b :: rest => String (hex_digit (b / 16)) (String (hex_digit (b mod 16)) (binary_to_hex rest))
  end.

(** The bytes at [&h0_]: the five state words are consecutive
    [uint32_t] members, so the 20 bytes are their object
    representations in declaration order. *)
Definition state_bytes (o : byte_order) (s : t) : list Z :=
  word_bytes o (h0_ s) ++ word_bytes o (h1_ s) ++ word_bytes o (h2_ s)
    ++ word_bytes o (h3_ s) ++ word_bytes o (h4_ s).

(** [SHA1::final]: the digest and the hasher afterwards. *)
Definition final (o : byte_order) (s : t) : string * t :=
  if finalized_ s then
    (binary_to_hex (take 20 (state_bytes o s)), s)
  else
    let s1 := pad_message s in
    let s2 := process_block s1 in
    let s3 := mk (h0_ s2) (h1_ s2) (h2_ s2) (h3_ s2) (h4_ s2)
                 (message_length_ s2) (buffer_ s2) (buffer_length_ s2) true in
    let hash :=
      store_word o 4 (h4_ s3) (store_word o 3 (h3_ s3)
        (store_word o 2 (h2_ s3) (store_word o 1 (h1_ s3)
          (store_word o 0 (h0_ s3) (replicate 20 0))))) in
    (binary_to_hex hash, s3).

(** [SHA1::hash(const std::string&)]: the hasher is fresh, so [update]
    does not throw. *)
Definition hash (o : byte_order) (data : string) : string :=
  match update_string new data with
  | Ok s => fst (final o s)
  | Throw _ => EmptyString
  end.

End SHA1.

(** ** Objects ([src/objects/object.cpp]) *)

Definition ObjectId : Type := string.

Inductive ObjectType : Type := Blob | Tree | Commit | Tag.

(** The enumerators of [FileMode] that the sources name, and [Symlink]. *)
Inductive FileMode : Type := Regular | Executable | Symlink | Directory.

Definition FileMode_eqb (a b : FileMode) : bool :=
  match a, b with
  | Regular, Regular | Executable, Executable
  | Symlink, Symlink | Directory, Directory => true
  | _, _ => false
  end.

(** [Person(name, email, when)]; [when] in seconds since the epoch. *)
Record Person : Type := mkPerson {
  person_name : string;
  person_email : string;
  person_when : Z
}.

Record TreeEntry : Type := mkTreeEntry {
  entry_mode : FileMode;
  entry_id : ObjectId;
  entry_name : string
}.

(** The members the subclasses add to [Object]. *)
Inductive Fields : Type :=
| BlobFields
| TreeFields (entries_ : list TreeEntry)
| CommitFields (tree_id_ : string) (parent_ids_ : list string)
               (author_ committer_ : Person) (message_ : string)
| TagFields (object_id_ : string) (object_type_ : ObjectType)
            (tag_name_ : string) (tagger_ : Person) (message_ : string).

Record Object : Type := mkObject {
  type_ : ObjectType;
  data_ : string;
  id_ : ObjectId;
  fields : Fields
}.

Definition entries (ob : Object) : list TreeEntry :=
  match fields ob with
  | TreeFields es => es
  | _ => []
  end.

Definition tree_id (ob : Object) : string :=
  match fields ob with
  | CommitFields t _ _ _ _ => t
  | _ => EmptyString
  end.

Definition parent_ids (ob : Object) : list string :=
  match fields ob with
  | CommitFields _ ps _ _ _ => ps
  | _ => []
  end.

(** The [switch (type_)] that picks the kind word. *)
Definition type_header (ty : ObjectType) : string :=
  match ty with
  | Blob => "blob"
  | Tree => "tree"
  | Commit => "commit"
  | Tag => "tag"
  end.

(** [oss << header << " " << data.size() << "\0" << data], as written in
    [Object::compute_id] and again in [ObjectDatabase::store].  The fourth
    operand is the string literal ["\0"], a [const char*]. *)
Definition framed (header data : string) : string :=
  header +:+ " " +:+ decimal (N.of_nat (String.length data))
         +:+ c_str_view (String NUL EmptyString) +:+ data.

(** The value of [std::isspace] in the "C" locale. *)
Definition is_space (c : ascii) : bool :=
  let n := N_of_ascii c in
  ((n =? 32) || ((9 <=? n) && (n <=? 13)))%N.

Definition hex_value (c : ascii) : option Z :=
  let n := Z.of_N (N_of_ascii c) in
  if (48 <=? n) && (n <=? 57) then Some (n - 48)
  else if (97 <=? n) && (n <=? 102) then Some (n - 87)
  else if (65 <=? n) && (n <=? 70) then Some (n - 55)
  else None.

Definition is_hex (c : ascii) : bool :=
  match hex_value c with Some _ => true | None => false end.

Fixpoint all_hex (s : string) : bool :=
  match s with
  | EmptyString => true
  | String c rest => is_hex c && all_hex rest
  end.

(** [line.length() == 40 && std::regex_match(line, "^[0-9a-fA-F]+$")] *)
Definition valid_sha1 (line : string) : bool :=
  (String.length line =? 40)%nat && all_hex line.

(** [static_cast<uint8_t>(std::stoi(s, nullptr, 16))] for a string of at
    most two characters, which is what [substr(i * 2, 2)] yields: white
    space and a sign may precede the digits, conversion stops at the first
    character that is no digit, and no digit at all is
    [std::invalid_argument]. *)
Definition stoi16_byte (s : string) : Result Z :=
  match s with
  | EmptyString => Throw "stoi"
  | String c EmptyString =>
      match hex_value c with
      | Some v => Ok v
      | None => Throw "stoi"
      end
  | String c (String d _) =>
      match hex_value c, hex_value d with
      | Some v, Some u => Ok (16 * v + u)
      | Some v, None => Ok v
      | None, Some u =>
          if is_space c || Ascii.eqb c "+" then Ok u
          else if Ascii.eqb c "-" then Ok ((- u) mod 256)
          else Throw "stoi"
      | None, None => Throw "stoi"
      end
  end.

(** The loop [for (i = 0; i < 20; ++i)] that turns a hexadecimal id into
    raw bytes.  [substr(pos, 2)] throws [std::out_of_range] when [pos]
    is beyond the end of the id. *)
Fixpoint raw_id_from (id : string) (i n : nat) : Result string :=
  match n with
  | O => Ok EmptyString
  | S n' =>
      if (String.length id <? i * 2)%nat then Throw "basic_string::substr"
      else
        bindR (stoi16_byte (substr (i * 2) 2 id)) (fun b =>
        bindR (raw_id_from id (S i) n') (fun rest =>
        Ok (String (char_of_byte b) rest)))
  end.

Definition raw_id (id : string) : Result string := raw_id_from id 0 20.

(** [std::sort] with the comparator [a.name < b.name], on a vector that
    is sorted up to its last element.  [std::sort] is not stable: the
    order of entries with equal names is the library's.  The model is the
    insertion sort that libstdc++ runs on vectors of up to 16 elements:
    the entries are taken from first to last, and each is put behind the
    entries whose name is not greater, so that entries of equal name stay
    in the order of insertion. *)
Fixpoint sort_insert (e : TreeEntry) (l : list TreeEntry) : list TreeEntry :=
  match l with
  | [] => [e]
  | x :: l' =>
      if String.ltb (entry_name e) (entry_name x) then e :: x :: l'
      else x :: sort_insert e l'
  end.

Definition sort_entries (l : list TreeEntry) : list TreeEntry :=
  fold_left (fun sorted e => sort_insert e sorted) l [].

Section Codec.

(** The byte order of the host, on which the text of an id depends. *)
Variable host : SHA1.byte_order.

(** The integer values of the [FileMode] enumerators, declared in the
    header [dgit/object.hpp]. *)
Variable mode_value : FileMode -> Z.

(** [Object::compute_id] *)
Definition compute_id (ty : ObjectType) (data : string) : ObjectId :=
  SHA1.hash host (framed (type_header ty) data).

(** [Object::Object(type, data)] *)
Definition new_object (ty : ObjectType) (data : string) (f : Fields) : Object :=
  {| type_ := ty; data_ := data; id_ := compute_id ty data; fields := f |}.

(** [Blob(content)] *)
Definition new_Blob (content : string) : Object :=
  new_object Blob content BlobFields.

(** [Tree::Tree()] *)
Definition new_Tree : Object := new_object Tree EmptyString (TreeFields []).

(** One pass of the loop that rebuilds the tree data. *)
Definition entry_data (e : TreeEntry) : Result string :=
  bindR (raw_id (entry_id e)) (fun raw =>
  Ok (decimal_int (mode_value (entry_mode e)) +:+ " " +:+ entry_name e
        +:+ c_str_view (String NUL EmptyString) +:+ raw)).

Fixpoint tree_data (es : list TreeEntry) : Result string :=
  match es with
  | [] => Ok EmptyString
  | e :: rest =>
      bindR (entry_data e) (fun d =>
      bindR (tree_data rest) (fun ds => Ok (d +:+ ds)))
  end.

(** [Tree::add_entry] *)
Definition add_entry (t : Object) (mode : FileMode) (id : ObjectId)
           (name : string) : Result Object :=
  let entries_ := sort_entries (entries t ++ [mkTreeEntry mode id name]) in
  bindR (tree_data entries_) (fun data =>
  Ok (new_object (type_ t) data (TreeFields entries_))).

Definition person_line (p : Person) : string :=
  person_name p +:+ " <" +:+ person_email p +:+ "> "
    +:+ decimal_int (person_when p) +:+ String "010" EmptyString.

Definition newline : string := String "010" EmptyString.

(** [Commit::Commit()] *)
Definition new_Commit : Object :=
  new_object Commit EmptyString
    (CommitFields EmptyString [] (mkPerson "" "" 0) (mkPerson "" "" 0) EmptyString).

(** [Commit::Commit(tree_id, parent_ids, author, committer, message)] *)
Definition make_Commit (tree_id : string) (parent_ids : list string)
           (author committer : Person) (message : string) : Object :=
  let data :=
    "tree " +:+ tree_id +:+ newline
      +:+ fold_right (fun p acc => "parent " +:+ p +:+ newline +:+ acc)
                     EmptyString parent_ids
      +:+ "author " +:+ person_line author
      +:+ "committer " +:+ person_line committer
      +:+ newline +:+ message in
  new_object Commit data (CommitFields tree_id parent_ids author committer message).

(** [Tag::Tag(object_id, object_type, tag_name, tagger, message)] *)
Definition make_Tag (object_id : string) (object_type : ObjectType)
           (tag_name : string) (tagger : Person) (message : string) : Object :=
  let data :=
    "object " +:+ object_id +:+ newline
      +:+ "type " +:+ type_header object_type +:+ newline
      +:+ "tag " +:+ tag_name +:+ newline
      +:+ "tagger " +:+ person_line tagger
      +:+ newline +:+ message in
  new_object Tag data (TagFields object_id object_type tag_name tagger message).

(** [Object::serialize] *)
Definition serialize (ob : Object) : string := data_ ob.

(** [Object::deserialize] *)
Definition deserialize (raw_data : string) : Result Object :=
  match find_char NUL raw_data with
  | None => Throw "Invalid object data: no null terminator"
  | Some null_pos =>
      let header := substr 0 null_pos raw_data in
      let content := substr_from (null_pos + 1) raw_data in
      match find_char " " header with
      | None => Throw "Invalid object header: no space"
      | Some space_pos =>
          let type_str := substr 0 space_pos header in
          if String.eqb type_str "blob" then Ok (new_Blob content)
          else if String.eqb type_str "tree" then Ok new_Tree
          else if String.eqb type_str "commit" then Ok new_Commit
          else if String.eqb type_str "tag" then
            Ok (make_Tag "" Blob "" (mkPerson "" "" 0) "")
          else Throw ("Unknown object type: " +:+ type_str)
      end
  end.

End Codec.

(** A tree built from a sequence of entries, as
    [Repository::write_tree_recursive] does: [Tree()] followed by one
    [add_entry] per entry. *)
Definition build_tree (host : SHA1.byte_order) (mode_value : FileMode -> Z)
           (es : list TreeEntry) : Result Object :=
  fold_left
    (fun acc e =>
       bindR acc (fun t =>
         add_entry host mode_value t (entry_mode e) (entry_id e) (entry_name e)))
    es (Ok (new_Tree host)).

(** The raw bytes of an id: one byte per pair of hexadecimal digits. *)
Fixpoint hex_pairs (id : string) : string :=
  match id with
  | String c (String d rest) =>
      match hex_value c, hex_value d with
      | Some v, Some u => String (char_of_byte (16 * v + u)) (hex_pairs rest)
      | _, _ => EmptyString
      end
  | _ => EmptyString
  end.

(** The order [Tree::add_entry] sorts by: names ascending as byte
    strings. *)
Definition name_le (a b : TreeEntry) : Prop :=
  String.leb (entry_name a) (entry_name b) = true.

Definition well_formed_id (e : TreeEntry) : Prop := valid_sha1 (entry_id e) = true.

(** What one entry contributes to the tree data, with the bytes put
    between the name and the id as a parameter. *)
Definition entry_bytes (mode_value : FileMode -> Z) (sep : string)
           (e : TreeEntry) : string :=
  decimal_int (mode_value (entry_mode e)) +:+ " " +:+ entry_name e
    +:+ sep +:+ hex_pairs (entry_id e).

Definition entries_bytes (mode_value : FileMode -> Z) (sep : string)
           (es : list TreeEntry) : string :=
  fold_right (fun e acc => entry_bytes mode_value sep e +:+ acc) EmptyString es.

(** The state of a tree object between two calls of [add_entry]. *)
Record tree_ok (mode_value : FileMode -> Z) (given : list TreeEntry)
       (t : Object) : Prop := {
  tree_ok_perm : Permutation (entries t) given;
  tree_ok_sorted : Sorted name_le (entries t);
  tree_ok_data :
    data_ t = entries_bytes mode_value (c_str_view (String NUL EmptyString))
                            (entries t)
}.

(** *** The tree payload in the words of the specification

    Modelled from the spec: the integer values of the [FileMode]
    enumerators, which the absent header [dgit/object.hpp] declares.  The
    specification gives the modes as the mode bits 100644, 100755, 120000
    and 40000 in octal. *)
Definition posix_mode_value (m : FileMode) : Z :=
  match m with
  | Regular => 33188
  | Executable => 33261
  | Symlink => 40960
  | Directory => 16384
  end.

(** "Mode bits encoded as octal text." *)
Definition spec_mode_text (m : FileMode) : string :=
  match m with
  | Regular => "100644"
  | Executable => "100755"
  | Symlink => "120000"
  | Directory => "40000"
  end.

(** "Directory entries ordered as if their name had a trailing slash." *)
Definition spec_sort_key (e : TreeEntry) : string :=
  match entry_mode e with
  | Directory => entry_name e +:+ "/"
  | _ => entry_name e
  end.

Fixpoint spec_sort_insert (e : TreeEntry) (l : list TreeEntry) : list TreeEntry :=
  match l with
  | [] => [e]
  | x :: l' =>
      if String.ltb (spec_sort_key e) (spec_sort_key x) then e :: x :: l'
      else x :: spec_sort_insert e l'
  end.

Definition spec_sort (l : list TreeEntry) : list TreeEntry :=
  fold_right spec_sort_insert [] l.

(** "[<mode-octal> <name>\0<20-byte-oid-binary>]", concatenated without
    separators. *)
Definition spec_entry_data (e : TreeEntry) : string :=
  spec_mode_text (entry_mode e) +:+ " " +:+ entry_name e
    +:+ String NUL EmptyString +:+ hex_pairs (entry_id e).

Definition spec_tree_payload (es : list TreeEntry) : string :=
  fold_right (fun e acc => spec_entry_data e +:+ acc) EmptyString (spec_sort es).

(** ** The environment

    The program reads and writes files by path.  [files] maps every path
    that exists to what a stream opened on it reads: the content of a
    regular file, and nothing for a directory, on which a [std::ifstream]
    opens and every read fails.  Paths are told apart as strings.
    [writable] tells whether a [std::ofstream] on a path opens; [stats] is
    what [stat(2)] reports; [now] is the reading of the system clock.

    A process can hold only so many files open at once (RLIMIT_NOFILE).
    That one file can be opened is part of what [files] and [writable]
    say; [fd_spare] is the number of further files the process can open
    while it holds that one.  It matters where a function keeps its
    stream open over a call that opens files itself. *)

Record Stat : Type := mkStat {
  st_dev : Z;
  st_ino : Z;
  st_mode : Z;
  st_size : Z;
  st_mtime : Z;
  st_ctime : Z
}.

Record World : Type := mkWorld {
  files : gmap string string;
  writable : string -> bool;
  stats : gmap string Stat;
  now : Z;
  fd_spare : nat
}.

Definition set_files (w : World) (f : gmap string string) : World :=
  mkWorld f (writable w) (stats w) (now w) (fd_spare w).

(** [fs::exists(path)] *)
Definition fs_exists (w : World) (path : string) : bool :=
  bool_decide (is_Some (files w !! path)).

(** [std::ofstream file(path); file << content;] when the stream opened. *)
Definition write_file (w : World) (path content : string) : World :=
  set_files w (<[path := content]> (files w)).

(** [std::getline(file, line)]: the characters before the first newline. *)
Fixpoint getline (content : string) : string :=
  match content with
  | EmptyString => EmptyString
  | String c rest =>
      if Ascii.eqb c "010" then EmptyString else String c (getline rest)
  end.

(** [zlib] is an external library.  The model takes the deflate stream of
    a string to be the string itself, which keeps the one property the
    object database relies on: inflating what was deflated gives it back. *)
Definition compress_data (data : string) : string := data.
Definition decompress_data (compressed : string) : Result string := Ok compressed.

(** ** Object database ([src/objects/object_database.cpp]) *)

Record ObjectDatabase : Type := mkObjectDatabase {
  objects_dir_ : string;
  cache_ : gmap string Object
}.

Section Database.

Variable host : SHA1.byte_order.

(** [ObjectDatabase::ObjectDatabase(git_dir)] *)
Definition new_ObjectDatabase (git_dir : string) : ObjectDatabase :=
  {| objects_dir_ := git_dir +:+ "/objects"; cache_ := ∅ |}.

(** [ObjectDatabase::get_object_path] *)
Definition get_object_path (db : ObjectDatabase) (id : ObjectId) : Result string :=
  if (String.length id <? 2)%nat then Throw ("Invalid object ID: " +:+ id)
  else Ok (objects_dir_ db +:+ "/" +:+ substr 0 2 id +:+ "/" +:+ substr_from 2 id).

(** [ObjectDatabase::exists] *)
Definition db_exists (db : ObjectDatabase) (w : World) (id : ObjectId) : Result bool :=
  bindR (get_object_path db id) (fun path => Ok (fs_exists w path)).

(** The string [full_data] that [ObjectDatabase::store] builds. *)
Definition full_data (ob : Object) : string :=
  framed (type_header (type_ ob)) (serialize ob).

(** [ObjectDatabase::store] *)
Definition store (db : ObjectDatabase) (w : World) (ob : Object)
  : Result unit * ObjectDatabase * World :=
  let id := id_ ob in
  match db_exists db w id with
  | Throw e => (Throw e, db, w)
  | Ok true => (Ok tt, db, w)
  | Ok false =>
      let compressed := compress_data (full_data ob) in
      match get_object_path db id with
      | Throw e => (Throw e, db, w)
      | Ok path =>
          if writable w path then
            (Ok tt,
             mkObjectDatabase (objects_dir_ db) (<[id := ob]> (cache_ db)),
             write_file w path compressed)
          else (Throw ("Cannot write object: " +:+ path), db, w)
      end
  end.

(** [ObjectDatabase::load] *)
Definition load (db : ObjectDatabase) (w : World) (id : ObjectId)
  : Result Object * ObjectDatabase :=
  match cache_ db !! id with
  | Some ob => (Ok ob, db)
  | None =>
      match db_exists db w id with
      | Throw e => (Throw e, db)
      | Ok false => (Throw ("Object not found: " +:+ id), db)
      | Ok true =>
          match get_object_path db id with
          | Throw e => (Throw e, db)
          | Ok path =>
              match files w !! path with
              | None => (Throw ("Cannot read object: " +:+ path), db)
              | Some compressed_data =>
                  match bindR (decompress_data compressed_data) (deserialize host) with
                  | Throw e => (Throw e, db)
                  | Ok ob =>
                      (Ok ob,
                       mkObjectDatabase (objects_dir_ db) (<[id := ob]> (cache_ db)))
                  end
              end
          end
      end
  end.

End Database.

(** ** Reference store ([src/refs/refs.cpp]) *)

Definition RefName : Type := string.

Record Refs : Type := mkRefs {
  git_dir_ : string;
  ref_cache_ : gmap string ObjectId
}.

Definition refs_dir_ (r : Refs) : string := git_dir_ r +:+ "/refs".
Definition heads_dir_ (r : Refs) : string := refs_dir_ r +:+ "/heads".

Definition set_ref_cache (r : Refs) (c : gmap string ObjectId) : Refs :=
  mkRefs (git_dir_ r) c.

(** [Refs::get_ref_path] *)
Definition get_ref_path (r : Refs) (name : RefName) : Result string :=
  if String.eqb name "HEAD" then Ok (git_dir_ r +:+ "/HEAD")
  else if String.eqb (substr 0 5 name) "refs/" then Ok (git_dir_ r +:+ "/" +:+ name)
  else match find_char "/" name with
       | None => Ok (heads_dir_ r +:+ "/" +:+ name)
       | Some _ => Throw ("Invalid ref name: " +:+ name)
       end.

(** [Refs::read_ref_file], called while the calling functions hold [held]
    streams open.  The function calls itself on the target of a symbolic
    ref, and its own [std::ifstream file(path)] stays open until it
    returns: the inner call runs with one more stream held.  A stream
    that finds no free descriptor does not open, and the function returns
    [std::nullopt] as for a file that does not exist.  The stack is taken
    to hold as many calls as files can be opened.  [fuel] bounds the depth
    of the calls, and [None] is a call that is still recursing when the
    fuel is spent. *)
Fixpoint read_ref_file_holding (held fuel : nat) (r : Refs) (w : World) (path : string)
  : option (Result (option ObjectId)) :=
  match fuel with
  | O => None
  | S fuel' =>
      if (held <=? fd_spare w)%nat then
        match files w !! path with
        | None => Some (Ok None)
        | Some content =>
            let line := getline content in
            if String.eqb (substr 0 5 line) "ref: " then
              let target := substr_from 5 line in
              match get_ref_path r target with
              | Throw e => Some (Throw e)
              | Ok target_path => read_ref_file_holding (S held) fuel' r w target_path
              end
            else if valid_sha1 line then Some (Ok (Some line))
            else Some (Ok None)
        end
      else Some (Ok None)
  end.

(** [Refs::read_ref_file] called from a function that holds no stream. *)
Definition read_ref_file (fuel : nat) (r : Refs) (w : World) (path : string)
  : option (Result (option ObjectId)) :=
  read_ref_file_holding 0 fuel r w path.

(** [Refs::write_ref_file] *)
Definition write_ref_file (w : World) (path : string) (target : ObjectId)
  : Result unit * World :=
  if writable w path then (Ok tt, write_file w path (target +:+ newline))
  else (Throw ("Cannot write ref file: " +:+ path), w).

(** [Refs::log_ref_change]: a line appended to the reflog, or nothing when
    the reflog cannot be opened. *)
Definition log_ref_change (r : Refs) (w : World) (name : RefName)
           (old_id new_id : ObjectId) : World :=
  let reflog_path := git_dir_ r +:+ "/logs" +:+ "/" +:+ name in
  if writable w reflog_path then
    let line :=
      new_id +:+ " " +:+ old_id +:+ " " +:+ "user" +:+ " <user@example.com> "
        +:+ decimal_int (now w) +:+ " +0000"
        +:+ String "009" "ref update" +:+ newline in
    write_file w reflog_path (default EmptyString (files w !! reflog_path) +:+ line)
  else w.

(** [Refs::resolve_ref], called while the calling functions hold [held]
    streams open. *)
Definition resolve_ref_holding (held fuel : nat) (r : Refs) (w : World) (name : RefName)
  : option (Result ObjectId * Refs) :=
  match ref_cache_ r !! name with
  | Some cached => Some (Ok cached, r)
  | None =>
      match get_ref_path r name with
      | Throw e => Some (Throw e, r)
      | Ok path =>
          if fs_exists w path then
            match read_ref_file_holding held fuel r w path with
            | None => None
            | Some (Throw e) => Some (Throw e, r)
            | Some (Ok None) => Some (Throw ("Cannot resolve ref: " +:+ name), r)
            | Some (Ok (Some target)) =>
                Some (Ok target, set_ref_cache r (<[name := target]> (ref_cache_ r)))
            end
          else Some (Throw ("Ref not found: " +:+ name), r)
      end
  end.

(** [Refs::resolve_ref] called from a function that holds no stream. *)
Definition resolve_ref (fuel : nat) (r : Refs) (w : World) (name : RefName)
  : option (Result ObjectId * Refs) :=
  resolve_ref_holding 0 fuel r w name.

(** [Refs::create_ref] *)
Definition create_ref (r : Refs) (w : World) (name : RefName) (target : ObjectId)
           (symbolic : bool) : Result unit * Refs * World :=
  match get_ref_path r name with
  | Throw e => (Throw e, r, w)
  | Ok path =>
      let written :=
        if symbolic then
          match get_ref_path r target with
          | Throw e => (Throw e, w)
          | Ok target_path =>
              if fs_exists w target_path then
                if writable w path
                then (Ok tt, write_file w path ("ref: " +:+ target +:+ newline))
                else (Throw ("Cannot create ref: " +:+ path), w)
              else (Throw ("Symbolic ref target does not exist: " +:+ target), w)
          end
        else write_ref_file w path target in
      match written with
      | (Throw e, w1) => (Throw e, r, w1)
      | (Ok _, w1) =>
          let r1 := set_ref_cache r (<[name := target]> (ref_cache_ r)) in
          (Ok tt, r1, log_ref_change r1 w1 name EmptyString target)
      end
  end.

(** [Refs::update_ref] *)
Definition update_ref (fuel : nat) (r : Refs) (w : World) (name : RefName)
           (target : ObjectId) : option (Result unit * Refs * World) :=
  match get_ref_path r name with
  | Throw e => Some (Throw e, r, w)
  | Ok path =>
      if fs_exists w path then
        match resolve_ref fuel r w name with
        | None => None
        | Some (Throw e, r1) => Some (Throw e, r1, w)
        | Some (Ok old_target, r1) =>
            match write_ref_file w path target with
            | (Throw e, w1) => Some (Throw e, r1, w1)
            | (Ok _, w1) =>
                let r2 := set_ref_cache r1 (<[name := target]> (ref_cache_ r1)) in
                Some (Ok tt, r2, log_ref_change r2 w1 name old_target target)
            end
        end
      else Some (Throw ("Ref does not exist: " +:+ name), r, w)
  end.

(** [Refs::read_ref] *)
Definition read_ref (fuel : nat) (r : Refs) (w : World) (name : RefName)
  : option (Result (option ObjectId)) :=
  match ref_cache_ r !! name with
  | Some cached => Some (Ok (Some cached))
  | None =>
      match get_ref_path r name with
      | Throw e => Some (Throw e)
      | Ok path =>
          if fs_exists w path then read_ref_file fuel r w path
          else Some (Ok None)
      end
  end.

(** [Refs::get_head].  The stream on [HEAD] is open while [resolve_ref]
    runs. *)
Definition get_head (fuel : nat) (r : Refs) (w : World)
  : option (Result ObjectId * Refs) :=
  match files w !! (git_dir_ r +:+ "/HEAD") with
  | None => Some (Throw "HEAD file not found. Run 'dgit init' first.", r)
  | Some content =>
      let line := getline content in
      if String.eqb (substr 0 5 line) "ref: "
      then resolve_ref_holding 1 fuel r w (substr_from 5 line)
      else Some (Ok line, r)
  end.

(** [Refs::get_head_branch] *)
Definition get_head_branch (r : Refs) (w : World) : option RefName :=
  match files w !! (git_dir_ r +:+ "/HEAD") with
  | None => None
  | Some content =>
      let line := getline content in
      if String.eqb (substr 0 5 line) "ref: " then
        let branch := substr_from 5 line in
        if String.eqb (substr 0 11 branch) "refs/heads/"
        then Some (substr_from 11 branch)
        else None
      else None
  end.

(** ** Index ([src/core/index.cpp]) *)

(** [IndexEntry(path, blob_id, mode, mtime, size)] *)
Record IndexEntry : Type := mkIndexEntry {
  path : string;
  blob_id : ObjectId;
  mode : FileMode;
  mtime : Z;
  size : Z
}.

Record Index : Type := mkIndex {
  index_entries_ : list IndexEntry;
  path_index_ : gmap string nat
}.

(** [Index::update_path_index]: later entries overwrite earlier ones. *)
Definition update_path_index (es : list IndexEntry) : Index :=
  {| index_entries_ := es;
     path_index_ :=
       fold_left (fun (m : gmap string nat) (ie : nat * IndexEntry) =>
                    <[path (snd ie) := fst ie]> m)
                 (imap (fun i e => (i, e)) es) ∅ |}.

(** [Index::is_file_modified] *)
Definition is_file_modified (w : World) (entry : IndexEntry) (filepath : string) : bool :=
  match stats w !! filepath with
  | None => true
  | Some st =>
      negb (st_mtime st =? mtime entry) || negb (st_size st =? size entry)
  end.

(** [Index::get_modified_files] *)
Definition get_modified_files (w : World) (ix : Index) : list string :=
  map path (filter (fun entry => is_file_modified w entry (path entry) = true)
                   (index_entries_ ix)).

Section IndexHashing.

Variable host : SHA1.byte_order.

(** The read loop of [SHA1::hash_file]: chunks of 4096 bytes while a
    full chunk can be read, then the rest. *)
Fixpoint hash_file_chunks (fuel : nat) (rest : list Z) (s : SHA1.t) : SHA1.t :=
  match fuel with
  | O => s
  | S fuel' =>
      if (length rest <? 4096)%nat then fold_left SHA1.update_byte rest s
      else hash_file_chunks fuel' (drop 4096 rest)
                            (fold_left SHA1.update_byte (take 4096 rest) s)
  end.

(** [SHA1::hash_file] *)
Definition hash_file (w : World) (filepath : string) : Result string :=
  match files w !! filepath with
  | None => Throw ("Cannot open file: " +:+ filepath)
  | Some content =>
      let data := bytes_of_string content in
      Ok (fst (SHA1.final host (hash_file_chunks (S (length data)) data SHA1.new)))
  end.

(** [Index::add_entry] *)
Definition index_add_entry (w : World) (ix : Index) (p : string)
           (id : ObjectId) (m : FileMode) : Result Index :=
  let es :=
    match path_index_ ix !! p with
    | Some i => delete i (index_entries_ ix)
    | None => index_entries_ ix
    end in
  match stats w !! p with
  | None => Throw ("Cannot stat file: " +:+ p)
  | Some st =>
      Ok (update_path_index (es ++ [mkIndexEntry p id m (st_mtime st) (st_size st)]))
  end.

(** [S_ISDIR(st.st_mode)] and [st.st_mode & S_IXUSR] *)
Definition S_ISDIR (m : Z) : bool := Z.land m 61440 =? 16384.
Definition S_IXUSR : Z := 64.

(** [Index::add_file] *)
Definition add_file (w : World) (ix : Index) (filepath : string) : Result Index :=
  bindR (hash_file w filepath) (fun blob_id =>
  match stats w !! filepath with
  | None => Throw ("Cannot stat file: " +:+ filepath)
  | Some st =>
      let m :=
        if S_ISDIR (st_mode st) then Directory
        else if negb (Z.land (st_mode st) S_IXUSR =? 0) then Executable
        else Regular in
      index_add_entry w ix filepath blob_id m
  end).

End IndexHashing.

(** ** Merge ([src/merge/merge.cpp]) *)

(** The enumerators the sources name are [Success], [Conflicts],
    [AlreadyUpToDate] and [Failed].  [FastForward] is the fifth status of
    the specification; no source file names it. *)
Inductive MergeStatus : Type :=
| Success | Conflicts | AlreadyUpToDate | Failed | FastForward.

(** [Conflict(path)] *)
Record Conflict : Type := mkConflict { conflict_path : string }.

Record MergeResult : Type := mkMergeResult {
  status : MergeStatus;
  message : string;
  conflicts : list Conflict
}.

Record Repository : Type := mkRepository {
  refs : Refs;
  objects : ObjectDatabase
}.

(** [std::set<std::string>::insert] on the sorted sequence of the set. *)
Fixpoint set_insert (x : string) (l : list string) : list string :=
  match l with
  | [] => [x]
  | y :: l' =>
      if String.eqb x y then l
      else if String.ltb x y then x :: l
      else y :: set_insert x l'
  end.

(** [std::find(v.begin(), v.end(), file) != v.end()] *)
Definition contains (v : list string) (file : string) : bool :=
  existsb (String.eqb file) v.

Section Merge.

Variable host : SHA1.byte_order.

(** [ThreeWayMerge::get_tree_from_commit] *)
Definition get_tree_from_commit (db : ObjectDatabase) (w : World)
           (commit_id : string) : Result string * ObjectDatabase :=
  match load host db w commit_id with
  | (Throw e, db1) => (Throw e, db1)
  | (Ok commit, db1) =>
      match type_ commit with
      | Commit => (Ok (tree_id commit), db1)
      | _ => (Throw ("Invalid commit: " +:+ commit_id), db1)
      end
  end.

(** [ThreeWayMerge::get_tree_files] *)
Definition get_tree_files (db : ObjectDatabase) (w : World) (tree_id : string)
  : Result (list string) * ObjectDatabase :=
  match load host db w tree_id with
  | (Throw e, db1) => (Throw e, db1)
  | (Ok tree, db1) =>
      match type_ tree with
      | Tree =>
          (Ok (map entry_name
                   (filter (fun e => FileMode_eqb (entry_mode e) Directory = false)
                           (entries tree))), db1)
      | _ => (Ok [], db1)
      end
  end.

(** [ThreeWayMerge::read_file_content]: both loads are in a [try] whose
    handler returns the empty string, as does the normal path. *)
Definition read_file_content (db : ObjectDatabase) (w : World)
           (commit_id path : string) : string * ObjectDatabase :=
  match load host db w commit_id with
  | (Throw _, db1) => (EmptyString, db1)
  | (Ok commit, db1) =>
      match load host db1 w (tree_id commit) with
      | (_, db2) => (EmptyString, db2)
      end
  end.

(** [ThreeWayMerge::mark_conflict]: the stream is not checked, so a file
    that cannot be opened is left as it is. *)
Definition mark_conflict (db : ObjectDatabase) (w : World)
           (our_commit_ their_commit_ path : string) : ObjectDatabase * World :=
  let '(ours, db1) := read_file_content db w our_commit_ path in
  let '(theirs, db2) := read_file_content db1 w their_commit_ path in
  let conflict_content :=
    "<<<<<<< HEAD" +:+ newline +:+ ours +:+ "=======" +:+ newline +:+ theirs
      +:+ ">>>>>>> " +:+ substr 0 7 their_commit_ +:+ newline in
  (db2, if writable w path then write_file w path conflict_content else w).

(** The body of [for (const auto& file : all_files)]. *)
Definition merge_file (our_commit_ their_commit_ : string)
           (base_files our_files their_files : list string)
           (acc : list Conflict * ObjectDatabase * World) (file : string)
  : list Conflict * ObjectDatabase * World :=
  let '(conflicts, db, w) := acc in
  let in_base := contains base_files file in
  let in_ours := contains our_files file in
  let in_theirs := contains their_files file in
  if (in_ours && in_theirs) || (negb in_base && in_ours && in_theirs) then
    let '(db1, w1) := mark_conflict db w our_commit_ their_commit_ file in
    (conflicts ++ [mkConflict file], db1, w1)
  else acc.

(** [ThreeWayMerge::perform_three_way_merge] *)
Definition perform_three_way_merge (db : ObjectDatabase) (w : World)
           (our_commit_ their_commit_ base_tree our_tree their_tree : string)
  : Result (list Conflict) * ObjectDatabase * World :=
  match get_tree_files db w base_tree with
  | (Throw e, db1) => (Throw e, db1, w)
  | (Ok base_files, db1) =>
      match get_tree_files db1 w our_tree with
      | (Throw e, db2) => (Throw e, db2, w)
      | (Ok our_files, db2) =>
          match get_tree_files db2 w their_tree with
          | (Throw e, db3) => (Throw e, db3, w)
          | (Ok their_files, db3) =>
              let all_files :=
                fold_left (fun s x => set_insert x s)
                          (base_files ++ our_files ++ their_files) [] in
              let '(conflicts, db4, w4) :=
                fold_left (merge_file our_commit_ their_commit_
                                      base_files our_files their_files)
                          all_files ([], db3, w) in
              (Ok conflicts, db4, w4)
          end
      end
  end.

(** The [try] block of [ThreeWayMerge::merge]. *)
Definition merge_try (db : ObjectDatabase) (w : World)
           (base_commit our_commit their_commit : string)
  : Result (list Conflict) * ObjectDatabase * World :=
  match get_tree_from_commit db w base_commit with
  | (Throw e, db1) => (Throw e, db1, w)
  | (Ok base_tree, db1) =>
      match get_tree_from_commit db1 w our_commit with
      | (Throw e, db2) => (Throw e, db2, w)
      | (Ok our_tree, db2) =>
          match get_tree_from_commit db2 w their_commit with
          | (Throw e, db3) => (Throw e, db3, w)
          | (Ok their_tree, db3) =>
              perform_three_way_merge db3 w our_commit their_commit
                                      base_tree our_tree their_tree
          end
      end
  end.

(** [ThreeWayMerge::merge] *)
Definition merge (db : ObjectDatabase) (w : World)
           (base_commit our_commit their_commit : string)
  : MergeResult * ObjectDatabase * World :=
  match merge_try db w base_commit our_commit their_commit with
  | (Ok [], db1, w1) => (mkMergeResult Success "Merge successful" [], db1, w1)
  | (Ok cs, db1, w1) => (mkMergeResult Conflicts "Merge conflicts detected" cs, db1, w1)
  | (Throw e, db1, w1) => (mkMergeResult Failed ("Merge failed: " +:+ e) [], db1, w1)
  end.

(** [merge::find_merge_base] *)
Definition find_merge_base (repo : Repository) (commit1 commit2 : string) : string :=
  commit1.

(** [MergeCommand::perform_merge], on the repository that
    [Repository::open(".")] returned. *)
Definition perform_merge (fuel : nat) (repo : Repository) (w : World)
           (branch_name : string)
  : option (Result MergeResult * Repository * World) :=
  let our_branch := default "master" (get_head_branch (refs repo) w) in
  match get_head fuel (refs repo) w with
  | None => None
  | Some (Throw e, r1) => Some (Throw e, mkRepository r1 (objects repo), w)
  | Some (Ok our_commit, r1) =>
      let repo1 := mkRepository r1 (objects repo) in
      match read_ref fuel r1 w ("refs/heads/" +:+ branch_name) with
      | None => None
      | Some (Throw e) => Some (Throw e, repo1, w)
      | Some (Ok None) => Some (Throw ("Branch not found: " +:+ branch_name), repo1, w)
      | Some (Ok (Some their_commit)) =>
          if String.eqb our_commit their_commit then
            Some (Ok (mkMergeResult AlreadyUpToDate "Already up to date" []), repo1, w)
          else
            let base_commit := find_merge_base repo1 our_commit their_commit in
            if String.eqb base_commit EmptyString then
              Some (Throw "No common ancestor found", repo1, w)
            else
              let '(result, db1, w1) :=
                merge (objects repo1) w base_commit our_commit their_commit in
              Some (Ok result, mkRepository r1 db1, w1)
      end
  end.

End Merge.


(** ** Symbolic-ref chains

    [symref_chain r w n path oid]: the file at [path] starts a chain of
    [n] symbolic refs that ends at a file holding the id [oid]. *)
Inductive symref_chain (r : Refs) (w : World) : nat -> string -> ObjectId -> Prop :=
| chain_direct (path content : string) :
    files w !! path = Some content ->
    String.eqb (substr 0 5 (getline content)) "ref: " = false ->
    valid_sha1 (getline content) = true ->
    symref_chain r w 0 path (getline content)
| chain_symbolic (n : nat) (path content target_path : string) (oid : ObjectId) :
    files w !! path = Some content ->
    String.eqb (substr 0 5 (getline content)) "ref: " = true ->
    get_ref_path r (substr_from 5 (getline content)) = Ok target_path ->
    symref_chain r w n target_path oid ->
    symref_chain r w (S n) path oid.

(** ** Sample repositories *)

Definition sample_id_a : ObjectId := "0123456789abcdef0123456789abcdef01234567".
Definition sample_id_b : ObjectId := "89abcdef0123456789abcdef0123456789abcdef".
Definition sample_id_c : ObjectId := "fedcba9876543210fedcba9876543210fedcba98".

Definition always_writable (p : string) : bool := true.

(** A chain of six symbolic refs, [r0] to [r6], and a ref that names
    itself. *)
Definition symref_world : World :=
  {| files := list_to_map
       [(".git/refs/heads/r0", "ref: refs/heads/r1" +:+ newline);
        (".git/refs/heads/r1", "ref: refs/heads/r2" +:+ newline);
        (".git/refs/heads/r2", "ref: refs/heads/r3" +:+ newline);
        (".git/refs/heads/r3", "ref: refs/heads/r4" +:+ newline);
        (".git/refs/heads/r4", "ref: refs/heads/r5" +:+ newline);
        (".git/refs/heads/r5", "ref: refs/heads/r6" +:+ newline);
        (".git/refs/heads/r6", sample_id_a +:+ newline);
        (".git/refs/heads/loop", "ref: refs/heads/loop" +:+ newline)];
     writable := always_writable;
     stats := ∅;
     now := 1700000000;
     fd_spare := 1020 |}.

Definition empty_refs : Refs := {| git_dir_ := ".git"; ref_cache_ := ∅ |}.

(** A repository whose branch [main] is at [sample_id_a], with the cache
    that [Refs::load_ref_cache] builds from it. *)
Definition main_world : World :=
  {| files := list_to_map
       [(".git/HEAD", "ref: refs/heads/main" +:+ newline);
        (".git/refs/heads/main", sample_id_a +:+ newline)];
     writable := always_writable;
     stats := ∅;
     now := 1700000000;
     fd_spare := 1020 |}.

Definition main_refs : Refs :=
  {| git_dir_ := ".git";
     ref_cache_ := list_to_map
       [("HEAD", sample_id_a); ("refs/heads/main", sample_id_a)] |}.

(** A working tree with one tracked file, before and after its
    modification time alone is changed. *)
Definition hello_stat (mtime : Z) : Stat :=
  {| st_dev := 2049; st_ino := 7; st_mode := 33188; st_size := 6;
     st_mtime := mtime; st_ctime := 1700000000 |}.

Definition hello_world (mtime : Z) : World :=
  {| files := {[ "hello.txt" := "hello" +:+ newline ]};
     writable := always_writable;
     stats := {[ "hello.txt" := hello_stat mtime ]};
     now := 1700000000;
     fd_spare := 1020 |}.

Definition empty_index : Index := {| index_entries_ := []; path_index_ := ∅ |}.

(** ** Sample merges *)

Definition empty_world : World :=
  {| files := ∅; writable := always_writable; stats := ∅; now := 1700000000;
     fd_spare := 1020 |}.

Definition sample_person : Person := mkPerson "A" "a@x" 1700000000.

(** [store] on each object in turn. *)
Fixpoint store_all (db : ObjectDatabase) (w : World) (obs : list Object)
  : ObjectDatabase * World :=
  match obs with
  | [] => (db, w)
  | ob :: rest =>
      let '(_, db1, w1) := store db w ob in store_all db1 w1 rest
  end.

Record MergeScenario : Type := mkMergeScenario {
  sc_repo : Repository;
  sc_world : World;
  sc_base : Object;
  sc_ours : Object;
  sc_theirs : Object
}.

(** Three commits with one and the same tree, which holds the single
    file [hello.txt]; all objects were stored by this process, so the
    object cache holds them. *)
Definition unchanged_file_scenario (host : SHA1.byte_order) : option MergeScenario :=
  let blob := new_Blob host ("hello" +:+ newline) in
  match build_tree host posix_mode_value [mkTreeEntry Regular (id_ blob) "hello.txt"] with
  | Throw _ => None
  | Ok tree =>
      let base := make_Commit host (id_ tree) [] sample_person sample_person "base" in
      let ours :=
        make_Commit host (id_ tree) [id_ base] sample_person sample_person "ours" in
      let theirs :=
        make_Commit host (id_ tree) [id_ base] sample_person sample_person "theirs" in
      let '(db, w) :=
        store_all (new_ObjectDatabase ".git") empty_world
                  [blob; tree; base; ours; theirs] in
      Some (mkMergeScenario (mkRepository empty_refs db) w base ours theirs)
  end.

(** Branch [master] at a commit and branch [feat] one commit ahead of it,
    with a new file [b.txt].  The objects are on disk as [store] wrote
    them; the repository is the one [Repository::open] builds: the ref
    cache loaded from the ref files, the object cache empty. *)
Definition fast_forward_scenario (host : SHA1.byte_order) : option MergeScenario :=
  let blob1 := new_Blob host ("hi" +:+ newline) in
  let blob2 := new_Blob host "b" in
  match build_tree host posix_mode_value [mkTreeEntry Regular (id_ blob1) "hello.txt"],
        build_tree host posix_mode_value
                   [mkTreeEntry Regular (id_ blob1) "hello.txt";
                    mkTreeEntry Regular (id_ blob2) "b.txt"] with
  | Ok tree1, Ok tree2 =>
      let ours :=
        make_Commit host (id_ tree1) [] sample_person sample_person "second" in
      let theirs :=
        make_Commit host (id_ tree2) [id_ ours] sample_person sample_person "feat" in
      let '(db, w) :=
        store_all (new_ObjectDatabase ".git") empty_world
                  [blob1; tree1; ours; blob2; tree2; theirs] in
      let w1 :=
        write_file
          (write_file
             (write_file w ".git/HEAD" ("ref: refs/heads/master" +:+ newline))
             ".git/refs/heads/master" (id_ ours +:+ newline))
          ".git/refs/heads/feat" (id_ theirs +:+ newline) in
      let r :=
        {| git_dir_ := ".git";
           ref_cache_ := list_to_map
             [("HEAD", id_ ours); ("refs/heads/master", id_ ours);
              ("refs/heads/feat", id_ theirs)] |} in
      Some (mkMergeScenario (mkRepository r (new_ObjectDatabase ".git")) w1
                            ours ours theirs)
  | _, _ => None
  end.

(** Two branches, [main] at [sample_id_a] (checked out) and [feat] at
    [sample_id_b], with the ref cache loaded. *)
Definition two_branch_world : World :=
  {| files := list_to_map
       [(".git/HEAD", "ref: refs/heads/main" +:+ newline);
        (".git/refs/heads/main", sample_id_a +:+ newline);
        (".git/refs/heads/feat", sample_id_b +:+ newline)];
     writable := always_writable;
     stats := ∅;
     now := 1700000000;
     fd_spare := 1020 |}.

Definition two_branch_repo : Repository :=
  {| refs :=
       {| git_dir_ := ".git";
          ref_cache_ := list_to_map
            [("HEAD", sample_id_a); ("refs/heads/main", sample_id_a);
             ("refs/heads/feat", sample_id_b)] |};
     objects := new_ObjectDatabase ".git" |}.

(** ** Further functions of [src/core/sha1.cpp] *)

(** [hex_to_binary]: the loop [for (i = 0; i < hex.length(); i += 2)]
    converts [hex.substr(i, 2)] with [std::stoi(..., 16)]; the last piece
    of a string of odd length is a single character. *)
Fixpoint hex_to_binary (hex : string) : Result string :=
  match hex with
  | EmptyString => Ok EmptyString
  | String c EmptyString =>
      bindR (stoi16_byte (String c EmptyString)) (fun b =>
      Ok (String (char_of_byte b) EmptyString))
  | String c (String d rest) =>
      bindR (stoi16_byte (String c (String d EmptyString))) (fun b =>
      bindR (hex_to_binary rest) (fun bin => Ok (String (char_of_byte b) bin)))
  end.

(** A byte value, as a [uint8_t] holds it. *)
Definition is_byte (b : Z) : Prop := 0 <= b < 256.

(** The state of a hasher between two calls: the pending bytes fit the
    block buffer and the bit count is a [uint64_t]. *)
Record hasher_ok (s : SHA1.t) : Prop := {
  hasher_ok_pending : (SHA1.buffer_length_ s < 64)%nat;
  hasher_ok_buffer : length (SHA1.buffer_ s) = 64%nat;
  hasher_ok_count : 0 <= SHA1.message_length_ s < 2 ^ 64
}.

(** ** Sample objects *)

Definition hello_blob : Object := new_Blob SHA1.LittleEndian ("hello" +:+ newline).

(** The object database and the files after [hello_blob] was stored in an
    empty repository. *)
Definition hello_db : ObjectDatabase :=
  fst (store_all (new_ObjectDatabase ".git") empty_world [hello_blob]).

Definition hello_db_world : World :=
  snd (store_all (new_ObjectDatabase ".git") empty_world [hello_blob]).

(** Every object in the cache came out of [load]: its key is a usable id
    and, being the work of [deserialize], it names no tree. *)
Definition cache_decoded (db : ObjectDatabase) : Prop :=
  forall (id : ObjectId) (ob : Object),
    cache_ db !! id = Some ob ->
    (2 <= String.length id)%nat /\ tree_id ob = EmptyString.

(** Strict order of names as byte strings, the order of
    [std::set<std::string>]. *)
Definition str_lt (a b : string) : Prop := String.ltb a b = true.

(** The object database, the files and the tree of
    [unchanged_file_scenario] on a little-endian host. *)
Definition sample_merge_db : ObjectDatabase :=
  match unchanged_file_scenario SHA1.LittleEndian with
  | Some sc => objects (sc_repo sc)
  | None => new_ObjectDatabase ".git"
  end.

Definition sample_merge_world : World :=
  match unchanged_file_scenario SHA1.LittleEndian with
  | Some sc => sc_world sc
  | None => empty_world
  end.

Definition sample_merge_tree : string :=
  match unchanged_file_scenario SHA1.LittleEndian with
  | Some sc => tree_id (sc_base sc)
  | None => EmptyString
  end.

(** The tree object that the object database holds for that tree. *)
Definition sample_merge_tree_object : Object :=
  match cache_ sample_merge_db !! sample_merge_tree with
  | Some ob => ob
  | None => new_Tree SHA1.LittleEndian
  end.

(** ** Further functions of [src/refs/refs.cpp] *)

(** [fs::remove(path)] on a regular file. *)
Definition remove_file (w : World) (path : string) : World :=
  set_files w (delete path (files w)).

(** [Refs::ref_exists] *)
Definition ref_exists (r : Refs) (w : World) (name : RefName) : Result bool :=
  bindR (get_ref_path r name) (fun path => Ok (fs_exists w path)).

(** [Refs::delete_ref] *)
Definition delete_ref (fuel : nat) (r : Refs) (w : World) (name : RefName)
  : option (Result unit * Refs * World) :=
  match get_ref_path r name with
  | Throw e => Some (Throw e, r, w)
  | Ok path =>
      if fs_exists w path then
        match resolve_ref fuel r w name with
        | None => None
        | Some (Throw e, r1) => Some (Throw e, r1, w)
        | Some (Ok old_target, r1) =>
            let w1 := remove_file w path in
            let r2 := set_ref_cache r1 (delete name (ref_cache_ r1)) in
            Some (Ok tt, r2, log_ref_change r2 w1 name old_target EmptyString)
        end
      else Some (Throw ("Ref does not exist: " +:+ name), r, w)
  end.

(** [Refs::set_head] *)
Definition set_head (r : Refs) (w : World) (commit_id : ObjectId)
  : Result unit * Refs * World :=
  let head_path := git_dir_ r +:+ "/HEAD" in
  if writable w head_path then
    (Ok tt,
     set_ref_cache r (<["HEAD" := commit_id]> (ref_cache_ r)),
     write_file w head_path (commit_id +:+ newline))
  else (Throw "Cannot write to HEAD file", r, w).


(** [Refs::create_symbolic_ref] *)
Definition create_symbolic_ref (r : Refs) (w : World) (name target : RefName)
  : Result unit * Refs * World :=
  create_ref r w name target true.

(** [Refs::read_symbolic_ref] *)
Definition read_symbolic_ref (r : Refs) (w : World) (name : RefName)
  : Result (option RefName) :=
  bindR (get_ref_path r name) (fun path =>
    match files w !! path with
    | None => Ok None
    | Some content =>
        let line := getline content in
        if String.eqb (substr 0 5 line) "ref: " then Ok (Some (substr_from 5 line))
        else Ok None
    end).

(** ** Branch manager ([src/merge/merge.cpp]) *)

(** [BranchManager::get_current_branch] *)
Definition get_current_branch (r : Refs) (w : World) : string :=
  default "HEAD" (get_head_branch r w).

(** [BranchManager::create_branch] *)
Definition create_branch (fuel : nat) (r : Refs) (w : World)
           (name start_point : string) : option (Result bool * Refs * World) :=
  let start :=
    if String.eqb start_point EmptyString then get_head fuel r w
    else Some (Ok start_point, r) in
  match start with
  | None => None
  | Some (Throw e, r1) => Some (Throw e, r1, w)
  | Some (Ok commit_id, r1) =>
      match create_ref r1 w ("refs/heads/" +:+ name) commit_id false with
      | (Throw e, r2, w2) => Some (Throw e, r2, w2)
      | (Ok _, r2, w2) => Some (Ok true, r2, w2)
      end
  end.

(** [BranchManager::delete_branch] *)
Definition delete_branch (fuel : nat) (r : Refs) (w : World)
           (name : string) (force : bool) : option (Result bool * Refs * World) :=
  if negb force && String.eqb name (get_current_branch r w) then
    Some (Throw "Cannot delete current branch", r, w)
  else
    match delete_ref fuel r w ("refs/heads/" +:+ name) with
    | None => None
    | Some (Throw e, r1, w1) => Some (Throw e, r1, w1)
    | Some (Ok _, r1, w1) => Some (Ok true, r1, w1)
    end.

(** [BranchManager::rename_branch] *)
Definition rename_branch (fuel : nat) (r : Refs) (w : World)
           (old_name new_name : string) : option (Result bool * Refs * World) :=
  if String.eqb old_name (get_current_branch r w) then
    Some (Throw "Cannot rename current branch", r, w)
  else
    match read_ref fuel r w ("refs/heads/" +:+ old_name) with
    | None => None
    | Some (Throw e) => Some (Throw e, r, w)
    | Some (Ok None) => Some (Ok false, r, w)
    | Some (Ok (Some commit_id)) =>
        match create_ref r w ("refs/heads/" +:+ new_name) commit_id false with
        | (Throw e, r1, w1) => Some (Throw e, r1, w1)
        | (Ok _, r1, w1) =>
            match delete_ref fuel r1 w1 ("refs/heads/" +:+ old_name) with
            | None => None
            | Some (Throw e, r2, w2) => Some (Throw e, r2, w2)
            | Some (Ok _, r2, w2) => Some (Ok true, r2, w2)
            end
        end
    end.


(** ** Further functions of [src/core/index.cpp] *)

(** [Index::has_entry] *)
Definition has_entry (ix : Index) (p : string) : bool :=
  bool_decide (is_Some (path_index_ ix !! p)).

(** [Index::get_entry].  [None] is the read of [entries_] beyond its end,
    which C++ leaves undefined; it does not occur on an index whose path
    index is in step with its entries. *)
Definition get_entry (ix : Index) (p : string) : option (Result IndexEntry) :=
  match path_index_ ix !! p with
  | None => Some (Throw ("Entry not found: " +:+ p))
  | Some i =>
      match index_entries_ ix !! i with
      | Some e => Some (Ok e)
      | None => None
      end
  end.

(** [Index::remove_entry] and [Index::remove_file] *)
Definition remove_entry (ix : Index) (p : string) : Index :=
  match path_index_ ix !! p with
  | Some i => update_path_index (delete i (index_entries_ ix))
  | None => ix
  end.

(** [Index::list_files] and [Index::get_staged_files] *)
Definition list_files (ix : Index) : list string := map path (index_entries_ ix).

(** [Index::serialize_entry]: [entry.path + "\\0" + entry.blob_id], where
    the middle operand is a string literal. *)
Definition serialize_entry (entry : IndexEntry) : string :=
  path entry +:+ c_str_view (String NUL EmptyString) +:+ blob_id entry.

(** [Index::deserialize_entry] *)
Definition deserialize_entry (data : string) : Result IndexEntry :=
  match find_char NUL data with
  | None => Throw "Invalid index entry format"
  | Some null_pos =>
      Ok (mkIndexEntry (substr 0 null_pos data) (substr_from (null_pos + 1) data)
                       Regular 0 0)
  end.

(** The state of an index between two calls: the path index is the one
    [update_path_index] computes from the entries, and no path is staged
    twice. *)
Record index_ok (ix : Index) : Prop := {
  index_ok_sync : path_index_ ix = path_index_ (update_path_index (index_entries_ ix));
  index_ok_nodup : NoDup (map path (index_entries_ ix))
}.

(** *** The index file ([Index::save], [Index::load]) *)

(** Object representation of a [uint16_t], and its reading back. *)
Definition u16_bytes (o : SHA1.byte_order) (n : Z) : list Z :=
  match o with
  | SHA1.LittleEndian => [n mod 256; (n / 256) mod 256]
  | SHA1.BigEndian => [(n / 256) mod 256; n mod 256]
  end.

Definition read_u16 (o : SHA1.byte_order) (b0 b1 : Z) : Z :=
  match o with
  | SHA1.LittleEndian => b0 + 256 * b1
  | SHA1.BigEndian => 256 * b0 + b1
  end.

(** [std::memcpy(&x, p, 4)] into a [uint32_t]. *)
Definition read_u32 (o : SHA1.byte_order) (b0 b1 b2 b3 : Z) : Z :=
  match o with
  | SHA1.LittleEndian => b0 + 256 * b1 + 65536 * b2 + 16777216 * b3
  | SHA1.BigEndian => 16777216 * b0 + 65536 * b1 + 256 * b2 + b3
  end.

(** The loop of [save] that writes the 20 bytes of a blob id, one
    [file.write] per byte: what was written, and the exception that
    stopped the loop, if any. *)
Fixpoint save_id (id : string) (i n : nat) : string * option string :=
  match n with
  | O => (EmptyString, None)
  | S n' =>
      if (String.length id <? i * 2)%nat then (EmptyString, Some "basic_string::substr"%string)
      else
        match stoi16_byte (substr (i * 2) 2 id) with
        | Throw e => (EmptyString, Some e)
        | Ok b =>
            let '(rest, err) := save_id id (S i) n' in
            (String (char_of_byte b) rest, err)
        end
  end.

(** What [save] writes for one entry: the length of the path as a
    [uint16_t], that many bytes of the path, a NUL, the raw id. *)
Definition save_entry (host : SHA1.byte_order) (entry : IndexEntry)
  : string * option string :=
  let path_len := Z.of_nat (String.length (path entry)) mod 65536 in
  let '(id, err) := save_id (blob_id entry) 0 20 in
  (string_of_bytes (u16_bytes host path_len)
     +:+ substr 0 (Z.to_nat path_len) (path entry)
     +:+ String NUL EmptyString +:+ id,
   err).

Fixpoint save_entries (host : SHA1.byte_order) (es : list IndexEntry)
  : string * option string :=
  match es with
  | [] => (EmptyString, None)
  | e :: rest =>
      match save_entry host e with
      | (written, Some err) => (written, Some err)
      | (written, None) =>
          let '(more, err) := save_entries host rest in (written +:+ more, err)
      end
  end.

(** [Index::save].  The stream is flushed when the function is left, so
    after an exception the file holds what had been written. *)
Definition index_save (host : SHA1.byte_order) (w : World) (index_file : string)
           (ix : Index) : Result unit * World :=
  if writable w index_file then
    let header :=
      "DIRC" +:+ string_of_bytes (SHA1.word_bytes host 2)
             +:+ string_of_bytes
                   (SHA1.word_bytes host
                      (Z.of_nat (length (index_entries_ ix)) mod 2 ^ 32)) in
    let '(body, err) := save_entries host (index_entries_ ix) in
    (match err with Some e => Throw e | None => Ok tt end,
     write_file w index_file (header +:+ body))
  else (Throw ("Cannot write index file: " +:+ index_file), w).

Definition char_at (s : string) (i : nat) : Z :=
  match String.get i s with
  | Some c => byte_of_char c
  | None => 0
  end.

(** One pass of the loop of [load].  [None]: the file ends before the
    entry does, and the loop goes on with buffers it has not filled. *)
Definition load_entry (host : SHA1.byte_order) (s : string)
  : option (IndexEntry * string) :=
  if (String.length s <? 2)%nat then None
  else
    let path_len := Z.to_nat (read_u16 host (char_at s 0) (char_at s 1)) in
    let s1 := substr_from 2 s in
    if (String.length s1 <? path_len + 1 + 20)%nat then None
    else
      let p := substr 0 path_len s1 in
      let s2 := substr_from (path_len + 1) s1 in
      let id_str := SHA1.binary_to_hex (bytes_of_string (substr 0 20 s2)) in
      Some (mkIndexEntry p id_str Regular 0 0, substr_from 20 s2).

Fixpoint load_entries (host : SHA1.byte_order) (count : nat) (s : string)
  : option (list IndexEntry) :=
  match count with
  | O => Some []
  | S count' =>
      match load_entry host s with
      | None => None
      | Some (e, rest) =>
          match load_entries host count' rest with
          | None => None
          | Some es => Some (e :: es)
          end
      end
  end.

(** [Index::load] on an index whose entries so far are those of [ix].
    [None]: the file is shorter than what is read from it. *)
Definition index_load (host : SHA1.byte_order) (w : World) (index_file : string)
           (ix : Index) : option (Result Index) :=
  match files w !! index_file with
  | None => Some (Ok ix)
  | Some content =>
      if (String.length content <? 4)%nat then None
      else if negb (String.eqb (substr 0 4 content) "DIRC") then
        Some (Throw "Invalid index file header")
      else if (String.length content <? 12)%nat then None
      else
        let entry_count :=
          read_u32 host (char_at content 8) (char_at content 9)
                   (char_at content 10) (char_at content 11) in
        match load_entries host (Z.to_nat entry_count) (substr_from 12 content) with
        | None => None
        | Some es => Some (Ok (update_path_index es))
        end
  end.

(** An id as [load] prints it: 40 digits, the letters in lower case. *)
Definition is_lower_hex (c : ascii) : bool :=
  let n := Z.of_N (N_of_ascii c) in
  ((48 <=? n) && (n <=? 57)) || ((97 <=? n) && (n <=? 102)).

Fixpoint all_lower_hex (s : string) : bool :=
  match s with
  | EmptyString => true
  | String c rest => is_lower_hex c && all_lower_hex rest
  end.

Definition storable (e : IndexEntry) : Prop :=
  String.length (blob_id e) = 40%nat /\ all_lower_hex (blob_id e) = true /\
  Z.of_nat (String.length (path e)) < 65536.

(** What is left of an entry after a [save] and a [load]. *)
Definition reloaded (e : IndexEntry) : IndexEntry :=
  mkIndexEntry (path e) (blob_id e) Regular 0 0.
(** * Properties *)

(** ** Byte strings *)

#[local] Arguments String.append !_ _ / : simpl nomatch.

Lemma c_str_view_nul_literal : c_str_view (String NUL EmptyString) = EmptyString.
Proof. reflexivity. Qed.

Lemma find_char_app (c : ascii) (s1 s2 : string) :
  find_char c (s1 +:+ s2) =
  match find_char c s1 with
  | Some i => Some i
  | None => option_map (Nat.add (String.length s1)) (find_char c s2)
  end.
Proof.
  induction s1 as [|d s1 IH]; simpl.
  - destruct (find_char c s2); reflexivity.
  - destruct (Ascii.eqb d c); [reflexivity|].
    rewrite IH. destruct (find_char c s1); [reflexivity|].
    destruct (find_char c s2); reflexivity.
Qed.

Lemma substr_from_app (s1 s2 : string) (k : nat) :
  substr_from (String.length s1 + k) (s1 +:+ s2) = substr_from k s2.
Proof. induction s1 as [|d s1 IH]; simpl; [reflexivity|exact IH]. Qed.

Lemma substr_to_app (s1 s2 : string) (k : nat) :
  substr_to (String.length s1 + k) (s1 +:+ s2) = s1 +:+ substr_to k s2.
Proof. induction s1 as [|d s1 IH]; simpl; [reflexivity|now rewrite IH]. Qed.

Lemma find_char_lt (c : ascii) (s : string) (i : nat) :
  find_char c s = Some i -> (i < String.length s)%nat.
Proof.
  revert i. induction s as [|d s IH]; simpl; intros i H; [discriminate|].
  destruct (Ascii.eqb d c).
  - injection H as <-. lia.
  - destruct (find_char c s) as [k|]; [|discriminate].
    injection H as <-. specialize (IH k eq_refl). lia.
Qed.

Lemma substr_from_length (s : string) (k : nat) :
  String.length (substr_from k s) = (String.length s - k)%nat.
Proof.
  revert s. induction k as [|k IH]; intros s; simpl; [lia|].
  destruct s as [|d s]; simpl; [reflexivity|apply IH].
Qed.

Lemma length_append (s1 s2 : string) :
  String.length (s1 +:+ s2) = (String.length s1 + String.length s2)%nat.
Proof. induction s1 as [|d s1 IH]; simpl; [reflexivity|now rewrite IH]. Qed.

Lemma append_assoc (a b c : string) : (a +:+ b) +:+ c = a +:+ (b +:+ c).
Proof. induction a as [|d a IH]; simpl; [reflexivity|now rewrite IH]. Qed.

Lemma append_inv_head (a x y : string) : a +:+ x = a +:+ y -> x = y.
Proof. induction a as [|d a IH]; simpl; intros H; [exact H|]. injection H as H. auto. Qed.

(** Decimal text holds digits only: neither a NUL nor a space. *)
Lemma find_char_uint (c : ascii) (d : Decimal.uint) :
  (N_of_ascii c < 48)%N ->
  find_char c (NilEmpty.string_of_uint d) = None.
Proof.
  intros Hc.
  assert (Hne : forall k : ascii,
             (48 <= N_of_ascii k)%N -> Ascii.eqb k c = false).
  { intros k Hk. apply Ascii.eqb_neq. intros ->. lia. }
  induction d; cbn [NilEmpty.string_of_uint find_char]; try reflexivity;
    (rewrite Hne by (vm_compute; discriminate)); rewrite IHd; reflexivity.
Qed.

Lemma find_char_decimal (c : ascii) (n : N) :
  (N_of_ascii c < 48)%N -> find_char c (decimal n) = None.
Proof.
  intros Hc. unfold decimal, NilZero.string_of_uint.
  destruct (N.to_uint n) eqn:E; try (apply find_char_uint; exact Hc).
  cbn [find_char]. assert (Ascii.eqb "0" c = false) as ->; [|reflexivity].
  apply Ascii.eqb_neq. intros <-. vm_compute in Hc. discriminate.
Qed.

(** ** SHA-1 *)

Lemma pad_measure_zero (n : nat) :
  ((120 - n mod 64) mod 64 = 0)%nat -> (n mod 64 = 56)%nat.
Proof.
  intros Hm.
  pose proof (Nat.mod_upper_bound n 64 ltac:(lia)) as Hr.
  pose proof (Nat.Div0.div_mod (120 - n mod 64) 64) as Hd.
  revert Hr Hd Hm. generalize (n mod 64)%nat. intros r.
  generalize ((120 - r) / 64)%nat ((120 - r) mod 64)%nat. intros. lia.
Qed.

Lemma pad_measure_step (n n1 : nat) :
  (n1 mod 64 = n mod 64)%nat -> (n mod 64)%nat <> 56%nat ->
  S ((120 - S n1 mod 64) mod 64) = ((120 - n mod 64) mod 64)%nat.
Proof.
  intros Hn1 E.
  replace (S n1) with (n1 + 1)%nat by lia.
  rewrite <- Nat.Div0.add_mod_idemp_l, Hn1.
  pose proof (Nat.mod_upper_bound n 64 ltac:(lia)) as Hr.
  revert Hr E. generalize (n mod 64)%nat. clear. intros r Hr E.
  assert (r < 56 \/ (56 < r < 63) \/ r = 63)%nat as [H|[H| ->]] by lia.
  - rewrite (Nat.mod_small (r + 1)) by lia.
    replace (120 - (r + 1))%nat with ((56 - (r + 1)) + 1 * 64)%nat by lia.
    replace (120 - r)%nat with ((56 - r) + 1 * 64)%nat by lia.
    rewrite !Nat.Div0.mod_add, !Nat.mod_small; lia.
  - rewrite (Nat.mod_small (r + 1)) by lia.
    rewrite !Nat.mod_small; lia.
  - reflexivity.
Qed.

(** The padding loop leaves with its condition false: the fuel of
    [pad_message] is enough from every buffer length. *)
Lemma pad_zeros_exits_within (fuel : nat) (s : SHA1.t) :
  ((120 - SHA1.buffer_length_ s mod 64) mod 64 <= fuel)%nat ->
  (SHA1.buffer_length_ (SHA1.pad_zeros fuel s) mod 64 = 56)%nat.
Proof.
  revert s. induction fuel as [|fuel IH]; intros s Hm; cbn [SHA1.pad_zeros];
    destruct (Nat.eqb_spec (SHA1.buffer_length_ s mod 64) 56) as [E|E];
    cbn [negb]; try exact E.
  - apply pad_measure_zero. lia.
  - apply IH. cbn [SHA1.buffer_length_ SHA1.set_buffer].
    pose proof (pad_measure_step (SHA1.buffer_length_ s)
                  (SHA1.buffer_length_
                     (if (SHA1.buffer_length_ s =? 64)%nat
                      then SHA1.set_buffer (SHA1.process_block s) (SHA1.buffer_ s) 0
                      else s))) as Hs.
    rewrite <- Hs in Hm; [lia| |exact E].
    destruct (Nat.eqb_spec (SHA1.buffer_length_ s) 64) as [E64|E64];
      cbn [SHA1.buffer_length_ SHA1.set_buffer]; [rewrite E64|]; reflexivity.
Qed.

Lemma pad_zeros_exits (s : SHA1.t) :
  (SHA1.buffer_length_ (SHA1.pad_zeros 64 s) mod 64 = 56)%nat.
Proof.
  apply pad_zeros_exits_within.
  pose proof (Nat.mod_upper_bound ((120 - SHA1.buffer_length_ s mod 64)) 64). lia.
Qed.

(** On a big-endian host the digests are the standard ones. *)
Lemma sha1_known_answers_big_endian :
  SHA1.hash SHA1.BigEndian "" = "da39a3ee5e6b4b0d3255bfef95601890afd80709"%string /\
  SHA1.hash SHA1.BigEndian "abc" = "a9993e364706816aba3e25717850c26c9cd0d89d"%string /\
  SHA1.hash SHA1.BigEndian "hello world" = "2aae6c35c94fcfb415dbe95f408b9ce91ee846ed"%string.
Proof. repeat split; vm_compute; reflexivity. Qed.

(** C2: the known-answer digests are the standard ones.  On a
    little-endian host [SHA1::final] does not return them: it copies each
    state word into the digest in host byte order, so every group of eight
    hexadecimal digits comes out byte-reversed. *)
Theorem sha1_known_answers_little_endian :
  SHA1.hash SHA1.LittleEndian "" = "eea339da0d4b6b5eefbf5532901860950907d8af"%string /\
  SHA1.hash SHA1.LittleEndian "abc" = "363e99a96a81064771253eba6cc250789dd8d09c"%string /\
  SHA1.hash SHA1.LittleEndian "hello world" = "356cae2ab4cf4fc95fe9db15e99c8b40ed46e81e"%string /\
  SHA1.hash SHA1.LittleEndian "" <> "da39a3ee5e6b4b0d3255bfef95601890afd80709"%string /\
  SHA1.hash SHA1.LittleEndian "abc" <> "a9993e364706816aba3e25717850c26c9cd0d89d"%string /\
  SHA1.hash SHA1.LittleEndian "hello world" <> "2aae6c35c94fcfb415dbe95f408b9ce91ee846ed"%string.
Proof. repeat split; vm_compute; try reflexivity; discriminate. Qed.

(** Writing the five words through [uint32_t*] into a 20-byte array gives
    the bytes found at [&h0_]. *)
Lemma stored_words_are_state_bytes (o : SHA1.byte_order) (a b c d e : Z) :
  SHA1.store_word o 4 e (SHA1.store_word o 3 d (SHA1.store_word o 2 c
    (SHA1.store_word o 1 b (SHA1.store_word o 0 a (replicate 20 0))))) =
  take 20 (SHA1.word_bytes o a ++ SHA1.word_bytes o b ++ SHA1.word_bytes o c
             ++ SHA1.word_bytes o d ++ SHA1.word_bytes o e).
Proof. destruct o; reflexivity. Qed.

(** C10: a second [final()] does not throw and returns the digest of the
    first, while [update()] on the finalized hasher throws. *)
Theorem final_is_idempotent (o : SHA1.byte_order) (s : SHA1.t) (data : list Z) :
  SHA1.final o (snd (SHA1.final o s)) = SHA1.final o s /\
  SHA1.finalized_ (snd (SHA1.final o s)) = true /\
  SHA1.update (snd (SHA1.final o s)) data =
    Throw "SHA1: Cannot update after finalization".
Proof.
  unfold SHA1.final. destruct (SHA1.finalized_ s) eqn:E; cbn [snd].
  - rewrite E. unfold SHA1.update. rewrite E. auto.
  - generalize (SHA1.process_block (SHA1.pad_message s)).
    intros [a b c d e ml bf bl fin].
    cbn [SHA1.finalized_ SHA1.h0_ SHA1.h1_ SHA1.h2_ SHA1.h3_ SHA1.h4_
         SHA1.message_length_ SHA1.buffer_ SHA1.buffer_length_].
    rewrite stored_words_are_state_bytes. unfold SHA1.update, SHA1.state_bytes.
    cbn [SHA1.finalized_ SHA1.h0_ SHA1.h1_ SHA1.h2_ SHA1.h3_ SHA1.h4_]. auto.
Qed.

(** ** Object codec *)

Section CodecProperties.

Variable host : SHA1.byte_order.

(** The frame written by [compute_id] and by [store] is the header, the
    decimal length and the payload, with nothing between the length and
    the payload: its first NUL, if any, is the first NUL of the payload. *)
Lemma framed_blob_has_no_separator (b : string) :
  framed (type_header Blob) b
    = "blob " +:+ decimal (N.of_nat (String.length b)) +:+ b /\
  find_char NUL (framed (type_header Blob) b)
    = option_map
        (Nat.add (5 + String.length (decimal (N.of_nat (String.length b)))))
        (find_char NUL b).
Proof.
  assert (E : framed (type_header Blob) b
              = "blob " +:+ decimal (N.of_nat (String.length b)) +:+ b)
    by reflexivity.
  split; [exact E|]. rewrite E.
  rewrite (find_char_app NUL "blob "). change (find_char NUL "blob ") with (@None nat).
  rewrite find_char_app, find_char_decimal by reflexivity.
  destruct (find_char NUL b); reflexivity.
Qed.

(** What [deserialize] makes of the frame of a blob. *)
Lemma deserialize_framed_blob (b : string) :
  deserialize host (framed (type_header Blob) b) =
  match find_char NUL b with
  | None => Throw "Invalid object data: no null terminator"
  | Some i => Ok (new_Blob host (substr_from (i + 1) b))
  end.
Proof.
  unfold deserialize.
  destruct (framed_blob_has_no_separator b) as [E Hfind]. rewrite Hfind, E.
  destruct (find_char NUL b) as [i|]; cbn [option_map]; [|reflexivity].
  set (d := decimal (N.of_nat (String.length b))).
  unfold substr. cbn [substr_from].
  replace (5 + String.length d + i)%nat
    with (String.length "blob " + (String.length d + i))%nat by reflexivity.
  rewrite (substr_to_app "blob ").
  rewrite (find_char_app " " "blob ").
  change (find_char " " "blob ") with (Some 4%nat). cbv iota.
  change (substr_to 4 ("blob " +:+ substr_to (String.length d + i) (d +:+ b)))
    with "blob"%string.
  change (String.eqb "blob" "blob") with true. cbv iota.
  replace (String.length "blob " + (String.length d + i) + 1)%nat
    with (String.length "blob " + (String.length d + (i + 1)))%nat by lia.
  rewrite (substr_from_app "blob "), substr_from_app. reflexivity.
Qed.

(** Whatever [deserialize] accepts as a blob, the payload it returns is
    what follows the first NUL of its input. *)
Lemma deserialize_blob_payload (raw : string) (ob : Object) :
  deserialize host raw = Ok ob -> type_ ob = Blob ->
  exists i, find_char NUL raw = Some i /\ data_ ob = substr_from (i + 1) raw.
Proof.
  unfold deserialize. destruct (find_char NUL raw) as [i|]; [|discriminate].
  destruct (find_char " " (substr 0 i raw)) as [sp|]; [|discriminate].
  destruct (String.eqb (substr 0 sp (substr 0 i raw)) "blob").
  { intros H _. injection H as <-. exists i. split; reflexivity. }
  destruct (String.eqb (substr 0 sp (substr 0 i raw)) "tree").
  { intros H Hty. injection H as <-. discriminate Hty. }
  destruct (String.eqb (substr 0 sp (substr 0 i raw)) "commit").
  { intros H Hty. injection H as <-. discriminate Hty. }
  destruct (String.eqb (substr 0 sp (substr 0 i raw)) "tag").
  { intros H Hty. injection H as <-. discriminate Hty. }
  discriminate.
Qed.

(** C1: the identifier of a blob is the digest of a frame with a NUL
    between header and payload.  For the payload [hello] the bytes that
    are hashed and stored are [blob 5hello]: they hold no NUL, and their
    digest is not the digest of the frame with the separator. *)
Theorem blob_hello_frame_lacks_nul :
  framed (type_header Blob) "hello" = "blob 5hello"%string /\
  full_data (new_Blob host "hello") = "blob 5hello"%string /\
  find_char NUL (full_data (new_Blob host "hello")) = None /\
  id_ (new_Blob host "hello") = SHA1.hash host "blob 5hello" /\
  id_ (new_Blob host "hello")
    <> SHA1.hash host ("blob 5" +:+ String NUL "hello").
Proof.
  repeat split; try reflexivity.
  destruct host; vm_compute; discriminate.
Qed.

(** C3: decoding the frame of a blob gives back the payload.  In the
    code the decoder either throws, when the payload holds no NUL, or
    returns a blob whose payload is a strictly shorter suffix of the one
    that was framed; the same holds for the unframed bytes that
    [serialize] returns. *)
Theorem blob_round_trip_fails (b : string) :
  match deserialize host (framed (type_header Blob) b) with
  | Throw what =>
      find_char NUL b = None /\
      what = "Invalid object data: no null terminator"%string
  | Ok ob =>
      type_ ob = Blob /\ (String.length (data_ ob) < String.length b)%nat
  end /\
  deserialize host (serialize (new_Blob host b)) <> Ok (new_Blob host b).
Proof.
  split.
  - rewrite deserialize_framed_blob.
    destruct (find_char NUL b) as [i|] eqn:E; [|split; reflexivity].
    split; [reflexivity|]. cbn [data_ new_Blob new_object].
    rewrite substr_from_length. apply find_char_lt in E. lia.
  - intros H. apply deserialize_blob_payload in H as (i & Hi & Hd); [|reflexivity].
    cbn [serialize data_ new_Blob new_object] in Hi, Hd.
    apply find_char_lt in Hi.
    apply (f_equal String.length) in Hd. rewrite substr_from_length in Hd. lia.
Qed.

End CodecProperties.

(** ** Trees *)

Lemma ltb_leb (a b : string) : String.ltb a b = true -> String.leb a b = true.
Proof.
  unfold String.ltb, String.leb. destruct (String.compare a b); congruence.
Qed.

Lemma not_ltb_leb (a b : string) : String.ltb a b = false -> String.leb b a = true.
Proof.
  unfold String.ltb, String.leb. rewrite (String.compare_antisym a b).
  destruct (String.compare b a); simpl; congruence.
Qed.

Lemma sort_insert_perm (e : TreeEntry) (l : list TreeEntry) :
  Permutation (sort_insert e l) (e :: l).
Proof.
  induction l as [|x l IH]; simpl; [reflexivity|].
  destruct (String.ltb (entry_name e) (entry_name x)); [reflexivity|].
  rewrite IH. apply perm_swap.
Qed.

Lemma sort_insert_sorted (e : TreeEntry) (l : list TreeEntry) :
  Sorted name_le l -> Sorted name_le (sort_insert e l).
Proof.
  induction l as [|x l IH]; simpl; intros Hs.
  - repeat constructor.
  - destruct (String.ltb (entry_name e) (entry_name x)) eqn:E.
    + constructor; [exact Hs|]. constructor. apply ltb_leb, E.
    + apply Sorted_inv in Hs as [Hs Hhd]. constructor; [apply IH, Hs|].
      destruct l as [|y l]; simpl.
      * constructor. apply not_ltb_leb, E.
      * destruct (String.ltb (entry_name e) (entry_name y)).
        -- constructor. apply not_ltb_leb, E.
        -- constructor. apply HdRel_inv in Hhd. exact Hhd.
Qed.

Lemma sort_entries_perm (l : list TreeEntry) : Permutation (sort_entries l) l.
Proof.
  unfold sort_entries. change l with ([] ++ l) at 2. generalize (@nil TreeEntry).
  induction l as [|e l IH]; intros acc; cbn [fold_left].
  - now rewrite app_nil_r.
  - rewrite IH, sort_insert_perm. apply Permutation_middle.
Qed.

Lemma sort_entries_sorted (l : list TreeEntry) : Sorted name_le (sort_entries l).
Proof.
  unfold sort_entries.
  assert (H : Sorted name_le (@nil TreeEntry)) by constructor.
  revert H. generalize (@nil TreeEntry).
  induction l as [|e l IH]; intros acc Hacc; cbn [fold_left]; [exact Hacc|].
  apply IH, sort_insert_sorted, Hacc.
Qed.

(** Entries of equal name stay in the order in which they were added. *)
Lemma sort_entries_keeps_insertion_order (m1 m2 : FileMode) (id1 id2 : ObjectId)
      (name : string) :
  sort_entries [mkTreeEntry m1 id1 name; mkTreeEntry m2 id2 name]
  = [mkTreeEntry m1 id1 name; mkTreeEntry m2 id2 name].
Proof.
  unfold sort_entries. cbn [fold_left sort_insert entry_name].
  assert (E : String.ltb name name = false).
  { unfold String.ltb. pose proof (String.compare_antisym name name) as H.
    destruct (String.compare name name); [reflexivity|discriminate H|reflexivity]. }
  rewrite E. reflexivity.
Qed.

(** A well-formed id is turned into its 20 raw bytes. *)
Lemma all_hex_substr_from (k : nat) (s : string) :
  all_hex s = true -> all_hex (substr_from k s) = true.
Proof.
  revert s. induction k as [|k IH]; intros s H; simpl; [exact H|].
  destruct s as [|c s]; [reflexivity|]. simpl in H.
  apply andb_prop in H as [_ H]. apply IH, H.
Qed.

Lemma substr_from_S (k : nat) (s : string) :
  substr_from (S k) s = substr_from 1 (substr_from k s).
Proof.
  revert s. induction k as [|k IH]; intros s; [reflexivity|].
  destruct s as [|c s]; [reflexivity|]. cbn [substr_from] in *. apply IH.
Qed.

Lemma raw_id_from_hex (id : string) (n i : nat) :
  all_hex id = true -> String.length id = (2 * (i + n))%nat ->
  raw_id_from id i n = Ok (hex_pairs (substr_from (i * 2) id)) /\
  String.length (hex_pairs (substr_from (i * 2) id)) = n.
Proof.
  intros Hhex. revert i. induction n as [|n IH]; intros i Hlen.
  - cbn [raw_id_from].
    assert (E : substr_from (i * 2) id = EmptyString).
    { pose proof (substr_from_length id (i * 2)) as L.
      destruct (substr_from (i * 2) id); [reflexivity|simpl in L; lia]. }
    rewrite E. split; reflexivity.
  - cbn [raw_id_from].
    destruct (Nat.ltb_spec (String.length id) (i * 2)) as [Hlt|_]; [lia|].
    destruct (IH (S i)) as [IHr IHl]; [lia|].
    pose proof (all_hex_substr_from (i * 2) id Hhex) as Hh.
    pose proof (substr_from_length id (i * 2)) as L.
    replace (S i * 2)%nat with (S (S (i * 2))) in IHr, IHl by lia.
    rewrite (substr_from_S (S (i * 2))), (substr_from_S (i * 2)) in IHr, IHl.
    unfold substr.
    destruct (substr_from (i * 2) id) as [|c [|d rest]];
      cbn [String.length] in L; try lia.
    cbn [all_hex] in Hh. apply andb_prop in Hh as [Hc Hh].
    apply andb_prop in Hh as [Hd _].
    unfold is_hex in Hc, Hd.
    cbn [substr_to stoi16_byte hex_pairs substr_from] in *.
    destruct (hex_value c) as [v|]; [|discriminate].
    destruct (hex_value d) as [u|]; [|discriminate].
    cbn [bindR]. rewrite IHr. cbn [bindR String.length]. split; [reflexivity|lia].
Qed.

Lemma raw_id_valid (id : string) :
  valid_sha1 id = true ->
  raw_id id = Ok (hex_pairs id) /\ String.length (hex_pairs id) = 20%nat.
Proof.
  unfold valid_sha1. intros H. apply andb_prop in H as [Hlen Hhex].
  apply Nat.eqb_eq in Hlen.
  apply (raw_id_from_hex id 20 0 Hhex). rewrite Hlen. reflexivity.
Qed.

Section TreeProperties.

Variable host : SHA1.byte_order.
Variable mode_value : FileMode -> Z.

Lemma tree_data_entries (es : list TreeEntry) :
  Forall well_formed_id es ->
  tree_data mode_value es
    = Ok (entries_bytes mode_value (c_str_view (String NUL EmptyString)) es).
Proof.
  induction 1 as [|e es He _ IH]; [reflexivity|].
  cbn [tree_data entries_bytes fold_right]. unfold entry_data.
  destruct (raw_id_valid _ He) as [-> _]. cbn [bindR].
  fold (entries_bytes mode_value (c_str_view (String NUL EmptyString)) es).
  rewrite IH. reflexivity.
Qed.

Lemma add_entry_tree_ok (given : list TreeEntry) (t : Object) (e : TreeEntry) :
  tree_ok mode_value given t -> Forall well_formed_id given -> well_formed_id e ->
  exists t',
    add_entry host mode_value t (entry_mode e) (entry_id e) (entry_name e) = Ok t' /\
    tree_ok mode_value (given ++ [e]) t'.
Proof.
  intros [Hp Hs Hd] Hg He. unfold add_entry.
  assert (Ee : mkTreeEntry (entry_mode e) (entry_id e) (entry_name e) = e)
    by (destruct e; reflexivity).
  rewrite Ee.
  assert (Hperm : Permutation (sort_entries (entries t ++ [e])) (given ++ [e])).
  { rewrite sort_entries_perm. now rewrite Hp. }
  rewrite tree_data_entries.
  - cbn [bindR]. eexists. split; [reflexivity|].
    split; cbn [entries fields new_object data_].
    + exact Hperm.
    + apply sort_entries_sorted.
    + reflexivity.
  - eapply Permutation_Forall; [symmetry; exact Hperm|].
    apply Forall_app. split; [exact Hg|]. constructor; [exact He|constructor].
Qed.

Lemma build_tree_from (given es : list TreeEntry) (t : Object) :
  tree_ok mode_value given t -> Forall well_formed_id given -> Forall well_formed_id es ->
  exists t',
    fold_left
      (fun acc e =>
         bindR acc (fun t =>
           add_entry host mode_value t (entry_mode e) (entry_id e) (entry_name e)))
      es (Ok t) = Ok t' /\
    tree_ok mode_value (given ++ es) t'.
Proof.
  revert given t. induction es as [|e es IH]; intros given t Ht Hg Hes.
  - exists t. rewrite app_nil_r. split; [reflexivity|exact Ht].
  - apply Forall_cons in Hes as [He Hes]. cbn [fold_left bindR].
    destruct (add_entry_tree_ok given t e Ht Hg He) as (t1 & -> & Ht1).
    destruct (IH (given ++ [e]) t1 Ht1) as (t' & E & Ht'); [|exact Hes|].
    + apply Forall_app. split; [exact Hg|]. constructor; [exact He|constructor].
    + exists t'. split; [exact E|]. now rewrite <- app_assoc in Ht'.
Qed.

(** C4, as the code has it: the payload of a tree built from entries
    with well-formed ids is the concatenation, entry after entry with
    nothing in between, of the mode as [operator<<] prints the
    enumerator, a space, the name and, at the end, the 20 raw bytes of
    the id; the entries are in ascending order of their names as byte
    strings, whatever their modes. *)
Theorem tree_payload_sorted_by_name (es : list TreeEntry) :
  Forall well_formed_id es ->
  exists t sep,
    build_tree host mode_value es = Ok t /\
    Permutation (entries t) es /\
    Sorted name_le (entries t) /\
    data_ t = entries_bytes mode_value sep (entries t) /\
    Forall (fun e => String.length (hex_pairs (entry_id e)) = 20%nat) (entries t).
Proof.
  intros Hes.
  destruct (build_tree_from [] es (new_Tree host)) as (t & E & [Hp Hs Hd]).
  - split; [reflexivity|constructor|reflexivity].
  - constructor.
  - exact Hes.
  - exists t, (c_str_view (String NUL EmptyString)).
    repeat split; try assumption.
    eapply Permutation_Forall; [symmetry; exact Hp|].
    eapply Forall_impl; [exact Hes|]. intros e He. apply (raw_id_valid _ He).
Qed.

End TreeProperties.

Lemma tree_payload_sorted_by_name_witness :
  exists t sep,
    build_tree SHA1.LittleEndian posix_mode_value
      [mkTreeEntry Regular "0123456789abcdef0123456789abcdef01234567" "b.txt";
       mkTreeEntry Directory "89abcdef0123456789abcdef0123456789abcdef" "a"] = Ok t /\
    Permutation (entries t)
      [mkTreeEntry Regular "0123456789abcdef0123456789abcdef01234567" "b.txt";
       mkTreeEntry Directory "89abcdef0123456789abcdef0123456789abcdef" "a"] /\
    Sorted name_le (entries t) /\
    data_ t = entries_bytes posix_mode_value sep (entries t) /\
    Forall (fun e => String.length (hex_pairs (entry_id e)) = 20%nat) (entries t).
Proof.
  apply (tree_payload_sorted_by_name SHA1.LittleEndian posix_mode_value).
  repeat constructor.
Defined.

(** C4 as stated fails for a directory [a] next to a file [a.b]: the
    code puts [a] first, the stated order puts [a.b] first (as [a/] is
    greater than [a.b]), and the payloads differ. *)
Lemma tree_order_ignores_directory_slash :
  match build_tree SHA1.LittleEndian posix_mode_value
          [mkTreeEntry Regular "0123456789abcdef0123456789abcdef01234567" "a.b";
           mkTreeEntry Directory "89abcdef0123456789abcdef0123456789abcdef" "a"] with
  | Ok t =>
      map entry_name (entries t) = ["a"; "a.b"]%string /\
      map entry_name
          (spec_sort
             [mkTreeEntry Regular "0123456789abcdef0123456789abcdef01234567" "a.b";
              mkTreeEntry Directory "89abcdef0123456789abcdef0123456789abcdef" "a"])
        = ["a.b"; "a"]%string /\
      data_ t <>
        spec_tree_payload
          [mkTreeEntry Regular "0123456789abcdef0123456789abcdef01234567" "a.b";
           mkTreeEntry Directory "89abcdef0123456789abcdef0123456789abcdef" "a"]
  | Throw _ => False
  end.
Proof. vm_compute. repeat split; discriminate. Qed.

(** ** Index *)

(** C9, as the code has it: a file is declared unchanged exactly when
    [stat] succeeds and the modification time and the size are those of
    the index entry; the content of the file is never read, so nothing is
    re-hashed. *)
Theorem is_file_modified_compares_mtime_and_size
        (w : World) (entry : IndexEntry) (filepath : string) :
  (is_file_modified w entry filepath = false <->
   exists st, stats w !! filepath = Some st /\
              st_mtime st = mtime entry /\ st_size st = size entry) /\
  (forall content : gmap string string,
     is_file_modified (set_files w content) entry filepath
       = is_file_modified w entry filepath).
Proof.
  split; [|reflexivity].
  unfold is_file_modified. destruct (stats w !! filepath) as [st|].
  - rewrite orb_false_iff, !negb_false_iff, !Z.eqb_eq. split.
    + intros [Hm Hs]. exists st. auto.
    + intros (st' & E & Hm & Hs). injection E as <-. auto.
  - split; [discriminate|]. intros (st & E & _). discriminate.
Qed.

(** C9 as stated fails: after the modification time of a staged file has
    changed and nothing else, re-hashing gives the blob id of the entry,
    yet the file is declared modified. *)
Lemma is_file_modified_does_not_rehash :
  match add_file SHA1.LittleEndian (hello_world 1700000000) empty_index "hello.txt" with
  | Ok ix =>
      match index_entries_ ix with
      | [entry] =>
          st_mtime (hello_stat 1700000100) <> mtime entry /\
          hash_file SHA1.LittleEndian (hello_world 1700000100) (path entry)
            = Ok (blob_id entry) /\
          is_file_modified (hello_world 1700000100) entry (path entry) = true
      | _ => False
      end
  | Throw _ => False
  end.
Proof. vm_compute. repeat split. discriminate. Qed.

(** ** Reference store *)

(** The path of a ref and the path of its reflog differ. *)
Lemma ref_path_is_not_reflog_path (r : Refs) (name path : string) :
  get_ref_path r name = Ok path ->
  path <> git_dir_ r +:+ "/logs" +:+ "/" +:+ name.
Proof.
  unfold get_ref_path, heads_dir_, refs_dir_.
  destruct (String.eqb_spec name "HEAD") as [->|_].
  - intros [= <-] H. apply append_inv_head in H. discriminate.
  - destruct (String.eqb (substr 0 5 name) "refs/").
    + intros [= <-] H. apply append_inv_head in H.
      apply (f_equal String.length) in H. simpl in H. lia.
    + destruct (find_char "/" name); [discriminate|].
      intros [= <-] H. rewrite !append_assoc in H.
      apply append_inv_head in H. discriminate.
Qed.

Lemma read_ref_file_holding_chain
      (r : Refs) (w : World) (n : nat) (path : string) (oid : ObjectId) :
  symref_chain r w n path oid ->
  forall held fuel, (n < fuel)%nat ->
  read_ref_file_holding held fuel r w path
    = Some (Ok (if (held + n <=? fd_spare w)%nat then Some oid else None)).
Proof.
  induction 1 as [path content Hf Hsym Hv
                 |n path content target_path oid Hf Hsym Hp _ IH];
    intros held fuel Hfuel; (destruct fuel as [|fuel]; [lia|]);
    cbn [read_ref_file_holding];
    destruct (Nat.leb_spec held (fd_spare w)) as [Hfd|Hfd].
  - rewrite Hf, Hsym, Hv, Nat.add_0_r.
    now rewrite (proj2 (Nat.leb_le _ _) Hfd).
  - rewrite Nat.add_0_r. now rewrite (proj2 (Nat.leb_gt _ _) Hfd).
  - rewrite Hf, Hsym, Hp, IH by lia. now rewrite Nat.add_succ_r.
  - assert (H : (held + S n <=? fd_spare w)%nat = false) by (apply Nat.leb_gt; lia).
    now rewrite H.
Qed.

Lemma read_ref_file_holding_returns (d : nat) :
  forall (held : nat) (r : Refs) (w : World) (path : string),
    (fd_spare w + 1 - held <= d)%nat ->
    exists res, forall fuel, (d < fuel)%nat ->
      read_ref_file_holding held fuel r w path = Some res.
Proof.
  assert (Hfull : forall held r w path,
             (fd_spare w < held)%nat ->
             forall fuel, (0 < fuel)%nat ->
               read_ref_file_holding held fuel r w path = Some (Ok None)).
  { intros held r w path Hfd [|fuel] Hfuel; [lia|]. cbn [read_ref_file_holding].
    now rewrite (proj2 (Nat.leb_gt _ _) Hfd). }
  induction d as [|d IH]; intros held r w path Hd.
  - exists (Ok None). intros fuel Hfuel. apply Hfull; lia.
  - destruct (Nat.leb_spec held (fd_spare w)) as [Hfd|Hfd].
    2:{ exists (Ok None). intros fuel Hfuel. apply Hfull; lia. }
    pose proof (proj2 (Nat.leb_le _ _) Hfd) as Hleb.
    destruct (files w !! path) as [content|] eqn:Hf.
    2:{ exists (Ok None). intros [|fuel] Hfuel; [lia|].
        cbn [read_ref_file_holding]. now rewrite Hleb, Hf. }
    destruct (String.eqb (substr 0 5 (getline content)) "ref: ") eqn:Hsym.
    + destruct (get_ref_path r (substr_from 5 (getline content)))
        as [target_path|e] eqn:Hp.
      * destruct (IH (S held) r w target_path) as [res Hres]; [lia|].
        exists res. intros [|fuel] Hfuel; [lia|].
        cbn [read_ref_file_holding]. rewrite Hleb, Hf, Hsym, Hp. apply Hres. lia.
      * exists (Throw e). intros [|fuel] Hfuel; [lia|].
        cbn [read_ref_file_holding]. now rewrite Hleb, Hf, Hsym, Hp.
    + exists (Ok (if valid_sha1 (getline content) then Some (getline content)
                  else None)).
      intros [|fuel] Hfuel; [lia|].
      cbn [read_ref_file_holding]. rewrite Hleb, Hf, Hsym.
      now destruct (valid_sha1 (getline content)).
Qed.

Lemma read_ref_file_holding_id_ends_chain (fuel : nat) :
  forall (held : nat) (r : Refs) (w : World) (path : string) (oid : ObjectId),
    read_ref_file_holding held fuel r w path = Some (Ok (Some oid)) ->
    exists n, (held + n <= fd_spare w)%nat /\ symref_chain r w n path oid.
Proof.
  induction fuel as [|fuel IH]; intros held r w path oid; [discriminate|].
  cbn [read_ref_file_holding].
  destruct (Nat.leb_spec held (fd_spare w)) as [Hfd|Hfd]; [|discriminate].
  destruct (files w !! path) as [content|] eqn:Hf; [|discriminate].
  destruct (String.eqb (substr 0 5 (getline content)) "ref: ") eqn:Hsym.
  - destruct (get_ref_path r (substr_from 5 (getline content)))
      as [target_path|e] eqn:Hp; [|discriminate].
    intros H. apply IH in H as (n & Hn & Hchain).
    exists (S n). split; [lia|]. exact (chain_symbolic r w n _ _ _ _ Hf Hsym Hp Hchain).
  - destruct (valid_sha1 (getline content)) eqn:Hv; [|discriminate].
    intros [= <-]. exists 0%nat. split; [lia|]. exact (chain_direct r w _ _ Hf Hsym Hv).
Qed.

(** C8, as the code has it.  Every call of [read_ref_file] keeps its file
    open while it follows the target, so the depth is limited by the
    number of files the process can hold open and by nothing else: a
    chain of [n] symbolic refs that ends at a well-formed id gives that id
    when the [n + 1] files can be held open, and no value when they
    cannot.  The function always returns, and it returns an id only at
    the end of such a chain; so a cycle of symbolic refs ends without an
    id, once no further file opens. *)
Theorem read_ref_file_follows_chain (r : Refs) (w : World) (path : string) :
  (forall n oid,
      symref_chain r w n path oid ->
      forall fuel, (n < fuel)%nat ->
        read_ref_file fuel r w path
          = Some (Ok (if (n <=? fd_spare w)%nat then Some oid else None))) /\
  (exists res, forall fuel, (fd_spare w + 1 < fuel)%nat ->
      read_ref_file fuel r w path = Some res) /\
  (forall fuel oid,
      read_ref_file fuel r w path = Some (Ok (Some oid)) ->
      exists n, (n <= fd_spare w)%nat /\ symref_chain r w n path oid).
Proof.
  unfold read_ref_file. split; [|split].
  - intros n oid Hchain fuel Hfuel.
    exact (read_ref_file_holding_chain r w n path oid Hchain 0 fuel Hfuel).
  - apply read_ref_file_holding_returns. lia.
  - intros fuel oid H.
    exact (read_ref_file_holding_id_ends_chain fuel 0 r w path oid H).
Qed.

Lemma symref_chain_of_six :
  symref_chain empty_refs symref_world 6 ".git/refs/heads/r0" sample_id_a.
Proof.
  repeat (eapply chain_symbolic; [reflexivity|reflexivity|reflexivity|]).
  apply (chain_direct empty_refs symref_world ".git/refs/heads/r6"
                      (sample_id_a +:+ newline)); reflexivity.
Qed.

Lemma read_ref_file_follows_chain_witness :
  symref_chain empty_refs symref_world 6 ".git/refs/heads/r0" sample_id_a /\
  (6 < 7)%nat /\
  read_ref_file 7 empty_refs symref_world ".git/refs/heads/r0"
    = Some (Ok (Some sample_id_a)).
Proof.
  split; [exact symref_chain_of_six|]. split; [lia|].
  apply (proj1 (read_ref_file_follows_chain empty_refs symref_world
                  ".git/refs/heads/r0")
           6%nat sample_id_a symref_chain_of_six 7%nat). lia.
Defined.

(** C8 as stated fails: a chain of six symbolic refs is resolved, by
    [read_ref_file] and by [read_ref]; and a ref that names itself is not
    an error: the calls go on until no further file opens, and the answer
    is that the ref has no value. *)
Lemma symref_chain_deeper_than_five_resolves :
  read_ref_file 7 empty_refs symref_world ".git/refs/heads/r0"
    = Some (Ok (Some sample_id_a)) /\
  read_ref 7 empty_refs symref_world "refs/heads/r0"
    = Some (Ok (Some sample_id_a)) /\
  read_ref_file 1021 empty_refs symref_world ".git/refs/heads/loop" = None /\
  read_ref_file 1022 empty_refs symref_world ".git/refs/heads/loop"
    = Some (Ok None).
Proof. vm_compute. repeat split. Qed.

Lemma resolve_ref_git_dir (fuel : nat) (r r1 : Refs) (w : World) (name : string)
      (res : Result ObjectId) :
  resolve_ref fuel r w name = Some (res, r1) -> git_dir_ r1 = git_dir_ r.
Proof.
  unfold resolve_ref, resolve_ref_holding. intros H.
  repeat case_match; inversion H; reflexivity.
Qed.

Lemma log_ref_change_other_file (r : Refs) (w : World) (name old_id new_id p : string) :
  p <> git_dir_ r +:+ "/logs" +:+ "/" +:+ name ->
  files (log_ref_change r w name old_id new_id) !! p = files w !! p.
Proof.
  intros Hp. unfold log_ref_change.
  destruct (writable w _); [|reflexivity].
  cbn [write_file set_files files]. rewrite lookup_insert_ne; [reflexivity|].
  intros E. apply Hp. symmetry. exact E.
Qed.

(** C7, as the code has it: [update_ref(name, target)] takes no expected
    old value.  It throws, and changes nothing, when the file of the ref
    does not exist; when the file exists, the ref resolves and the file
    can be written, the call succeeds and the stored value becomes
    [target], whatever the value before was. *)
Theorem update_ref_is_unconditional
        (fuel : nat) (r : Refs) (w : World) (name : RefName) (target : ObjectId)
        (path : string) :
  get_ref_path r name = Ok path ->
  (fs_exists w path = false ->
   update_ref fuel r w name target
     = Some (Throw ("Ref does not exist: " +:+ name), r, w)) /\
  (forall (old : ObjectId) (r1 : Refs),
     fs_exists w path = true ->
     resolve_ref fuel r w name = Some (Ok old, r1) ->
     writable w path = true ->
     exists r2 w2,
       update_ref fuel r w name target = Some (Ok tt, r2, w2) /\
       files w2 !! path = Some (target +:+ newline) /\
       ref_cache_ r2 !! name = Some target /\
       forall fuel', read_ref fuel' r2 w2 name = Some (Ok (Some target))).
Proof.
  intros Hpath. unfold update_ref. rewrite Hpath. split.
  - intros ->. reflexivity.
  - intros old r1 -> Hres Hw. rewrite Hres. unfold write_ref_file. rewrite Hw.
    eexists _, _. split; [reflexivity|].
    assert (Hc : ref_cache_ (set_ref_cache r1 (<[name:=target]> (ref_cache_ r1))) !! name
                 = Some target)
      by (cbn [set_ref_cache ref_cache_]; apply lookup_insert_eq).
    split; [|split; [exact Hc|]].
    + rewrite log_ref_change_other_file.
      * cbn [write_file set_files files]. apply lookup_insert_eq.
      * cbn [set_ref_cache git_dir_].
        rewrite (resolve_ref_git_dir _ _ _ _ _ _ Hres).
        apply ref_path_is_not_reflog_path, Hpath.
    + intros fuel'. unfold read_ref. rewrite Hc. reflexivity.
Qed.

Lemma update_ref_is_unconditional_witness :
  get_ref_path main_refs "refs/heads/other" = Ok ".git/refs/heads/other"%string /\
  get_ref_path main_refs "refs/heads/main" = Ok ".git/refs/heads/main"%string /\
  fs_exists main_world ".git/refs/heads/other" = false /\
  update_ref 10 main_refs main_world "refs/heads/other" sample_id_b
    = Some (Throw ("Ref does not exist: " +:+ "refs/heads/other"),
            main_refs, main_world) /\
  fs_exists main_world ".git/refs/heads/main" = true /\
  resolve_ref 10 main_refs main_world "refs/heads/main"
    = Some (Ok sample_id_a, main_refs) /\
  writable main_world ".git/refs/heads/main" = true /\
  exists r2 w2,
    update_ref 10 main_refs main_world "refs/heads/main" sample_id_b
      = Some (Ok tt, r2, w2) /\
    files w2 !! ".git/refs/heads/main" = Some (sample_id_b +:+ newline) /\
    ref_cache_ r2 !! "refs/heads/main" = Some sample_id_b /\
    forall fuel', read_ref fuel' r2 w2 "refs/heads/main" = Some (Ok (Some sample_id_b)).
Proof.
  pose proof (update_ref_is_unconditional 10 main_refs main_world
                "refs/heads/other" sample_id_b ".git/refs/heads/other" eq_refl)
    as [Hmissing _].
  pose proof (update_ref_is_unconditional 10 main_refs main_world
                "refs/heads/main" sample_id_b ".git/refs/heads/main" eq_refl)
    as [_ Hpresent].
  do 3 (split; [reflexivity|]).
  split; [exact (Hmissing eq_refl)|].
  do 3 (split; [reflexivity|]).
  exact (Hpresent sample_id_a main_refs eq_refl eq_refl eq_refl).
Defined.

(** C7 as stated fails: the branch is at [sample_id_a]; a writer that
    expects it at [sample_id_c] has no way to say so, and its write of
    [sample_id_b] succeeds and replaces the stored value. *)
Lemma update_ref_ignores_expected_value :
  read_ref 10 main_refs main_world "refs/heads/main" = Some (Ok (Some sample_id_a)) /\
  sample_id_c <> sample_id_a /\
  match update_ref 10 main_refs main_world "refs/heads/main" sample_id_b with
  | Some (Ok _, r2, w2) =>
      read_ref 10 r2 w2 "refs/heads/main" = Some (Ok (Some sample_id_b)) /\
      files w2 !! ".git/refs/heads/main" = Some (sample_id_b +:+ newline)
  | _ => False
  end.
Proof. vm_compute. repeat split. discriminate. Qed.

(** ** Merge *)

Section MergeProperties.

Variable host : SHA1.byte_order.

(** A file that both sides have is reported as a conflict, whether or
    not the base has it and whatever the ids of its blobs are. *)
Lemma merge_file_conflict_when_on_both_sides
      (ours theirs : string) (base_files our_files their_files : list string)
      (cs : list Conflict) (db : ObjectDatabase) (w : World) (file : string) :
  contains our_files file = true -> contains their_files file = true ->
  fst (fst (merge_file host ours theirs base_files our_files their_files
                       (cs, db, w) file)) = cs ++ [mkConflict file].
Proof.
  intros Ho Ht. unfold merge_file. rewrite Ho, Ht. cbn [andb orb].
  destruct (mark_conflict host db w ours theirs file). reflexivity.
Qed.

Lemma mark_conflict_other_file
      (db : ObjectDatabase) (w : World) (ours theirs path p : string) :
  p <> path ->
  files (snd (mark_conflict host db w ours theirs path)) !! p = files w !! p.
Proof.
  intros Hp. unfold mark_conflict.
  destruct (read_file_content host db w ours path) as [o db1].
  destruct (read_file_content host db1 w theirs path) as [t db2].
  cbn [snd]. destruct (writable w path); [|reflexivity].
  cbn [write_file set_files files]. apply lookup_insert_ne. congruence.
Qed.

Lemma mark_conflict_writable
      (db : ObjectDatabase) (w : World) (ours theirs path : string) :
  writable (snd (mark_conflict host db w ours theirs path)) = writable w.
Proof.
  unfold mark_conflict.
  destruct (read_file_content host db w ours path) as [o db1].
  destruct (read_file_content host db1 w theirs path) as [t db2].
  cbn [snd]. destruct (writable w path); reflexivity.
Qed.

(** The loop over [all_files] writes only files it reports. *)
Lemma merge_files_write_only_conflicts
      (ours theirs : string) (base_files our_files their_files : list string)
      (l : list string) (cs : list Conflict) (db : ObjectDatabase) (w : World) :
  let '(cs', _, w') :=
    fold_left (merge_file host ours theirs base_files our_files their_files)
              l (cs, db, w) in
  (forall c, In c cs -> In c cs') /\
  (forall p, ~ In (mkConflict p) cs' -> files w' !! p = files w !! p).
Proof.
  revert cs db w. induction l as [|f l IH]; intros cs db w; cbn [fold_left].
  - split; auto.
  - destruct (merge_file host ours theirs base_files our_files their_files
                         (cs, db, w) f) as [[cs1 db1] w1] eqn:E.
    specialize (IH cs1 db1 w1).
    destruct (fold_left _ l (cs1, db1, w1)) as [[cs' db'] w'].
    destruct IH as [Hin Hfiles].
    unfold merge_file in E.
    destruct ((contains our_files f && contains their_files f)
              || (negb (contains base_files f) && contains our_files f
                  && contains their_files f)).
    + pose proof (mark_conflict_other_file db w ours theirs f) as Hother.
      destruct (mark_conflict host db w ours theirs f) as [db2 w2].
      injection E as <- <- <-. cbn [snd] in Hother. split.
      * intros c Hc. apply Hin, in_or_app. left. exact Hc.
      * intros p Hp. rewrite Hfiles by exact Hp. apply Hother.
        intros ->. apply Hp, Hin, in_or_app. right. left. reflexivity.
    + injection E as <- <- <-. split; assumption.
Qed.

Lemma perform_three_way_merge_writes_only_conflicts
      (db : ObjectDatabase) (w : World)
      (ours theirs base_tree our_tree their_tree : string) :
  let '(res, _, w') :=
    perform_three_way_merge host db w ours theirs base_tree our_tree their_tree in
  match res with
  | Throw _ => w' = w
  | Ok cs => forall p, ~ In (mkConflict p) cs -> files w' !! p = files w !! p
  end.
Proof.
  unfold perform_three_way_merge.
  destruct (get_tree_files host db w base_tree) as [[bfs|e] db1]; [|reflexivity].
  destruct (get_tree_files host db1 w our_tree) as [[ofs|e] db2]; [|reflexivity].
  destruct (get_tree_files host db2 w their_tree) as [[tfs|e] db3]; [|reflexivity].
  pose proof (merge_files_write_only_conflicts ours theirs bfs ofs tfs
                (fold_left (fun s x => set_insert x s) (bfs ++ ofs ++ tfs) [])
                [] db3 w) as H.
  destruct (fold_left (merge_file host ours theirs bfs ofs tfs) _ ([], db3, w))
    as [[cs db4] w4].
  apply H.
Qed.

Lemma merge_try_writes_only_conflicts
      (db : ObjectDatabase) (w : World) (base ours theirs : string) :
  let '(res, _, w') := merge_try host db w base ours theirs in
  match res with
  | Throw _ => w' = w
  | Ok cs => forall p, ~ In (mkConflict p) cs -> files w' !! p = files w !! p
  end.
Proof.
  unfold merge_try.
  destruct (get_tree_from_commit host db w base) as [[bt|e] db1]; [|reflexivity].
  destruct (get_tree_from_commit host db1 w ours) as [[ot|e] db2]; [|reflexivity].
  destruct (get_tree_from_commit host db2 w theirs) as [[tt|e] db3]; [|reflexivity].
  apply perform_three_way_merge_writes_only_conflicts.
Qed.

(** [ThreeWayMerge::merge] answers [Success], [Conflicts] or [Failed],
    with [Success] exactly when it reports no conflict, and writes no
    file but those of the conflicts it reports. *)
Lemma merge_outcome (db : ObjectDatabase) (w : World) (base ours theirs : string) :
  let '(res, _, w') := merge host db w base ours theirs in
  (status res = Success /\ conflicts res = [] \/
   status res = Conflicts /\ conflicts res <> [] \/
   status res = Failed /\ conflicts res = [] /\ w' = w) /\
  (forall p, ~ In (mkConflict p) (conflicts res) -> files w' !! p = files w !! p).
Proof.
  unfold merge.
  pose proof (merge_try_writes_only_conflicts db w base ours theirs) as H.
  destruct (merge_try host db w base ours theirs) as [[[[|c cs]|e] db1] w1];
    cbn [status conflicts].
  - split; [left; split; reflexivity|exact H].
  - split; [right; left; split; [reflexivity|discriminate]|exact H].
  - subst w1. split; [right; right; repeat split|reflexivity].
Qed.

(** C6, as the code has it: the merge base is our commit whatever the
    history is; when ours differs from theirs, [perform_merge] returns
    what the three-way merge with base = ours returns, whose status is
    [Success], [Conflicts] or [Failed] and never [FastForward]; the ref
    store is left as [get_head] left it, and no file is written but the
    files of the conflicts reported. *)
Theorem perform_merge_never_fast_forwards
        (fuel : nat) (repo : Repository) (w : World) (branch_name : string)
        (ours theirs : ObjectId) (r1 : Refs) :
  get_head fuel (refs repo) w = Some (Ok ours, r1) ->
  read_ref fuel r1 w ("refs/heads/" +:+ branch_name) = Some (Ok (Some theirs)) ->
  ours <> theirs -> ours <> EmptyString ->
  find_merge_base (mkRepository r1 (objects repo)) ours theirs = ours /\
  exists res db' w',
    merge host (objects repo) w ours ours theirs = (res, db', w') /\
    perform_merge host fuel repo w branch_name
      = Some (Ok res, mkRepository r1 db', w') /\
    (status res = Success \/ status res = Conflicts \/ status res = Failed) /\
    status res <> FastForward /\
    (forall p, ~ In (mkConflict p) (conflicts res) -> files w' !! p = files w !! p).
Proof.
  intros Hhead Htheirs Hne Hnonempty. split; [reflexivity|].
  pose proof (merge_outcome (objects repo) w ours ours theirs) as Hout.
  destruct (merge host (objects repo) w ours ours theirs) as [[res db'] w'] eqn:E.
  exists res, db', w'. split; [reflexivity|].
  destruct Hout as [Hstatus Hfiles].
  split; [|split; [|split; [|exact Hfiles]]].
  - unfold perform_merge. rewrite Hhead. cbn [refs objects]. rewrite Htheirs.
    destruct (String.eqb_spec ours theirs) as [Heq|_]; [contradiction|].
    unfold find_merge_base.
    destruct (String.eqb_spec ours EmptyString) as [Heq|_]; [contradiction|].
    rewrite E. reflexivity.
  - destruct Hstatus as [[-> _]|[[-> _]|[-> _]]]; auto.
  - destruct Hstatus as [[-> _]|[[-> _]|[-> _]]]; discriminate.
Qed.

End MergeProperties.

Lemma perform_merge_never_fast_forwards_witness :
  get_head 10 (refs two_branch_repo) two_branch_world
    = Some (Ok sample_id_a, refs two_branch_repo) /\
  read_ref 10 (refs two_branch_repo) two_branch_world ("refs/heads/" +:+ "feat")
    = Some (Ok (Some sample_id_b)) /\
  find_merge_base (mkRepository (refs two_branch_repo) (objects two_branch_repo))
                  sample_id_a sample_id_b = sample_id_a /\
  exists res db' w',
    merge SHA1.LittleEndian (objects two_branch_repo) two_branch_world
          sample_id_a sample_id_a sample_id_b = (res, db', w') /\
    perform_merge SHA1.LittleEndian 10 two_branch_repo two_branch_world "feat"
      = Some (Ok res, mkRepository (refs two_branch_repo) db', w') /\
    (status res = Success \/ status res = Conflicts \/ status res = Failed) /\
    status res <> FastForward /\
    (forall p, ~ In (mkConflict p) (conflicts res) ->
               files w' !! p = files two_branch_world !! p).
Proof.
  split; [reflexivity|]. split; [reflexivity|].
  apply (perform_merge_never_fast_forwards SHA1.LittleEndian 10 two_branch_repo
           two_branch_world "feat" sample_id_a sample_id_b (refs two_branch_repo));
    [reflexivity|reflexivity|discriminate|discriminate].
Defined.

(** C6 as stated fails: [master] is at a commit, [feat] is one commit
    ahead of it, and the merge base that is used is our commit.  The
    merge of [feat] into [master] answers [Failed], not [FastForward],
    and [master] stays where it was. *)
Lemma merge_with_base_ours_does_not_fast_forward :
  match fast_forward_scenario SHA1.LittleEndian with
  | Some sc =>
      find_merge_base (sc_repo sc) (id_ (sc_ours sc)) (id_ (sc_theirs sc))
        = id_ (sc_ours sc) /\
      id_ (sc_ours sc) <> id_ (sc_theirs sc) /\
      parent_ids (sc_theirs sc) = [id_ (sc_ours sc)] /\
      match perform_merge SHA1.LittleEndian 10 (sc_repo sc) (sc_world sc) "feat" with
      | Some (Ok res, repo', w') =>
          status res = Failed /\
          status res <> FastForward /\
          read_ref 10 (refs repo') w' "refs/heads/master"
            = Some (Ok (Some (id_ (sc_ours sc)))) /\
          files w' !! ".git/refs/heads/master" = Some (id_ (sc_ours sc) +:+ newline)
      | _ => False
      end
  | None => False
  end.
Proof. vm_compute. repeat split; discriminate. Qed.

(** C5: a path with the same blob in base, ours and theirs is taken
    unchanged and is no conflict.  Here the three commits have one and the
    same tree with the single file [hello.txt]; the merge answers
    [Conflicts], reports [hello.txt] and overwrites the file in the
    working tree with conflict markers. *)
Theorem merge_unchanged_file_is_reported_as_conflict :
  match unchanged_file_scenario SHA1.LittleEndian with
  | Some sc =>
      tree_id (sc_ours sc) = tree_id (sc_base sc) /\
      tree_id (sc_theirs sc) = tree_id (sc_base sc) /\
      option_map (fun t => map entry_name (entries t))
                 (cache_ (objects (sc_repo sc)) !! tree_id (sc_base sc))
        = Some ["hello.txt"%string] /\
      let '(res, _, w') :=
        merge SHA1.LittleEndian (objects (sc_repo sc)) (sc_world sc)
              (id_ (sc_base sc)) (id_ (sc_ours sc)) (id_ (sc_theirs sc)) in
      status res = Conflicts /\
      conflicts res = [mkConflict "hello.txt"] /\
      files w' !! "hello.txt"
        = Some ("<<<<<<< HEAD" +:+ newline +:+ "=======" +:+ newline
                  +:+ ">>>>>>> " +:+ substr 0 7 (id_ (sc_theirs sc)) +:+ newline)
  | None => False
  end.
Proof. vm_compute. repeat split. Qed.

(** * Further properties *)

(** ** SHA-1: streaming, digests and files *)

Lemma process_block_keeps (s : SHA1.t) :
  SHA1.finalized_ (SHA1.process_block s) = SHA1.finalized_ s /\
  SHA1.buffer_ (SHA1.process_block s) = SHA1.buffer_ s /\
  SHA1.buffer_length_ (SHA1.process_block s) = SHA1.buffer_length_ s /\
  SHA1.message_length_ (SHA1.process_block s) = SHA1.message_length_ s.
Proof.
  unfold SHA1.process_block.
  generalize (fold_left (SHA1.round (SHA1.schedule s)) (seq 0 80)
                (SHA1.h0_ s, SHA1.h1_ s, SHA1.h2_ s, SHA1.h3_ s, SHA1.h4_ s)).
  intros [[[[a b] c] d] e]. repeat split.
Qed.

Lemma update_byte_finalized (s : SHA1.t) (x : Z) :
  SHA1.finalized_ (SHA1.update_byte s x) = SHA1.finalized_ s.
Proof.
  unfold SHA1.update_byte. cbn [SHA1.buffer_length_].
  destruct (S (SHA1.buffer_length_ s) =? 64)%nat; [|reflexivity].
  unfold SHA1.set_buffer. cbn [SHA1.finalized_].
  now rewrite (proj1 (process_block_keeps _)).
Qed.

Lemma update_bytes_finalized (data : list Z) (s : SHA1.t) :
  SHA1.finalized_ (fold_left SHA1.update_byte data s) = SHA1.finalized_ s.
Proof.
  revert s. induction data as [|x data IH]; intros s; [reflexivity|].
  cbn [fold_left]. rewrite IH. apply update_byte_finalized.
Qed.

Lemma bytes_of_string_app (a b : string) :
  bytes_of_string (a +:+ b) = bytes_of_string a ++ bytes_of_string b.
Proof.
  unfold bytes_of_string. induction a as [|c a IH]; [reflexivity|].
  cbn [String.append list_ascii_of_string map app]. now rewrite IH.
Qed.

(** X1: feeding a hasher two pieces one after the other is feeding it
    their concatenation, for byte spans and for strings; a finalized
    hasher refuses both alike. *)
Theorem update_in_pieces (s : SHA1.t) (a b : list Z) (x y : string) :
  SHA1.update s (a ++ b) = bindR (SHA1.update s a) (fun s1 => SHA1.update s1 b) /\
  SHA1.update_string s (x +:+ y)
    = bindR (SHA1.update_string s x) (fun s1 => SHA1.update_string s1 y).
Proof.
  assert (H : forall a b : list Z,
             SHA1.update s (a ++ b)
             = bindR (SHA1.update s a) (fun s1 => SHA1.update s1 b)).
  { intros a' b'. unfold SHA1.update.
    destruct (SHA1.finalized_ s) eqn:E; cbn [bindR]; [reflexivity|].
    rewrite update_bytes_finalized, E, fold_left_app. reflexivity. }
  split; [apply H|].
  unfold SHA1.update_string. rewrite bytes_of_string_app. apply H.
Qed.

Lemma hex_digit_value (d : Z) :
  0 <= d < 16 -> hex_value (SHA1.hex_digit d) = Some d.
Proof.
  intros H.
  assert (d = 0 \/ d = 1 \/ d = 2 \/ d = 3 \/ d = 4 \/ d = 5 \/ d = 6 \/ d = 7 \/
          d = 8 \/ d = 9 \/ d = 10 \/ d = 11 \/ d = 12 \/ d = 13 \/ d = 14 \/ d = 15)
    as Hd by lia.
  repeat (destruct Hd as [->|Hd]; [reflexivity|]). subst d. reflexivity.
Qed.

Lemma binary_to_hex_length (l : list Z) :
  String.length (SHA1.binary_to_hex l) = (2 * length l)%nat.
Proof.
  induction l as [|b l IH]; [reflexivity|].
  cbn [SHA1.binary_to_hex String.length length]. rewrite IH. lia.
Qed.

Lemma binary_to_hex_all_hex (l : list Z) :
  Forall is_byte l -> all_hex (SHA1.binary_to_hex l) = true.
Proof.
  induction 1 as [|b l Hb _ IH]; [reflexivity|].
  cbn [SHA1.binary_to_hex all_hex]. unfold is_hex, is_byte in *.
  rewrite !hex_digit_value, IH; [reflexivity| |].
  - apply Z.mod_pos_bound. lia.
  - split; [apply Z.div_pos; lia|apply Z.div_lt_upper_bound; lia].
Qed.

Lemma word_bytes_are_bytes (o : SHA1.byte_order) (w : Z) :
  Forall is_byte (SHA1.word_bytes o w) /\ length (SHA1.word_bytes o w) = 4%nat.
Proof.
  split; [|destruct o; reflexivity].
  unfold SHA1.word_bytes, is_byte.
  destruct o; repeat constructor; try apply Z.mod_pos_bound; lia.
Qed.

Lemma five_words_are_bytes (o : SHA1.byte_order) (a b c d e : Z) :
  Forall is_byte (take 20 (SHA1.word_bytes o a ++ SHA1.word_bytes o b
                             ++ SHA1.word_bytes o c ++ SHA1.word_bytes o d
                             ++ SHA1.word_bytes o e)) /\
  length (take 20 (SHA1.word_bytes o a ++ SHA1.word_bytes o b
                     ++ SHA1.word_bytes o c ++ SHA1.word_bytes o d
                     ++ SHA1.word_bytes o e)) = 20%nat.
Proof.
  split.
  - apply Forall_take. repeat (apply Forall_app; split);
      apply word_bytes_are_bytes.
  - rewrite length_take, !length_app.
    rewrite !(proj2 (word_bytes_are_bytes o _)). reflexivity.
Qed.

Lemma final_digest_valid (o : SHA1.byte_order) (s : SHA1.t) :
  valid_sha1 (fst (SHA1.final o s)) = true.
Proof.
  assert (H : exists a b c d e,
             fst (SHA1.final o s)
             = SHA1.binary_to_hex
                 (take 20 (SHA1.word_bytes o a ++ SHA1.word_bytes o b
                             ++ SHA1.word_bytes o c ++ SHA1.word_bytes o d
                             ++ SHA1.word_bytes o e))).
  { unfold SHA1.final. destruct (SHA1.finalized_ s); cbn [fst].
    - unfold SHA1.state_bytes. eauto 6.
    - generalize (SHA1.process_block (SHA1.pad_message s)).
      intros [a b c d e ml bf bl fin].
      cbn [SHA1.h0_ SHA1.h1_ SHA1.h2_ SHA1.h3_ SHA1.h4_].
      rewrite stored_words_are_state_bytes. eauto 6. }
  destruct H as (a & b & c & d & e & ->).
  destruct (five_words_are_bytes o a b c d e) as [Hb Hl].
  unfold valid_sha1.
  rewrite binary_to_hex_length, Hl, (binary_to_hex_all_hex _ Hb). reflexivity.
Qed.

Lemma hash_valid (o : SHA1.byte_order) (data : string) :
  valid_sha1 (SHA1.hash o data) = true.
Proof.
  unfold SHA1.hash, SHA1.update_string, SHA1.update.
  change (SHA1.finalized_ SHA1.new) with false. cbv iota.
  apply final_digest_valid.
Qed.

(** X2: whatever the state of the hasher and the byte order of the host,
    [final] returns 40 hexadecimal digits; so does [hash], and so the id
    of every object the codec constructs is 40 hexadecimal digits. *)
Theorem final_returns_forty_hex_digits
        (o : SHA1.byte_order) (s : SHA1.t) (data : string)
        (ty : ObjectType) (f : Fields) :
  valid_sha1 (fst (SHA1.final o s)) = true /\
  valid_sha1 (SHA1.hash o data) = true /\
  valid_sha1 (id_ (new_object o ty data f)) = true.
Proof.
  split; [apply final_digest_valid|]. split; apply hash_valid.
Qed.

Lemma hash_file_chunks_all (fuel : nat) (data : list Z) (s : SHA1.t) :
  (length data < 4096 * fuel)%nat ->
  hash_file_chunks fuel data s = fold_left SHA1.update_byte data s.
Proof.
  revert data s. induction fuel as [|fuel IH]; intros data s Hlen; [lia|].
  cbn [hash_file_chunks].
  destruct (Nat.ltb_spec (length data) 4096) as [Hs|Hs]; [reflexivity|].
  rewrite IH by (rewrite length_drop; lia).
  rewrite <- fold_left_app, take_drop. reflexivity.
Qed.

(** X3: [hash_file] reads the file in chunks of 4096 bytes and returns
    the digest [hash] gives for the whole content; a file that cannot be
    opened is an exception. *)
Theorem hash_file_is_hash_of_content
        (host : SHA1.byte_order) (w : World) (filepath : string) :
  hash_file host w filepath =
  match files w !! filepath with
  | Some content => Ok (SHA1.hash host content)
  | None => Throw ("Cannot open file: " +:+ filepath)
  end.
Proof.
  unfold hash_file. destruct (files w !! filepath) as [content|]; [|reflexivity].
  rewrite hash_file_chunks_all by lia. reflexivity.
Qed.

Lemma stoi16_byte_hex_digits (b : Z) :
  is_byte b ->
  stoi16_byte (String (SHA1.hex_digit (b / 16))
                      (String (SHA1.hex_digit (b mod 16)) EmptyString)) = Ok b.
Proof.
  unfold is_byte. intros Hb. cbn [stoi16_byte].
  rewrite !hex_digit_value.
  - f_equal. pose proof (Z.div_mod b 16). lia.
  - apply Z.mod_pos_bound. lia.
  - split; [apply Z.div_pos; lia|apply Z.div_lt_upper_bound; lia].
Qed.

(** X4: [hex_to_binary] undoes [binary_to_hex]: the text of a sequence of
    bytes is converted back into these bytes, without an exception. *)
Theorem hex_to_binary_of_binary_to_hex (l : list Z) :
  Forall is_byte l ->
  hex_to_binary (SHA1.binary_to_hex l) = Ok (string_of_bytes l).
Proof.
  induction 1 as [|b l Hb _ IH]; [reflexivity|].
  cbn [SHA1.binary_to_hex hex_to_binary].
  rewrite (stoi16_byte_hex_digits b Hb). cbn [bindR]. rewrite IH. reflexivity.
Qed.

Lemma hex_to_binary_of_binary_to_hex_witness :
  Forall is_byte [0; 1; 127; 128; 255] /\
  hex_to_binary (SHA1.binary_to_hex [0; 1; 127; 128; 255])
    = Ok (string_of_bytes [0; 1; 127; 128; 255]).
Proof.
  assert (H : Forall is_byte [0; 1; 127; 128; 255])
    by (repeat constructor; unfold is_byte; lia).
  split; [exact H|]. apply (hex_to_binary_of_binary_to_hex _ H).
Defined.

Lemma update_byte_hasher_ok (s : SHA1.t) (x : Z) :
  hasher_ok s ->
  hasher_ok (SHA1.update_byte s x) /\
  SHA1.buffer_length_ (SHA1.update_byte s x)
    = ((SHA1.buffer_length_ s + 1) mod 64)%nat /\
  SHA1.message_length_ (SHA1.update_byte s x)
    = (SHA1.message_length_ s + 8) mod 2 ^ 64.
Proof.
  intros [Hp Hb Hc]. unfold SHA1.update_byte. cbn [SHA1.buffer_length_ SHA1.buffer_].
  assert (Hm : 0 <= (SHA1.message_length_ s + 8) mod 2 ^ 64 < 2 ^ 64)
    by (apply Z.mod_pos_bound; lia).
  assert (Hi : length (<[SHA1.buffer_length_ s:=x]> (SHA1.buffer_ s)) = 64%nat)
    by (rewrite length_insert; exact Hb).
  destruct (Nat.eqb_spec (S (SHA1.buffer_length_ s)) 64) as [E|E].
  - destruct (process_block_keeps
                (SHA1.mk (SHA1.h0_ s) (SHA1.h1_ s) (SHA1.h2_ s) (SHA1.h3_ s)
                   (SHA1.h4_ s) (SHA1.u64 (SHA1.message_length_ s + 8))
                   (<[SHA1.buffer_length_ s:=x]> (SHA1.buffer_ s))
                   (S (SHA1.buffer_length_ s)) (SHA1.finalized_ s)))
      as (_ & _ & _ & Hml).
    revert Hml. generalize (SHA1.process_block
                (SHA1.mk (SHA1.h0_ s) (SHA1.h1_ s) (SHA1.h2_ s) (SHA1.h3_ s)
                   (SHA1.h4_ s) (SHA1.u64 (SHA1.message_length_ s + 8))
                   (<[SHA1.buffer_length_ s:=x]> (SHA1.buffer_ s))
                   (S (SHA1.buffer_length_ s)) (SHA1.finalized_ s))).
    intros blk Hml. cbn [SHA1.message_length_] in Hml. unfold SHA1.u64 in Hml.
    unfold SHA1.set_buffer.
    replace (SHA1.buffer_length_ s + 1)%nat with 64%nat by lia.
    split; [split|split];
      cbn [SHA1.buffer_length_ SHA1.buffer_ SHA1.message_length_];
      rewrite ?Hml; try assumption; try lia; reflexivity.
  - rewrite Nat.mod_small by lia. unfold SHA1.u64.
    split; [split|split];
      cbn [SHA1.buffer_length_ SHA1.buffer_ SHA1.message_length_];
      try assumption; try lia; reflexivity.
Qed.

Lemma update_bytes_hasher_ok (data : list Z) (s : SHA1.t) :
  hasher_ok s ->
  hasher_ok (fold_left SHA1.update_byte data s) /\
  SHA1.buffer_length_ (fold_left SHA1.update_byte data s)
    = ((SHA1.buffer_length_ s + length data) mod 64)%nat /\
  SHA1.message_length_ (fold_left SHA1.update_byte data s)
    = (SHA1.message_length_ s + 8 * Z.of_nat (length data)) mod 2 ^ 64.
Proof.
  revert s. induction data as [|x data IH]; intros s Hs.
  - cbn [fold_left length]. pose proof Hs as [Hp Hb Hc].
    rewrite Nat.add_0_r, Nat.mod_small by lia.
    rewrite Z.add_0_r, Z.mod_small by lia.
    split; [exact Hs|split; reflexivity].
  - cbn [fold_left length].
    destruct (update_byte_hasher_ok s x Hs) as (Hs1 & Hl1 & Hm1).
    destruct (IH _ Hs1) as (Hs2 & Hl2 & Hm2).
    split; [exact Hs2|]. rewrite Hl2, Hl1, Hm2, Hm1. split.
    + rewrite Nat.Div0.add_mod_idemp_l. f_equal. lia.
    + rewrite Zplus_mod_idemp_l. f_equal. lia.
Qed.

(** X5: [update] on a hasher that is not finalized never throws, keeps
    the pending bytes within the 64-byte block buffer, and counts: the
    number of pending bytes is the number of bytes fed, modulo 64, and the
    bit count grows by eight per byte, modulo 2^64. *)
Theorem update_keeps_buffer_in_bounds (s : SHA1.t) (data : list Z) :
  hasher_ok s -> SHA1.finalized_ s = false ->
  exists s',
    SHA1.update s data = Ok s' /\
    hasher_ok s' /\
    SHA1.finalized_ s' = false /\
    SHA1.buffer_length_ s' = ((SHA1.buffer_length_ s + length data) mod 64)%nat /\
    SHA1.message_length_ s'
      = (SHA1.message_length_ s + 8 * Z.of_nat (length data)) mod 2 ^ 64.
Proof.
  intros Hs Hf. exists (fold_left SHA1.update_byte data s).
  unfold SHA1.update. rewrite Hf. split; [reflexivity|].
  destruct (update_bytes_hasher_ok data s Hs) as (H1 & H2 & H3).
  rewrite update_bytes_finalized. auto.
Qed.

Lemma update_keeps_buffer_in_bounds_witness :
  hasher_ok SHA1.new /\ SHA1.finalized_ SHA1.new = false /\
  exists s',
    SHA1.update SHA1.new (replicate 70 97) = Ok s' /\
    hasher_ok s' /\
    SHA1.finalized_ s' = false /\
    SHA1.buffer_length_ s'
      = ((SHA1.buffer_length_ SHA1.new + length (replicate 70 97)) mod 64)%nat /\
    SHA1.message_length_ s'
      = (SHA1.message_length_ SHA1.new
         + 8 * Z.of_nat (length (replicate 70 97))) mod 2 ^ 64.
Proof.
  assert (H : hasher_ok SHA1.new)
    by (split; [cbn; lia|reflexivity|cbn; lia]).
  split; [exact H|]. split; [reflexivity|].
  apply (update_keeps_buffer_in_bounds SHA1.new (replicate 70 97) H eq_refl).
Defined.

(** ** Object codec and database: further properties *)

Lemma deserialize_result (host : SHA1.byte_order) (raw : string) (ob : Object) :
  deserialize host raw = Ok ob ->
  exists i content,
    find_char NUL raw = Some i /\ content = substr_from (i + 1) raw /\
    (ob = new_Blob host content \/ ob = new_Tree host \/ ob = new_Commit host \/
     ob = make_Tag host "" Blob "" (mkPerson "" "" 0) "").
Proof.
  unfold deserialize. destruct (find_char NUL raw) as [i|]; [|discriminate].
  destruct (find_char " " (substr 0 i raw)) as [sp|]; [|discriminate].
  intros H. exists i, (substr_from (i + 1) raw). split; [reflexivity|].
  split; [reflexivity|].
  destruct (String.eqb (substr 0 sp (substr 0 i raw)) "blob");
    [injection H as <-; auto|].
  destruct (String.eqb (substr 0 sp (substr 0 i raw)) "tree");
    [injection H as <-; auto|].
  destruct (String.eqb (substr 0 sp (substr 0 i raw)) "commit");
    [injection H as <-; auto|].
  destruct (String.eqb (substr 0 sp (substr 0 i raw)) "tag");
    [injection H as <-; auto|discriminate].
Qed.

Lemma deserialize_kind (host : SHA1.byte_order) (raw : string) (ob : Object) :
  deserialize host raw = Ok ob ->
  exists i sp,
    find_char NUL raw = Some i /\
    find_char " " (substr 0 i raw) = Some sp /\
    substr 0 sp (substr 0 i raw) = type_header (type_ ob).
Proof.
  unfold deserialize. destruct (find_char NUL raw) as [i|] eqn:Hi; [|discriminate].
  destruct (find_char " " (substr 0 i raw)) as [sp|] eqn:Hsp; [|discriminate].
  intros H. exists i, sp. split; [reflexivity|]. split; [exact Hsp|].
  destruct (String.eqb (substr 0 sp (substr 0 i raw)) "blob") eqn:E1;
    [injection H as <-; apply String.eqb_eq, E1|].
  destruct (String.eqb (substr 0 sp (substr 0 i raw)) "tree") eqn:E2;
    [injection H as <-; apply String.eqb_eq, E2|].
  destruct (String.eqb (substr 0 sp (substr 0 i raw)) "commit") eqn:E3;
    [injection H as <-; apply String.eqb_eq, E3|].
  destruct (String.eqb (substr 0 sp (substr 0 i raw)) "tag") eqn:E4;
    [injection H as <-; apply String.eqb_eq, E4|discriminate].
Qed.

Lemma deserialize_accepts
      (host : SHA1.byte_order) (raw : string) (i sp : nat) (ty : ObjectType) :
  find_char NUL raw = Some i ->
  find_char " " (substr 0 i raw) = Some sp ->
  substr 0 sp (substr 0 i raw) = type_header ty ->
  exists ob, deserialize host raw = Ok ob /\ type_ ob = ty.
Proof.
  intros Hi Hsp Hty. unfold deserialize. rewrite Hi, Hsp, Hty.
  destruct ty; cbn [type_header]; eexists; split; reflexivity.
Qed.

(** X6: [deserialize] accepts a frame exactly when the word before the
    first space of its header (the bytes before the first NUL) is [blob],
    [tree], [commit] or [tag], and the object it returns is of the kind
    that this word names.  For a blob the data are the bytes after the
    first NUL.  Nothing else is recovered: a decoded tree has no entries,
    a decoded commit names no tree and no parent, and both have empty
    data, whatever the payload holds. *)
Theorem deserialize_drops_structure (host : SHA1.byte_order) (raw : string) :
  (forall ob,
      deserialize host raw = Ok ob ->
      (exists i sp,
          find_char NUL raw = Some i /\
          find_char " " (substr 0 i raw) = Some sp /\
          substr 0 sp (substr 0 i raw) = type_header (type_ ob) /\
          (type_ ob = Blob -> data_ ob = substr_from (i + 1) raw)) /\
      entries ob = [] /\ tree_id ob = EmptyString /\ parent_ids ob = [] /\
      (type_ ob = Tree \/ type_ ob = Commit -> data_ ob = EmptyString)) /\
  (forall i sp ty,
      find_char NUL raw = Some i ->
      find_char " " (substr 0 i raw) = Some sp ->
      substr 0 sp (substr 0 i raw) = type_header ty ->
      exists ob, deserialize host raw = Ok ob /\ type_ ob = ty).
Proof.
  split; [|apply deserialize_accepts].
  intros ob H.
  destruct (deserialize_kind host raw ob H) as (i & sp & Hi & Hsp & Hkind).
  apply deserialize_result in H as (i' & content & Hi' & Hc & Hob).
  subst content. rewrite Hi in Hi'. injection Hi' as <-.
  split.
  - exists i, sp. split; [exact Hi|]. split; [exact Hsp|]. split; [exact Hkind|].
    destruct Hob as [-> | [-> | [-> | ->]]]; intros Hty;
      first [reflexivity|discriminate Hty].
  - destruct Hob as [-> | [-> | [-> | ->]]];
      (split; [reflexivity|]); (split; [reflexivity|]); (split; [reflexivity|]);
      intros [Hty|Hty]; first [reflexivity|discriminate Hty].
Qed.

Lemma deserialize_drops_structure_witness :
  deserialize SHA1.LittleEndian
    ("tree 32" +:+ String NUL ("100644 a" +:+ String NUL "0123456789abcdef0123"))
    = Ok (new_Tree SHA1.LittleEndian) /\
  (exists i sp,
      find_char NUL
        ("tree 32" +:+ String NUL ("100644 a" +:+ String NUL "0123456789abcdef0123"))
        = Some i /\
      find_char " "
        (substr 0 i
           ("tree 32" +:+ String NUL ("100644 a" +:+ String NUL "0123456789abcdef0123")))
        = Some sp /\
      substr 0 sp
        (substr 0 i
           ("tree 32" +:+ String NUL ("100644 a" +:+ String NUL "0123456789abcdef0123")))
        = type_header (type_ (new_Tree SHA1.LittleEndian)) /\
      (type_ (new_Tree SHA1.LittleEndian) = Blob ->
       data_ (new_Tree SHA1.LittleEndian)
         = substr_from (i + 1)
             ("tree 32" +:+ String NUL
                ("100644 a" +:+ String NUL "0123456789abcdef0123")))) /\
  entries (new_Tree SHA1.LittleEndian) = [] /\
  tree_id (new_Tree SHA1.LittleEndian) = EmptyString /\
  parent_ids (new_Tree SHA1.LittleEndian) = [] /\
  (type_ (new_Tree SHA1.LittleEndian) = Tree \/
   type_ (new_Tree SHA1.LittleEndian) = Commit ->
   data_ (new_Tree SHA1.LittleEndian) = EmptyString).
Proof.
  split; [reflexivity|].
  apply (proj1 (deserialize_drops_structure SHA1.LittleEndian
                  ("tree 32" +:+ String NUL
                     ("100644 a" +:+ String NUL "0123456789abcdef0123")))
           (new_Tree SHA1.LittleEndian)).
  reflexivity.
Defined.

Lemma get_object_path_ok (db : ObjectDatabase) (id : ObjectId) (p : string) :
  get_object_path db id = Ok p ->
  (2 <= String.length id)%nat /\
  p = objects_dir_ db +:+ "/" +:+ substr 0 2 id +:+ "/" +:+ substr_from 2 id.
Proof.
  unfold get_object_path.
  destruct (Nat.ltb_spec (String.length id) 2); [discriminate|].
  intros [= <-]. split; [lia|reflexivity].
Qed.


Lemma fs_exists_true (w : World) (p : string) :
  fs_exists w p = true <-> is_Some (files w !! p).
Proof. unfold fs_exists. apply bool_decide_eq_true. Qed.

Lemma fs_exists_false (w : World) (p : string) :
  fs_exists w p = false <-> files w !! p = None.
Proof.
  unfold fs_exists. rewrite bool_decide_eq_false, <- eq_None_not_Some. reflexivity.
Qed.

(** X8: storing an object whose file does not exist yet writes the frame
    to the object's file and to no other, after which the object exists,
    [load] gives back the very object that was stored, and storing it
    again changes nothing. *)
Theorem store_then_load
        (host : SHA1.byte_order) (db : ObjectDatabase) (w : World) (ob : Object)
        (p : string) :
  get_object_path db (id_ ob) = Ok p ->
  files w !! p = None ->
  writable w p = true ->
  exists db1 w1,
    store db w ob = (Ok tt, db1, w1) /\
    files w1 !! p = Some (full_data ob) /\
    (forall q, q <> p -> files w1 !! q = files w !! q) /\
    db_exists db1 w1 (id_ ob) = Ok true /\
    load host db1 w1 (id_ ob) = (Ok ob, db1) /\
    store db1 w1 ob = (Ok tt, db1, w1).
Proof.
  intros Hp Hnone Hw.
  assert (Hex : db_exists db w (id_ ob) = Ok false).
  { unfold db_exists. rewrite Hp. cbn [bindR]. f_equal.
    apply fs_exists_false, Hnone. }
  eexists _, _. split.
  { unfold store. rewrite Hex, Hp, Hw. reflexivity. }
  assert (Hfile : files (write_file w p (compress_data (full_data ob))) !! p
                  = Some (full_data ob))
    by (cbn [write_file set_files files]; apply lookup_insert_eq).
  assert (Hex1 : db_exists (mkObjectDatabase (objects_dir_ db)
                              (<[id_ ob:=ob]> (cache_ db)))
                           (write_file w p (compress_data (full_data ob)))
                           (id_ ob) = Ok true).
  { unfold db_exists.
    change (get_object_path (mkObjectDatabase (objects_dir_ db) _) (id_ ob))
      with (get_object_path db (id_ ob)).
    rewrite Hp. cbn [bindR]. f_equal. apply fs_exists_true. rewrite Hfile. eauto. }
  split; [exact Hfile|]. split.
  { intros q Hq. cbn [write_file set_files files]. apply lookup_insert_ne. congruence. }
  split; [exact Hex1|]. split.
  - unfold load. cbn [cache_]. rewrite lookup_insert_eq. reflexivity.
  - unfold store. rewrite Hex1. reflexivity.
Qed.

Lemma store_then_load_witness :
  exists db1 w1,
    store (new_ObjectDatabase ".git") empty_world hello_blob = (Ok tt, db1, w1) /\
    files w1 !! ".git/objects/0b/040e9a666f817ffe283eb851e3b17dfb1e5455"
      = Some (full_data hello_blob) /\
    (forall q, q <> ".git/objects/0b/040e9a666f817ffe283eb851e3b17dfb1e5455"%string ->
               files w1 !! q = files empty_world !! q) /\
    db_exists db1 w1 (id_ hello_blob) = Ok true /\
    load SHA1.LittleEndian db1 w1 (id_ hello_blob) = (Ok hello_blob, db1) /\
    store db1 w1 hello_blob = (Ok tt, db1, w1).
Proof.
  apply (store_then_load SHA1.LittleEndian (new_ObjectDatabase ".git") empty_world
           hello_blob ".git/objects/0b/040e9a666f817ffe283eb851e3b17dfb1e5455").
  - vm_compute. reflexivity.
  - reflexivity.
  - reflexivity.
Defined.

Lemma load_cases (host : SHA1.byte_order) (db db1 : ObjectDatabase) (w : World)
      (id : ObjectId) (ob : Object) :
  load host db w id = (Ok ob, db1) ->
  (cache_ db !! id = Some ob /\ db1 = db) \/
  (cache_ db !! id = None /\ (2 <= String.length id)%nat /\
   (exists raw, deserialize host raw = Ok ob) /\
   db1 = mkObjectDatabase (objects_dir_ db) (<[id := ob]> (cache_ db))).
Proof.
  unfold load. destruct (cache_ db !! id) as [o|] eqn:Ec.
  - intros [= -> <-]. left. auto.
  - right. split; [reflexivity|].
    unfold db_exists in H. destruct (get_object_path db id) as [p|e] eqn:Ep;
      cbn [bindR] in H; [|discriminate].
    apply get_object_path_ok in Ep as [Hlen _].
    destruct (fs_exists w p); [|discriminate].
    destruct (files w !! p) as [raw|]; [|discriminate].
    unfold decompress_data in H. cbn [bindR] in H.
    destruct (deserialize host raw) as [o|e] eqn:Ed; [|discriminate].
    injection H as <- <-. eauto.
Qed.

(** X9: once [load] has returned an object for an id, it returns the same
    object for that id from then on, whatever happens to the files; a
    load never drops or replaces what the cache already holds. *)
Theorem load_is_repeatable
        (host : SHA1.byte_order) (db db1 : ObjectDatabase) (w : World)
        (id : ObjectId) (ob : Object) :
  load host db w id = (Ok ob, db1) ->
  (forall w', load host db1 w' id = (Ok ob, db1)) /\
  (forall id' o, cache_ db !! id' = Some o -> cache_ db1 !! id' = Some o) /\
  objects_dir_ db1 = objects_dir_ db.
Proof.
  intros H. apply load_cases in H as [[Hc ->]|(Hc & _ & _ & ->)].
  - split; [|split; [auto|reflexivity]].
    intros w'. unfold load. rewrite Hc. reflexivity.
  - split; [|split; [|reflexivity]].
    + intros w'. unfold load. cbn [cache_]. rewrite lookup_insert_eq. reflexivity.
    + intros id' o Ho. cbn [cache_]. rewrite lookup_insert_ne; [exact Ho|].
      intros E. subst id'. unfold ObjectId in *. rewrite Hc in Ho. discriminate Ho.
Qed.

Lemma load_is_repeatable_witness :
  load SHA1.LittleEndian hello_db hello_db_world (id_ hello_blob)
    = (Ok hello_blob, hello_db) /\
  (forall w', load SHA1.LittleEndian hello_db w' (id_ hello_blob)
              = (Ok hello_blob, hello_db)) /\
  (forall id' o, cache_ hello_db !! id' = Some o -> cache_ hello_db !! id' = Some o) /\
  objects_dir_ hello_db = objects_dir_ hello_db.
Proof.
  assert (H : load SHA1.LittleEndian hello_db hello_db_world (id_ hello_blob)
              = (Ok hello_blob, hello_db)) by (vm_compute; reflexivity).
  split; [exact H|].
  apply (load_is_repeatable SHA1.LittleEndian hello_db hello_db hello_db_world
           (id_ hello_blob) hello_blob H).
Defined.

Lemma deserialize_names_no_tree (host : SHA1.byte_order) (raw : string) (ob : Object) :
  deserialize host raw = Ok ob -> tree_id ob = EmptyString.
Proof.
  intros H. apply deserialize_result in H as (i & content & _ & _ & Hob).
  destruct Hob as [-> | [-> | [-> | ->]]]; reflexivity.
Qed.

Lemma load_keeps_cache_decoded
      (host : SHA1.byte_order) (db db1 : ObjectDatabase) (w : World)
      (id : ObjectId) (res : Result Object) :
  cache_decoded db -> load host db w id = (res, db1) ->
  cache_decoded db1 /\ (forall ob, res = Ok ob -> tree_id ob = EmptyString).
Proof.
  intros Hdb H. destruct res as [ob|e].
  - apply load_cases in H as [[Hc ->]|(Hc & Hlen & [raw Hraw] & ->)].
    + split; [exact Hdb|]. intros ob' [= <-]. apply (Hdb id ob Hc).
    + apply deserialize_names_no_tree in Hraw. split.
      * intros id' o. cbn [cache_]. rewrite lookup_insert.
        destruct (decide (id = id')) as [<-|_].
        -- intros [= <-]. auto.
        -- apply Hdb.
      * intros ob' [= <-]. exact Hraw.
  - assert (db1 = db) as ->; [|split; [exact Hdb|discriminate]].
    unfold load in H. destruct (cache_ db !! id); [discriminate|].
    destruct (db_exists db w id) as [[|]|]; try (injection H as _ <-; reflexivity).
    destruct (get_object_path db id); try (injection H as _ <-; reflexivity).
    destruct (files w !! a); try (injection H as _ <-; reflexivity).
    destruct (bindR (decompress_data s) (deserialize host));
      [discriminate|injection H as _ <-; reflexivity].
Qed.

Lemma get_tree_from_commit_decoded
      (host : SHA1.byte_order) (db db1 : ObjectDatabase) (w : World)
      (id : string) (res : Result string) :
  cache_decoded db -> get_tree_from_commit host db w id = (res, db1) ->
  cache_decoded db1 /\ (forall t, res = Ok t -> t = EmptyString).
Proof.
  intros Hdb. unfold get_tree_from_commit.
  destruct (load host db w id) as [[ob|e] db2] eqn:E;
    destruct (load_keeps_cache_decoded host db db2 w id _ Hdb E) as [Hdb2 Ht].
  - destruct (type_ ob); intros [= <- <-]; (split; [exact Hdb2|]);
      intros t [= <-]; try discriminate. apply Ht. reflexivity.
  - intros [= <- <-]. split; [exact Hdb2|discriminate].
Qed.

Lemma load_empty_id_throws (host : SHA1.byte_order) (db : ObjectDatabase) (w : World) :
  cache_decoded db ->
  load host db w EmptyString = (Throw ("Invalid object ID: " +:+ EmptyString), db).
Proof.
  intros Hdb. unfold load.
  destruct (cache_ db !! _) as [ob|] eqn:E; [|reflexivity].
  apply Hdb in E as [Hlen _]. cbn in Hlen. lia.
Qed.

Lemma merge_try_decoded_throws
      (host : SHA1.byte_order) (db : ObjectDatabase) (w : World)
      (base ours theirs : string) :
  cache_decoded db ->
  exists e db1, merge_try host db w base ours theirs = (Throw e, db1, w).
Proof.
  intros Hdb. unfold merge_try.
  destruct (get_tree_from_commit host db w base) as [[bt|e] db1] eqn:E1; [|eauto].
  destruct (get_tree_from_commit_decoded host _ _ _ _ _ Hdb E1) as [Hdb1 Hbt].
  destruct (get_tree_from_commit host db1 w ours) as [[ot|e] db2] eqn:E2; [|eauto].
  destruct (get_tree_from_commit_decoded host _ _ _ _ _ Hdb1 E2) as [Hdb2 Hot].
  destruct (get_tree_from_commit host db2 w theirs) as [[tt|e] db3] eqn:E3; [|eauto].
  destruct (get_tree_from_commit_decoded host _ _ _ _ _ Hdb2 E3) as [Hdb3 Htt].
  rewrite (Hbt bt eq_refl).
  unfold perform_three_way_merge, get_tree_files.
  rewrite (load_empty_id_throws host db3 w Hdb3). eauto.
Qed.

(** X10: on an object database that holds only what [load] put there, as
    is the case from [Repository::open] on, the three-way merge of any
    three commits answers [Failed], reports no conflict and writes no
    file: a decoded commit names the tree with the empty id, which has no
    object. *)
Theorem merge_fails_on_loaded_objects
        (host : SHA1.byte_order) (db : ObjectDatabase) (w : World)
        (base ours theirs : string) :
  cache_decoded db ->
  exists msg db1,
    merge host db w base ours theirs
      = (mkMergeResult Failed ("Merge failed: " +:+ msg) [], db1, w).
Proof.
  intros Hdb.
  destruct (merge_try_decoded_throws host db w base ours theirs Hdb)
    as (e & db1 & E).
  exists e, db1. unfold merge. rewrite E. reflexivity.
Qed.

Lemma merge_fails_on_loaded_objects_witness :
  cache_decoded (new_ObjectDatabase ".git") /\
  exists msg db1,
    merge SHA1.LittleEndian (new_ObjectDatabase ".git") two_branch_world
          sample_id_a sample_id_a sample_id_b
      = (mkMergeResult Failed ("Merge failed: " +:+ msg) [], db1, two_branch_world).
Proof.
  assert (H : cache_decoded (new_ObjectDatabase ".git")).
  { intros id ob E. cbn [new_ObjectDatabase cache_] in E.
    rewrite lookup_empty in E. discriminate E. }
  split; [exact H|].
  apply (merge_fails_on_loaded_objects SHA1.LittleEndian (new_ObjectDatabase ".git")
           two_branch_world sample_id_a sample_id_a sample_id_b H).
Defined.

(** X11: the merge command on a repository as [Repository::open] builds
    it, with an empty object cache, never merges: whenever it returns a
    result, the status is [AlreadyUpToDate] or [Failed], no conflict is
    reported and no file is written. *)
Theorem perform_merge_after_open_never_merges
        (host : SHA1.byte_order) (fuel : nat) (r : Refs) (git_dir : string)
        (w w' : World) (branch_name : string) (res : MergeResult)
        (repo' : Repository) :
  perform_merge host fuel (mkRepository r (new_ObjectDatabase git_dir)) w branch_name
    = Some (Ok res, repo', w') ->
  (status res = AlreadyUpToDate \/ status res = Failed) /\
  conflicts res = [] /\ w' = w.
Proof.
  unfold perform_merge. cbn [refs objects].
  destruct (get_head fuel r w) as [[[ours|e] r1]|]; try discriminate.
  destruct (read_ref fuel r1 w ("refs/heads/" +:+ branch_name))
    as [[[theirs|]|e]|]; try discriminate.
  destruct (String.eqb ours theirs).
  { intros [= <- _ <-]. auto. }
  unfold find_merge_base. destruct (String.eqb ours EmptyString); [discriminate|].
  destruct (merge_try_decoded_throws host (new_ObjectDatabase git_dir) w
              ours ours theirs) as (msg & db1 & E).
  { intros id ob E. cbn [new_ObjectDatabase cache_] in E.
    rewrite lookup_empty in E. discriminate E. }
  unfold merge. rewrite E.
  intros [= <- _ <-]. auto.
Qed.

Lemma perform_merge_after_open_never_merges_witness :
  exists res repo',
    perform_merge SHA1.LittleEndian 10
      (mkRepository (refs two_branch_repo) (new_ObjectDatabase ".git"))
      two_branch_world "feat" = Some (Ok res, repo', two_branch_world) /\
    (status res = AlreadyUpToDate \/ status res = Failed) /\
    conflicts res = [] /\ two_branch_world = two_branch_world.
Proof.
  eexists _, _.
  assert (H : forall x y,
             perform_merge SHA1.LittleEndian 10
               (mkRepository (refs two_branch_repo) (new_ObjectDatabase ".git"))
               two_branch_world "feat" = Some (Ok x, y, two_branch_world) ->
             perform_merge SHA1.LittleEndian 10
               (mkRepository (refs two_branch_repo) (new_ObjectDatabase ".git"))
               two_branch_world "feat" = Some (Ok x, y, two_branch_world) /\
             (status x = AlreadyUpToDate \/ status x = Failed) /\
             conflicts x = [] /\ two_branch_world = two_branch_world).
  { intros x y E. split; [exact E|].
    exact (perform_merge_after_open_never_merges SHA1.LittleEndian 10
             (refs two_branch_repo) ".git" two_branch_world two_branch_world
             "feat" x y E). }
  apply H. vm_compute. reflexivity.
Defined.

(** ** Merge: which files conflict *)

Lemma str_lt_trans (a b c : string) : str_lt a b -> str_lt b c -> str_lt a c.
Proof.
  unfold str_lt, String.ltb. intros Hab Hbc.
  destruct (String.compare a b) eqn:Eab; try discriminate.
  destruct (String.compare b c) eqn:Ebc; try discriminate.
  assert (Hle : String.le a c).
  { transitivity b; unfold String.le, String.leb; [rewrite Eab|rewrite Ebc]; exact I. }
  unfold String.le, String.leb in Hle.
  destruct (String.compare a c) eqn:Eac; [|reflexivity|contradiction].
  apply String.compare_eq_iff in Eac as ->.
  rewrite String.compare_antisym, Ebc in Eab. discriminate Eab.
Qed.

Lemma set_insert_In (x z : string) (l : list string) :
  In z (set_insert x l) <-> z = x \/ In z l.
Proof.
  induction l as [|y l IH]; cbn [set_insert].
  - cbn. intuition.
  - destruct (String.eqb_spec x y) as [->|Hne].
    + cbn. intuition.
    + destruct (String.ltb x y).
      * cbn. intuition.
      * cbn [In]. rewrite IH. intuition.
Qed.

Lemma set_insert_sorted (x : string) (l : list string) :
  StronglySorted str_lt l -> StronglySorted str_lt (set_insert x l).
Proof.
  induction l as [|y l IH]; cbn [set_insert]; intros Hs.
  - repeat constructor.
  - apply StronglySorted_inv in Hs as [Hs Hy].
    destruct (String.eqb_spec x y) as [->|Hne]; [constructor; assumption|].
    destruct (String.ltb x y) eqn:Exy.
    + constructor; [constructor; assumption|].
      constructor; [exact Exy|].
      eapply Forall_impl; [exact Hy|]. intros z Hz. cbv beta in Hz.
      eapply str_lt_trans; [exact Exy|exact Hz].
    + constructor; [apply IH, Hs|].
      apply List.Forall_forall. intros z Hz. apply set_insert_In in Hz as [->|Hz].
      * unfold str_lt, String.ltb in *.
        rewrite (String.compare_antisym y x).
        destruct (String.compare x y) eqn:E; try discriminate; [|reflexivity].
        apply String.compare_eq_iff in E. contradiction.
      * rewrite List.Forall_forall in Hy. apply Hy, Hz.
Qed.

Lemma all_files_set (l acc : list string) :
  StronglySorted str_lt acc ->
  StronglySorted str_lt (fold_left (fun s x => set_insert x s) l acc) /\
  forall z, In z (fold_left (fun s x => set_insert x s) l acc) <-> In z l \/ In z acc.
Proof.
  revert acc. induction l as [|x l IH]; intros acc Hs; cbn [fold_left].
  - split; [exact Hs|]. cbn. intuition.
  - destruct (IH (set_insert x acc) (set_insert_sorted x acc Hs)) as [H1 H2].
    split; [exact H1|]. intros z. rewrite H2, set_insert_In. cbn. intuition.
Qed.

Lemma contains_In (v : list string) (f : string) : contains v f = true <-> In f v.
Proof.
  unfold contains. rewrite existsb_exists. split.
  - intros (x & Hx & E). apply String.eqb_eq in E. now subst.
  - intros H. exists f. split; [exact H|apply String.eqb_refl].
Qed.

Lemma merge_file_step
      (host : SHA1.byte_order) (ours theirs : string)
      (bfs ofs tfs : list string) (cs : list Conflict)
      (db : ObjectDatabase) (w : World) (f : string) :
  merge_file host ours theirs bfs ofs tfs (cs, db, w) f =
  if contains ofs f && contains tfs f
  then (cs ++ [mkConflict f],
        fst (mark_conflict host db w ours theirs f),
        snd (mark_conflict host db w ours theirs f))
  else (cs, db, w).
Proof.
  unfold merge_file.
  destruct (contains ofs f), (contains tfs f), (contains bfs f); cbn [andb orb negb];
    try reflexivity; destruct (mark_conflict host db w ours theirs f); reflexivity.
Qed.

Lemma merge_files_conflicts
      (host : SHA1.byte_order) (ours theirs : string)
      (bfs ofs tfs l : list string) (cs : list Conflict)
      (db : ObjectDatabase) (w : World) :
  fst (fst (fold_left (merge_file host ours theirs bfs ofs tfs) l (cs, db, w)))
  = cs ++ map mkConflict
            (List.filter (fun f => contains ofs f && contains tfs f) l).
Proof.
  revert cs db w. induction l as [|f l IH]; intros cs db w; cbn [fold_left].
  - cbn. now rewrite app_nil_r.
  - cbn [List.filter]. rewrite merge_file_step.
    destruct (contains ofs f && contains tfs f).
    + rewrite IH. cbn [map]. now rewrite <- app_assoc.
    + apply IH.
Qed.

Lemma filter_strongly_sorted {A : Type} (R : A -> A -> Prop) (P : A -> bool)
      (l : list A) :
  StronglySorted R l -> StronglySorted R (List.filter P l).
Proof.
  induction 1 as [|x l Hs IH Hx]; cbn [List.filter]; [constructor|].
  destruct (P x); [|exact IH]. constructor; [exact IH|].
  rewrite List.Forall_forall in *. intros z Hz. apply filter_In in Hz as [Hz _]. auto.
Qed.

Lemma three_way_conflicts
      (host : SHA1.byte_order) (db db1 db2 db3 : ObjectDatabase) (w : World)
      (ours theirs base_tree our_tree their_tree : string)
      (bfs ofs tfs : list string) :
  get_tree_files host db w base_tree = (Ok bfs, db1) ->
  get_tree_files host db1 w our_tree = (Ok ofs, db2) ->
  get_tree_files host db2 w their_tree = (Ok tfs, db3) ->
  exists cs db4 w4,
    perform_three_way_merge host db w ours theirs base_tree our_tree their_tree
      = (Ok cs, db4, w4) /\
    (forall f, In (mkConflict f) cs <-> In f ofs /\ In f tfs) /\
    StronglySorted str_lt (map conflict_path cs).
Proof.
  intros Hb Ho Ht. unfold perform_three_way_merge. rewrite Hb, Ho, Ht.
  pose proof (merge_files_conflicts host ours theirs bfs ofs tfs
                (fold_left (fun s x => set_insert x s) (bfs ++ ofs ++ tfs) [])
                [] db3 w) as Hcs.
  destruct (fold_left (merge_file host ours theirs bfs ofs tfs) _ ([], db3, w))
    as [[cs db4] w4].
  cbn [fst app] in Hcs. subst cs. eexists _, _, _. split; [reflexivity|].
  destruct (all_files_set (bfs ++ ofs ++ tfs) [] (SSorted_nil _)) as [Hsorted Hin].
  split.
  - intros f. rewrite in_map_iff. split.
    + intros (x & [= ->] & Hx). apply filter_In in Hx as [_ Hx].
      apply andb_prop in Hx as [H1 H2]. split; apply contains_In; assumption.
    + intros [H1 H2]. exists f. split; [reflexivity|]. apply filter_In. split.
      * apply Hin. left. apply in_or_app. right. apply in_or_app. left. exact H1.
      * apply andb_true_intro. split; apply contains_In; assumption.
  - rewrite map_map. cbn [conflict_path]. rewrite map_id.
    apply filter_strongly_sorted, Hsorted.
Qed.

(** What [get_tree_files] makes of the object that [load] returns: the
    names of the entries of a tree that are not directories, and nothing
    for an object of another kind. *)
Lemma get_tree_files_of_load
      (host : SHA1.byte_order) (db db1 : ObjectDatabase) (w : World)
      (id : string) (ob : Object) :
  load host db w id = (Ok ob, db1) ->
  exists fs,
    get_tree_files host db w id = (Ok fs, db1) /\
    forall f, In f fs <->
              type_ ob = Tree /\
              exists e, In e (entries ob) /\ entry_name e = f /\
                        entry_mode e <> Directory.
Proof.
  intros H. unfold get_tree_files. rewrite H.
  destruct (type_ ob) eqn:Hty;
    try (exists []; split; [reflexivity|];
         intros f; split; [intros []|intros [E _]; discriminate E]).
  eexists. split; [reflexivity|]. intros f. rewrite in_map_iff. split.
  - intros (e & <- & He). split; [reflexivity|].
    apply list_elem_of_In, list_elem_of_filter in He as [Hm He].
    exists e. split; [apply list_elem_of_In, He|]. split; [reflexivity|].
    intros E. rewrite E in Hm. discriminate Hm.
  - intros (_ & e & He & <- & Hm). exists e. split; [reflexivity|].
    apply list_elem_of_In, list_elem_of_filter. split; [|apply list_elem_of_In, He].
    destruct (entry_mode e); first [reflexivity|contradiction].
Qed.

(** X12: when the three tree ids can be loaded, the conflicts reported
    are exactly the names that both the object loaded for our tree and the
    object loaded for their tree hold as entries that are not directories
    (an object that is not a tree holds none); the base tree has no
    influence on them.  They are reported once each, in ascending order of
    the names. *)
Theorem conflicts_are_the_common_names
        (host : SHA1.byte_order) (db db1 db2 db3 : ObjectDatabase) (w : World)
        (ours theirs base_tree our_tree their_tree : string)
        (bt ot tt : Object) :
  load host db w base_tree = (Ok bt, db1) ->
  load host db1 w our_tree = (Ok ot, db2) ->
  load host db2 w their_tree = (Ok tt, db3) ->
  exists cs db4 w4,
    perform_three_way_merge host db w ours theirs base_tree our_tree their_tree
      = (Ok cs, db4, w4) /\
    (forall f,
        In (mkConflict f) cs <->
        (type_ ot = Tree /\
         exists e, In e (entries ot) /\ entry_name e = f /\
                   entry_mode e <> Directory) /\
        (type_ tt = Tree /\
         exists e, In e (entries tt) /\ entry_name e = f /\
                   entry_mode e <> Directory)) /\
    StronglySorted str_lt (map conflict_path cs).
Proof.
  intros Hb Ho Ht.
  destruct (get_tree_files_of_load host _ _ w _ _ Hb) as (bfs & Hbfs & _).
  destruct (get_tree_files_of_load host _ _ w _ _ Ho) as (ofs & Hofs & Hino).
  destruct (get_tree_files_of_load host _ _ w _ _ Ht) as (tfs & Htfs & Hint).
  destruct (three_way_conflicts host db db1 db2 db3 w ours theirs
              base_tree our_tree their_tree bfs ofs tfs Hbfs Hofs Htfs)
    as (cs & db4 & w4 & Hrun & Hcs & Hsorted).
  exists cs, db4, w4. split; [exact Hrun|]. split; [|exact Hsorted].
  intros f. rewrite Hcs, Hino, Hint. reflexivity.
Qed.

Lemma conflicts_are_the_common_names_witness :
  exists cs db4 w4,
    perform_three_way_merge SHA1.LittleEndian sample_merge_db sample_merge_world
      sample_id_a sample_id_b sample_merge_tree sample_merge_tree sample_merge_tree
      = (Ok cs, db4, w4) /\
    (forall f,
        In (mkConflict f) cs <->
        (type_ sample_merge_tree_object = Tree /\
         exists e, In e (entries sample_merge_tree_object) /\ entry_name e = f /\
                   entry_mode e <> Directory) /\
        (type_ sample_merge_tree_object = Tree /\
         exists e, In e (entries sample_merge_tree_object) /\ entry_name e = f /\
                   entry_mode e <> Directory)) /\
    StronglySorted str_lt (map conflict_path cs).
Proof.
  apply (conflicts_are_the_common_names SHA1.LittleEndian
           sample_merge_db sample_merge_db sample_merge_db sample_merge_db
           sample_merge_world sample_id_a sample_id_b
           sample_merge_tree sample_merge_tree sample_merge_tree
           sample_merge_tree_object sample_merge_tree_object
           sample_merge_tree_object);
    vm_compute; reflexivity.
Defined.

(** ** Reference store: further properties *)

(** X13: [read_ref_file] never hands out anything but 40 hexadecimal
    digits, however long the chain of symbolic refs it followed. *)
Theorem read_ref_file_returns_well_formed_ids
        (fuel : nat) (r : Refs) (w : World) (path : string) (oid : ObjectId) :
  read_ref_file fuel r w path = Some (Ok (Some oid)) -> valid_sha1 oid = true.
Proof.
  unfold read_ref_file. intros H.
  apply read_ref_file_holding_id_ends_chain in H as (n & _ & Hchain).
  induction Hchain; assumption.
Qed.

Lemma read_ref_file_returns_well_formed_ids_witness :
  read_ref_file 7 empty_refs symref_world ".git/refs/heads/r0"
    = Some (Ok (Some sample_id_a)) /\
  valid_sha1 sample_id_a = true.
Proof.
  assert (H : read_ref_file 7 empty_refs symref_world ".git/refs/heads/r0"
              = Some (Ok (Some sample_id_a))) by (vm_compute; reflexivity).
  split; [exact H|].
  exact (read_ref_file_returns_well_formed_ids 7 empty_refs symref_world
           ".git/refs/heads/r0" sample_id_a H).
Defined.

Lemma get_ref_path_git_dir (r r' : Refs) (name : string) :
  git_dir_ r' = git_dir_ r -> get_ref_path r' name = get_ref_path r name.
Proof.
  intros H. unfold get_ref_path, heads_dir_, refs_dir_. rewrite H. reflexivity.
Qed.

(** X14: [create_ref] of a direct ref writes the target, followed by a
    newline, to the file of the ref, whatever the target is and whether
    or not the ref existed; afterwards the ref exists and [read_ref]
    returns the target. *)
Theorem create_ref_then_read_ref
        (r : Refs) (w : World) (name : RefName) (target : ObjectId) (path : string) :
  get_ref_path r name = Ok path ->
  writable w path = true ->
  exists r1 w1,
    create_ref r w name target false = (Ok tt, r1, w1) /\
    files w1 !! path = Some (target +:+ newline) /\
    ref_exists r1 w1 name = Ok true /\
    forall fuel, read_ref fuel r1 w1 name = Some (Ok (Some target)).
Proof.
  intros Hpath Hw. unfold create_ref, write_ref_file. rewrite Hpath, Hw.
  eexists _, _. split; [reflexivity|].
  assert (Hfile : files (log_ref_change
                           (set_ref_cache r (<[name:=target]> (ref_cache_ r)))
                           (write_file w path (target +:+ newline))
                           name EmptyString target) !! path
                  = Some (target +:+ newline)).
  { rewrite log_ref_change_other_file.
    - cbn [write_file set_files files]. apply lookup_insert_eq.
    - cbn [set_ref_cache git_dir_]. apply ref_path_is_not_reflog_path, Hpath. }
  split; [exact Hfile|]. split.
  - unfold ref_exists.
    rewrite (get_ref_path_git_dir r) by reflexivity. rewrite Hpath. cbn [bindR].
    f_equal. apply fs_exists_true. rewrite Hfile. eauto.
  - intros fuel. unfold read_ref. cbn [set_ref_cache ref_cache_].
    rewrite lookup_insert_eq. reflexivity.
Qed.

Lemma create_ref_then_read_ref_witness :
  exists r1 w1,
    create_ref main_refs main_world "refs/heads/test-branch" "abc123" false
      = (Ok tt, r1, w1) /\
    files w1 !! ".git/refs/heads/test-branch" = Some ("abc123" +:+ newline) /\
    ref_exists r1 w1 "refs/heads/test-branch" = Ok true /\
    forall fuel, read_ref fuel r1 w1 "refs/heads/test-branch"
                 = Some (Ok (Some "abc123"%string)).
Proof.
  apply (create_ref_then_read_ref main_refs main_world "refs/heads/test-branch"
           "abc123" ".git/refs/heads/test-branch"); reflexivity.
Defined.

(** X15: [delete_ref] of a ref whose file exists and which resolves
    removes the file and the cache entry: afterwards the ref does not
    exist and [read_ref] finds nothing. *)
Theorem delete_ref_removes_the_ref
        (fuel : nat) (r r1 : Refs) (w : World) (name : RefName)
        (path : string) (old : ObjectId) :
  get_ref_path r name = Ok path ->
  fs_exists w path = true ->
  resolve_ref fuel r w name = Some (Ok old, r1) ->
  exists r2 w2,
    delete_ref fuel r w name = Some (Ok tt, r2, w2) /\
    files w2 !! path = None /\
    ref_cache_ r2 !! name = None /\
    ref_exists r2 w2 name = Ok false /\
    forall fuel', read_ref fuel' r2 w2 name = Some (Ok None).
Proof.
  intros Hpath Hex Hres. unfold delete_ref. rewrite Hpath, Hex, Hres.
  eexists _, _. split; [reflexivity|].
  pose proof (resolve_ref_git_dir _ _ _ _ _ _ Hres) as Hgd.
  assert (Hfile : files (log_ref_change
                           (set_ref_cache r1 (delete name (ref_cache_ r1)))
                           (remove_file w path) name old EmptyString) !! path = None).
  { rewrite log_ref_change_other_file.
    - cbn [remove_file set_files files]. apply lookup_delete_eq.
    - cbn [set_ref_cache git_dir_]. rewrite Hgd.
      apply ref_path_is_not_reflog_path, Hpath. }
  assert (Hcache : ref_cache_ (set_ref_cache r1 (delete name (ref_cache_ r1))) !! name
                   = None)
    by (cbn [set_ref_cache ref_cache_]; apply lookup_delete_eq).
  assert (Hp2 : get_ref_path (set_ref_cache r1 (delete name (ref_cache_ r1))) name
                = Ok path)
    by (rewrite (get_ref_path_git_dir r); [exact Hpath|exact Hgd]).
  split; [exact Hfile|]. split; [exact Hcache|]. split.
  - unfold ref_exists. rewrite Hp2. cbn [bindR]. f_equal.
    apply fs_exists_false, Hfile.
  - intros fuel'. unfold read_ref. rewrite Hcache, Hp2.
    rewrite (proj2 (fs_exists_false _ _) Hfile). reflexivity.
Qed.

Lemma delete_ref_removes_the_ref_witness :
  exists r2 w2,
    delete_ref 10 main_refs main_world "refs/heads/main" = Some (Ok tt, r2, w2) /\
    files w2 !! ".git/refs/heads/main" = None /\
    ref_cache_ r2 !! "refs/heads/main" = None /\
    ref_exists r2 w2 "refs/heads/main" = Ok false /\
    forall fuel', read_ref fuel' r2 w2 "refs/heads/main" = Some (Ok None).
Proof.
  apply (delete_ref_removes_the_ref 10 main_refs main_refs main_world
           "refs/heads/main" ".git/refs/heads/main" sample_id_a); reflexivity.
Defined.

Lemma getline_line (line : string) :
  find_char "010" line = None -> getline (line +:+ newline) = line.
Proof.
  induction line as [|c line IH]; [reflexivity|].
  cbn [find_char String.append getline].
  destruct (Ascii.eqb c "010"); [discriminate|].
  destruct (find_char "010" line); [discriminate|].
  intros _. now rewrite IH.
Qed.

Lemma all_hex_no_newline (s : string) : all_hex s = true -> find_char "010" s = None.
Proof.
  induction s as [|c s IH]; [reflexivity|]. cbn [all_hex find_char].
  intros H. apply andb_prop in H as [Hc Hs].
  destruct (Ascii.eqb_spec c "010") as [->|_]; [discriminate Hc|].
  now rewrite (IH Hs).
Qed.

Lemma valid_sha1_is_not_symbolic (c : string) :
  valid_sha1 c = true -> String.eqb (substr 0 5 c) "ref: " = false.
Proof.
  unfold valid_sha1. intros H. apply andb_prop in H as [Hlen Hhex].
  destruct c as [|a c]; [discriminate Hlen|].
  cbn [all_hex] in Hhex. apply andb_prop in Hhex as [Ha _].
  unfold substr. cbn [substr_from substr_to]. apply String.eqb_neq.
  intros E. injection E as -> _. discriminate Ha.
Qed.

(** X16: [set_head] with a well-formed id detaches HEAD: afterwards
    [get_head] returns that id, [read_ref] of [HEAD] too, and no branch
    is current. *)
Theorem set_head_then_get_head
        (fuel : nat) (r : Refs) (w : World) (commit_id : ObjectId) :
  valid_sha1 commit_id = true ->
  writable w (git_dir_ r +:+ "/HEAD") = true ->
  exists r1 w1,
    set_head r w commit_id = (Ok tt, r1, w1) /\
    get_head fuel r1 w1 = Some (Ok commit_id, r1) /\
    read_ref fuel r1 w1 "HEAD" = Some (Ok (Some commit_id)) /\
    get_head_branch r1 w1 = None /\
    get_current_branch r1 w1 = "HEAD"%string.
Proof.
  intros Hv Hw. unfold set_head. rewrite Hw. eexists _, _. split; [reflexivity|].
  assert (Hline : getline (commit_id +:+ newline) = commit_id).
  { apply getline_line, all_hex_no_newline.
    unfold valid_sha1 in Hv. apply andb_prop in Hv as [_ Hv]. exact Hv. }
  pose proof (valid_sha1_is_not_symbolic commit_id Hv) as Hns.
  assert (Hb : get_head_branch
                 (set_ref_cache r (<["HEAD":=commit_id]> (ref_cache_ r)))
                 (write_file w (git_dir_ r +:+ "/HEAD") (commit_id +:+ newline))
               = None).
  { unfold get_head_branch. cbn [set_ref_cache git_dir_ write_file set_files files].
    rewrite lookup_insert_eq, Hline, Hns. reflexivity. }
  split; [|split; [|split; [exact Hb|]]].
  - unfold get_head. cbn [set_ref_cache git_dir_ write_file set_files files].
    rewrite lookup_insert_eq, Hline, Hns. reflexivity.
  - unfold read_ref. cbn [set_ref_cache ref_cache_].
    rewrite lookup_insert_eq. reflexivity.
  - unfold get_current_branch. rewrite Hb. reflexivity.
Qed.

Lemma set_head_then_get_head_witness :
  exists r1 w1,
    set_head main_refs main_world sample_id_b = (Ok tt, r1, w1) /\
    get_head 10 r1 w1 = Some (Ok sample_id_b, r1) /\
    read_ref 10 r1 w1 "HEAD" = Some (Ok (Some sample_id_b)) /\
    get_head_branch r1 w1 = None /\
    get_current_branch r1 w1 = "HEAD"%string.
Proof.
  apply (set_head_then_get_head 10 main_refs main_world sample_id_b); reflexivity.
Defined.







Lemma no_slash_is_not_under_refs (name : string) :
  find_char "/" name = None -> String.eqb (substr 0 5 name) "refs/" = false.
Proof.
  intros H. apply String.eqb_neq. intros E.
  destruct name as [|c0 [|c1 [|c2 [|c3 [|c4 rest]]]]]; try discriminate E.
  unfold substr in E. cbn [substr_from substr_to] in E.
  injection E as -> -> -> -> ->. discriminate H.
Qed.

(** X19: a branch may be named in short: for a name without a slash,
    other than [HEAD], the file of the ref is the file of
    [refs/heads/<name>]. *)
Theorem short_branch_name_is_full_name (r : Refs) (name : string) :
  find_char "/" name = None -> name <> "HEAD"%string ->
  get_ref_path r name = get_ref_path r ("refs/heads/" +:+ name) /\
  get_ref_path r name = Ok (git_dir_ r +:+ "/refs/heads/" +:+ name).
Proof.
  intros Hs Hh.
  assert (E : get_ref_path r name = Ok (git_dir_ r +:+ "/refs/heads/" +:+ name)).
  { unfold get_ref_path, heads_dir_, refs_dir_.
    destruct (String.eqb_spec name "HEAD") as [->|_]; [contradiction|].
    rewrite (no_slash_is_not_under_refs _ Hs), Hs. rewrite !append_assoc. reflexivity. }
  split; [|exact E]. rewrite E. unfold get_ref_path.
  change (String.eqb ("refs/heads/" +:+ name) "HEAD") with false.
  change (String.eqb (substr 0 5 ("refs/heads/" +:+ name)) "refs/") with true.
  reflexivity.
Qed.

Lemma short_branch_name_is_full_name_witness :
  get_ref_path main_refs "main" = get_ref_path main_refs ("refs/heads/" +:+ "main") /\
  get_ref_path main_refs "main" = Ok (git_dir_ main_refs +:+ "/refs/heads/" +:+ "main").
Proof.
  apply (short_branch_name_is_full_name main_refs "main"); [reflexivity|discriminate].
Defined.

Lemma branch_path (r : Refs) (name : string) :
  get_ref_path r ("refs/heads/" +:+ name)
    = Ok (git_dir_ r +:+ "/" +:+ "refs/heads/" +:+ name).
Proof. reflexivity. Qed.

Lemma branch_path_is_no_reflog (gd a b : string) :
  gd +:+ "/" +:+ "refs/heads/" +:+ a <> gd +:+ "/logs" +:+ "/" +:+ b.
Proof. intros E. apply append_inv_head in E. discriminate E. Qed.

Lemma branch_path_inj (gd a b : string) :
  gd +:+ "/" +:+ "refs/heads/" +:+ a = gd +:+ "/" +:+ "refs/heads/" +:+ b -> a = b.
Proof.
  intros E. apply append_inv_head in E.
  apply (append_inv_head "/refs/heads/") in E. exact E.
Qed.

Lemma branch_name_inj (a b : string) :
  "refs/heads/" +:+ a = "refs/heads/" +:+ b -> a = b.
Proof. apply append_inv_head. Qed.

(** X20: take a branch that is not the current one, that the ref cache
    knows and whose ref file exists, and rename it to a different name
    whose ref file can be written, both names being plain (no slash).
    Then the new ref is created with the commit of the old one and the
    old ref is deleted: afterwards the new name reads as that commit and
    the old name is not found. *)
Theorem rename_branch_moves_the_ref
        (fuel : nat) (r : Refs) (w : World) (old_name new_name : string)
        (commit_id : ObjectId) :
  find_char "/" old_name = None ->
  find_char "/" new_name = None ->
  String.eqb old_name (get_current_branch r w) = false ->
  old_name <> new_name ->
  ref_cache_ r !! ("refs/heads/" +:+ old_name) = Some commit_id ->
  fs_exists w (git_dir_ r +:+ "/" +:+ "refs/heads/" +:+ old_name) = true ->
  writable w (git_dir_ r +:+ "/" +:+ "refs/heads/" +:+ new_name) = true ->
  exists r2 w2,
    rename_branch fuel r w old_name new_name = Some (Ok true, r2, w2) /\
    files w2 !! (git_dir_ r +:+ "/" +:+ "refs/heads/" +:+ new_name)
      = Some (commit_id +:+ newline) /\
    files w2 !! (git_dir_ r +:+ "/" +:+ "refs/heads/" +:+ old_name) = None /\
    (forall fuel', read_ref fuel' r2 w2 ("refs/heads/" +:+ new_name)
                   = Some (Ok (Some commit_id))) /\
    (forall fuel', read_ref fuel' r2 w2 ("refs/heads/" +:+ old_name)
                   = Some (Ok None)).
Proof.
  intros _ _ Hcur Hne Hc Hex Hw. unfold RefName, ObjectId in *.
  set (old_path := git_dir_ r +:+ "/" +:+ "refs/heads/" +:+ old_name) in *.
  set (new_path := git_dir_ r +:+ "/" +:+ "refs/heads/" +:+ new_name) in *.
  assert (Hrefs : "refs/heads/" +:+ new_name <> "refs/heads/" +:+ old_name)
    by (intros E; apply branch_name_inj in E; congruence).
  assert (Hpaths : new_path <> old_path)
    by (intros E; apply branch_path_inj in E; congruence).
  assert (Hnp : forall r', git_dir_ r' = git_dir_ r ->
                           get_ref_path r' ("refs/heads/" +:+ new_name) = Ok new_path)
    by (intros r' E; unfold new_path; rewrite <- E; reflexivity).
  assert (Hop : forall r', git_dir_ r' = git_dir_ r ->
                           get_ref_path r' ("refs/heads/" +:+ old_name) = Ok old_path)
    by (intros r' E; unfold old_path; rewrite <- E; reflexivity).
  pose (r1 := set_ref_cache r (<["refs/heads/" +:+ new_name:=commit_id]> (ref_cache_ r))).
  pose (w1 := log_ref_change r1 (write_file w new_path (commit_id +:+ newline))
                             ("refs/heads/" +:+ new_name) EmptyString commit_id).
  assert (Hcreate : create_ref r w ("refs/heads/" +:+ new_name) commit_id false
                    = (Ok tt, r1, w1)).
  { unfold create_ref, write_ref_file. rewrite (Hnp r eq_refl), Hw. reflexivity. }
  assert (Hw1new : files w1 !! new_path = Some (commit_id +:+ newline)).
  { unfold w1. rewrite log_ref_change_other_file by apply branch_path_is_no_reflog.
    cbn [write_file set_files files]. apply lookup_insert_eq. }
  assert (Hw1old : files w1 !! old_path = files w !! old_path).
  { unfold w1. rewrite log_ref_change_other_file by apply branch_path_is_no_reflog.
    cbn [write_file set_files files]. apply lookup_insert_ne. exact Hpaths. }
  assert (Hc1 : ref_cache_ r1 !! ("refs/heads/" +:+ old_name) = Some commit_id).
  { unfold r1. cbn [set_ref_cache ref_cache_].
    rewrite lookup_insert_ne; [exact Hc|exact Hrefs]. }
  pose (r2 := set_ref_cache r1 (delete ("refs/heads/" +:+ old_name) (ref_cache_ r1))).
  pose (w2 := log_ref_change r2 (remove_file w1 old_path)
                             ("refs/heads/" +:+ old_name) commit_id EmptyString).
  assert (Hdelete : delete_ref fuel r1 w1 ("refs/heads/" +:+ old_name)
                    = Some (Ok tt, r2, w2)).
  { unfold delete_ref. rewrite (Hop r1 eq_refl).
    assert (fs_exists w1 old_path = true) as ->.
    { apply fs_exists_true. rewrite Hw1old. apply fs_exists_true, Hex. }
    unfold resolve_ref, resolve_ref_holding. unfold RefName, ObjectId in *. rewrite Hc1. reflexivity. }
  exists r2, w2. split.
  { unfold rename_branch. rewrite Hcur. unfold read_ref. unfold RefName, ObjectId in *.
    rewrite Hc, Hcreate, Hdelete. reflexivity. }
  assert (Hnew2 : files w2 !! new_path = Some (commit_id +:+ newline)).
  { unfold w2. rewrite log_ref_change_other_file by apply branch_path_is_no_reflog.
    cbn [remove_file set_files files]. rewrite lookup_delete_ne; [exact Hw1new|].
    congruence. }
  assert (Hold2 : files w2 !! old_path = None).
  { unfold w2. rewrite log_ref_change_other_file by apply branch_path_is_no_reflog.
    cbn [remove_file set_files files]. apply lookup_delete_eq. }
  split; [exact Hnew2|]. split; [exact Hold2|]. split.
  - intros fuel'. unfold read_ref. unfold RefName, ObjectId in *.
    unfold r2, r1. cbn [set_ref_cache ref_cache_].
    rewrite lookup_delete_ne by congruence. rewrite lookup_insert_eq. reflexivity.
  - intros fuel'. unfold read_ref.
    assert (Hc2 : ref_cache_ r2 !! ("refs/heads/" +:+ old_name) = None)
      by (unfold r2; cbn [set_ref_cache ref_cache_]; apply lookup_delete_eq).
    unfold RefName, ObjectId in *. rewrite Hc2, (Hop r2 eq_refl).
    rewrite (proj2 (fs_exists_false _ _) Hold2). reflexivity.
Qed.

Lemma rename_branch_moves_the_ref_witness :
  exists r2 w2,
    rename_branch 10 (refs two_branch_repo) two_branch_world "feat" "topic"
      = Some (Ok true, r2, w2) /\
    files w2 !! (git_dir_ (refs two_branch_repo) +:+ "/" +:+ "refs/heads/" +:+ "topic")
      = Some (sample_id_b +:+ newline) /\
    files w2 !! (git_dir_ (refs two_branch_repo) +:+ "/" +:+ "refs/heads/" +:+ "feat")
      = None /\
    (forall fuel', read_ref fuel' r2 w2 ("refs/heads/" +:+ "topic")
                   = Some (Ok (Some sample_id_b))) /\
    (forall fuel', read_ref fuel' r2 w2 ("refs/heads/" +:+ "feat") = Some (Ok None)).
Proof.
  apply (rename_branch_moves_the_ref 10 (refs two_branch_repo) two_branch_world
           "feat" "topic" sample_id_b);
    [reflexivity|reflexivity|reflexivity|discriminate|reflexivity|reflexivity
    |reflexivity].
Defined.

(** X26: [rename_branch] does not compare the two names.  Renaming a
    branch that is not the current one, and that [read_ref] finds, to its
    own name writes the ref and then deletes it: the call returns [true]
    and the branch is gone. *)
Theorem rename_branch_to_itself_deletes_it
        (fuel : nat) (r : Refs) (w : World) (name : string) (commit_id : ObjectId) :
  String.eqb name (get_current_branch r w) = false ->
  read_ref fuel r w ("refs/heads/" +:+ name) = Some (Ok (Some commit_id)) ->
  writable w (git_dir_ r +:+ "/" +:+ "refs/heads/" +:+ name) = true ->
  exists r2 w2,
    rename_branch fuel r w name name = Some (Ok true, r2, w2) /\
    files w2 !! (git_dir_ r +:+ "/" +:+ "refs/heads/" +:+ name) = None /\
    ref_cache_ r2 !! ("refs/heads/" +:+ name) = None /\
    (forall fuel', read_ref fuel' r2 w2 ("refs/heads/" +:+ name) = Some (Ok None)).
Proof.
  intros Hcur Hread Hw. unfold RefName, ObjectId in *.
  set (ref_path := git_dir_ r +:+ "/" +:+ "refs/heads/" +:+ name) in *.
  assert (Hp : forall r', git_dir_ r' = git_dir_ r ->
                          get_ref_path r' ("refs/heads/" +:+ name) = Ok ref_path)
    by (intros r' E; unfold ref_path; rewrite <- E; reflexivity).
  pose (r1 := set_ref_cache r (<["refs/heads/" +:+ name:=commit_id]> (ref_cache_ r))).
  pose (w1 := log_ref_change r1 (write_file w ref_path (commit_id +:+ newline))
                             ("refs/heads/" +:+ name) EmptyString commit_id).
  assert (Hcreate : create_ref r w ("refs/heads/" +:+ name) commit_id false
                    = (Ok tt, r1, w1)).
  { unfold create_ref, write_ref_file. rewrite (Hp r eq_refl), Hw. reflexivity. }
  assert (Hw1 : files w1 !! ref_path = Some (commit_id +:+ newline)).
  { unfold w1. rewrite log_ref_change_other_file by apply branch_path_is_no_reflog.
    cbn [write_file set_files files]. apply lookup_insert_eq. }
  pose (r2 := set_ref_cache r1 (delete ("refs/heads/" +:+ name) (ref_cache_ r1))).
  pose (w2 := log_ref_change r2 (remove_file w1 ref_path)
                             ("refs/heads/" +:+ name) commit_id EmptyString).
  assert (Hdelete : delete_ref fuel r1 w1 ("refs/heads/" +:+ name)
                    = Some (Ok tt, r2, w2)).
  { unfold delete_ref. rewrite (Hp r1 eq_refl).
    assert (fs_exists w1 ref_path = true) as ->
        by (apply fs_exists_true; rewrite Hw1; eauto).
    unfold resolve_ref, resolve_ref_holding. unfold r1 at 1.
    cbn [set_ref_cache ref_cache_]. unfold RefName, ObjectId in *.
    rewrite lookup_insert_eq. reflexivity. }
  assert (Hgone : files w2 !! ref_path = None).
  { unfold w2. rewrite log_ref_change_other_file by apply branch_path_is_no_reflog.
    cbn [remove_file set_files files]. apply lookup_delete_eq. }
  assert (Hc2 : ref_cache_ r2 !! ("refs/heads/" +:+ name) = None)
    by (unfold r2; cbn [set_ref_cache ref_cache_]; apply lookup_delete_eq).
  exists r2, w2. split.
  { unfold rename_branch. rewrite Hcur. unfold RefName, ObjectId in *.
    rewrite Hread, Hcreate, Hdelete. reflexivity. }
  split; [exact Hgone|]. split; [exact Hc2|].
  intros fuel'. unfold read_ref. unfold RefName, ObjectId in *.
  rewrite Hc2, (Hp r2 eq_refl). rewrite (proj2 (fs_exists_false _ _) Hgone).
  reflexivity.
Qed.

Lemma rename_branch_to_itself_deletes_it_witness :
  exists r2 w2,
    rename_branch 10 (refs two_branch_repo) two_branch_world "feat" "feat"
      = Some (Ok true, r2, w2) /\
    files w2 !! (git_dir_ (refs two_branch_repo) +:+ "/" +:+ "refs/heads/" +:+ "feat")
      = None /\
    ref_cache_ r2 !! ("refs/heads/" +:+ "feat") = None /\
    (forall fuel', read_ref fuel' r2 w2 ("refs/heads/" +:+ "feat") = Some (Ok None)).
Proof.
  apply (rename_branch_to_itself_deletes_it 10 (refs two_branch_repo)
           two_branch_world "feat" sample_id_b); reflexivity.
Defined.

(** ** Index: entries and the path index *)

Lemma path_index_snoc (es : list IndexEntry) (e : IndexEntry) :
  path_index_ (update_path_index (es ++ [e]))
  = <[path e := length es]> (path_index_ (update_path_index es)).
Proof.
  unfold update_path_index. cbn [path_index_].
  rewrite imap_app, fold_left_app. cbn [imap fold_left fst snd].
  rewrite Nat.add_0_r. reflexivity.
Qed.

Lemma path_index_sound (es : list IndexEntry) (p : string) (i : nat) :
  path_index_ (update_path_index es) !! p = Some i ->
  exists e, es !! i = Some e /\ path e = p.
Proof.
  revert p i. induction es as [|x es IH] using rev_ind; intros p i.
  - cbn. rewrite lookup_empty. discriminate.
  - rewrite path_index_snoc, lookup_insert.
    destruct (decide (path x = p)) as [<-|Hne].
    + intros [= <-]. exists x. split; [|reflexivity].
      rewrite lookup_app_r by lia. now rewrite Nat.sub_diag.
    + intros H. destruct (IH p i H) as (e & He & Hp). exists e. split; [|exact Hp].
      rewrite lookup_app_l; [exact He|]. eapply lookup_lt_Some, He.
Qed.

Lemma path_index_complete (es : list IndexEntry) (p : string) :
  is_Some (path_index_ (update_path_index es) !! p) <-> In p (map path es).
Proof.
  induction es as [|x es IH] using rev_ind.
  - cbn. rewrite lookup_empty. split; [intros [? ?]; discriminate|contradiction].
  - rewrite path_index_snoc, lookup_insert, map_app, in_app_iff, <- IH.
    destruct (decide (path x = p)) as [<-|Hne]; cbn.
    + split; eauto.
    + split; [auto|]. intros [H|[H|[]]]; [exact H|contradiction].
Qed.

Lemma has_entry_paths (ix : Index) (p : string) :
  path_index_ ix = path_index_ (update_path_index (index_entries_ ix)) ->
  has_entry ix p = true <-> In p (list_files ix).
Proof.
  intros Hs. unfold has_entry, list_files. rewrite bool_decide_eq_true, Hs.
  apply path_index_complete.
Qed.

Lemma update_path_index_ok (es : list IndexEntry) :
  NoDup (map path es) -> index_ok (update_path_index es).
Proof. intros H. split; [reflexivity|exact H]. Qed.

Lemma nodup_delete_at (l : list string) (i : nat) (p : string) :
  NoDup l -> l !! i = Some p -> NoDup (delete i l) /\ ~ In p (delete i l).
Proof.
  intros Hnd Hi. split.
  - eapply sublist_NoDup; [exact Hnd|apply sublist_delete].
  - rewrite delete_take_drop. rewrite <- (take_drop_middle l i p Hi) in Hnd.
    apply NoDup_app in Hnd as (_ & Hdisj & Hnd). apply NoDup_cons in Hnd as [Hp _].
    rewrite in_app_iff, <- !list_elem_of_In. intros [H|H]; [|contradiction].
    apply (Hdisj p H). left.
Qed.

Lemma in_delete (l : list string) (i : nat) (q : string) :
  In q (delete i l) -> In q l.
Proof.
  rewrite <- !list_elem_of_In. intros H. eapply elem_of_sublist; [exact H|].
  apply sublist_delete.
Qed.

Lemma in_delete_other (l : list string) (i : nat) (p q : string) :
  l !! i = Some p -> q <> p -> In q l -> In q (delete i l).
Proof.
  intros Hi Hne. rewrite <- (take_drop_middle l i p Hi) at 1.
  rewrite delete_take_drop, !in_app_iff. cbn [In]. intuition congruence.
Qed.

(** What [add_entry] and [remove_entry] remove: the entry the path index
    names for the path, if any. *)
Lemma entries_without
      (ix : Index) (p : string) :
  index_ok ix ->
  let es := match path_index_ ix !! p with
            | Some i => delete i (index_entries_ ix)
            | None => index_entries_ ix
            end in
  NoDup (map path es) /\ ~ In p (map path es) /\
  (forall q, q <> p -> In q (map path es) <-> In q (list_files ix)).
Proof.
  intros [Hs Hnd]. cbv zeta. destruct (path_index_ ix !! p) as [i|] eqn:E.
  - rewrite Hs in E. apply path_index_sound in E as (e & He & Hp).
    assert (Hi : map path (index_entries_ ix) !! i = Some p)
      by (change (map path) with (fmap (M:=list) path);
          rewrite list_lookup_fmap, He; cbn; now rewrite Hp).
    change (map path (delete i (index_entries_ ix)))
      with (path <$> delete i (index_entries_ ix)).
    rewrite list_fmap_delete.
    destruct (nodup_delete_at _ _ _ Hnd Hi) as [H1 H2].
    split; [exact H1|]. split; [exact H2|].
    intros q Hq. unfold list_files. split; [apply in_delete|].
    apply (in_delete_other _ i p q Hi Hq).
  - split; [exact Hnd|]. split; [|reflexivity].
    intros Hin. apply path_index_complete in Hin. rewrite <- Hs, E in Hin.
    destruct Hin as [? ?]. discriminate.
Qed.

(** X21: staging a path that [stat] knows never fails.  It leaves an
    index in which the path index is in step with the entries and no path
    occurs twice; the entry found for the path carries the given blob id
    and mode and the file's modification time and size, so that the file
    counts as unmodified; the other paths are staged as before. *)
Theorem add_entry_stages_the_path
        (w : World) (ix : Index) (p : string) (id : ObjectId) (m : FileMode)
        (st : Stat) :
  index_ok ix ->
  stats w !! p = Some st ->
  exists ix',
    index_add_entry w ix p id m = Ok ix' /\
    index_ok ix' /\
    get_entry ix' p = Some (Ok (mkIndexEntry p id m (st_mtime st) (st_size st))) /\
    is_file_modified w (mkIndexEntry p id m (st_mtime st) (st_size st)) p = false /\
    (forall q, has_entry ix' q = true <-> q = p \/ has_entry ix q = true).
Proof.
  intros Hok Hst. unfold index_add_entry. rewrite Hst.
  destruct (entries_without ix p Hok) as (Hnd & Hnp & Hother).
  set (es := match path_index_ ix !! p with
             | Some i => delete i (index_entries_ ix)
             | None => index_entries_ ix
             end) in *.
  set (new := mkIndexEntry p id m (st_mtime st) (st_size st)).
  eexists. split; [reflexivity|].
  assert (Hnd' : NoDup (map path (es ++ [new]))).
  { rewrite map_app. cbn [map path]. apply NoDup_app. split; [exact Hnd|].
    split; [|apply NoDup_singleton].
    intros x Hx Hx'. apply list_elem_of_In in Hx. apply list_elem_of_In in Hx'.
    destruct Hx' as [<-|[]]. contradiction. }
  split; [apply update_path_index_ok, Hnd'|]. split; [|split].
  - unfold get_entry. rewrite path_index_snoc. cbn [path].
    rewrite lookup_insert_eq. cbn [update_path_index index_entries_].
    rewrite lookup_app_r by lia. now rewrite Nat.sub_diag.
  - unfold is_file_modified. rewrite Hst. cbn [mtime size].
    now rewrite !Z.eqb_refl.
  - intros q. rewrite (has_entry_paths (update_path_index (es ++ [new])))
      by reflexivity.
    rewrite (has_entry_paths ix) by apply Hok.
    unfold list_files at 1. cbn [update_path_index index_entries_].
    rewrite map_app, in_app_iff. cbn [map path In].
    destruct (String.eqb_spec q p) as [->|Hne].
    + split; auto.
    + rewrite (Hother q Hne). split; [intros [H|[H|[]]]; auto; congruence|].
      intros [H|H]; [contradiction|auto].
Qed.

Lemma add_entry_stages_the_path_witness :
  exists ix',
    index_add_entry (hello_world 1700000000) empty_index "hello.txt" sample_id_a Regular
      = Ok ix' /\
    index_ok ix' /\
    get_entry ix' "hello.txt"
      = Some (Ok (mkIndexEntry "hello.txt" sample_id_a Regular
                               (st_mtime (hello_stat 1700000000))
                               (st_size (hello_stat 1700000000)))) /\
    is_file_modified (hello_world 1700000000)
      (mkIndexEntry "hello.txt" sample_id_a Regular
                    (st_mtime (hello_stat 1700000000))
                    (st_size (hello_stat 1700000000))) "hello.txt" = false /\
    (forall q, has_entry ix' q = true <->
               q = "hello.txt"%string \/ has_entry empty_index q = true).
Proof.
  apply (add_entry_stages_the_path (hello_world 1700000000) empty_index "hello.txt"
           sample_id_a Regular (hello_stat 1700000000)).
  - split; [reflexivity|constructor].
  - reflexivity.
Defined.

(** X22: [remove_entry] keeps the index in step, unstages the path, and
    leaves every other path staged as it was; on a path that is not
    staged it does nothing. *)
Theorem remove_entry_unstages_the_path (ix : Index) (p : string) :
  index_ok ix ->
  index_ok (remove_entry ix p) /\
  has_entry (remove_entry ix p) p = false /\
  (forall q, q <> p -> has_entry (remove_entry ix p) q = has_entry ix q) /\
  (has_entry ix p = false -> remove_entry ix p = ix).
Proof.
  intros Hok.
  destruct (entries_without ix p Hok) as (Hnd & Hnp & Hother).
  assert (Hents : index_entries_ (remove_entry ix p)
                  = match path_index_ ix !! p with
                    | Some i => delete i (index_entries_ ix)
                    | None => index_entries_ ix
                    end).
  { unfold remove_entry. destruct (path_index_ ix !! p); reflexivity. }
  assert (Hok' : index_ok (remove_entry ix p)).
  { unfold remove_entry in *. destruct (path_index_ ix !! p).
    - apply update_path_index_ok. exact Hnd.
    - exact Hok. }
  assert (Hhas : forall q, has_entry (remove_entry ix p) q = true
                           <-> In q (list_files (remove_entry ix p)))
    by (intros q; apply has_entry_paths, Hok').
  unfold list_files in Hhas. rewrite Hents in Hhas.
  split; [exact Hok'|]. split; [|split].
  - apply not_true_is_false. rewrite Hhas. exact Hnp.
  - intros q Hq. apply eq_true_iff_eq.
    rewrite Hhas, (Hother q Hq). symmetry. apply has_entry_paths, Hok.
  - unfold has_entry, remove_entry. rewrite bool_decide_eq_false.
    intros H. destruct (path_index_ ix !! p); [|reflexivity].
    exfalso. apply H. eauto.
Qed.

Lemma remove_entry_unstages_the_path_witness :
  index_ok (update_path_index
              [mkIndexEntry "a.txt" sample_id_a Regular 1 1;
               mkIndexEntry "b.txt" sample_id_b Regular 2 2]) /\
  has_entry (remove_entry
               (update_path_index
                  [mkIndexEntry "a.txt" sample_id_a Regular 1 1;
                   mkIndexEntry "b.txt" sample_id_b Regular 2 2]) "a.txt") "a.txt"
    = false.
Proof.
  assert (H : index_ok (update_path_index
              [mkIndexEntry "a.txt" sample_id_a Regular 1 1;
               mkIndexEntry "b.txt" sample_id_b Regular 2 2])).
  { apply update_path_index_ok. cbn [map path].
    apply NoDup_cons. split; [|apply NoDup_singleton].
    intros Hin. apply list_elem_of_In in Hin. destruct Hin as [Hin|[]].
    discriminate Hin. }
  split; [exact H|].
  apply (remove_entry_unstages_the_path _ "a.txt" H).
Defined.

(** ** Index: the index file *)

Lemma byte_of_char_of_byte (b : Z) : is_byte b -> byte_of_char (char_of_byte b) = b.
Proof.
  unfold is_byte, byte_of_char, char_of_byte. intros Hb.
  rewrite N_ascii_embedding.
  - rewrite Z2N.id; [apply Z.mod_small; lia|apply Z.mod_pos_bound; lia].
  - apply N2Z.inj_lt. rewrite Z2N.id by (apply Z.mod_pos_bound; lia).
    apply Z.mod_pos_bound. lia.
Qed.

Lemma lower_hex_digit (c : ascii) :
  is_lower_hex c = true ->
  exists v, hex_value c = Some v /\ 0 <= v < 16 /\ SHA1.hex_digit v = c.
Proof.
  destruct c as [[] [] [] [] [] [] [] []]; intros H; try discriminate H;
    eexists; (split; [reflexivity|]);
    (split; [vm_compute; split; [discriminate|reflexivity]|reflexivity]).
Qed.

Lemma all_lower_hex_all_hex (s : string) : all_lower_hex s = true -> all_hex s = true.
Proof.
  induction s as [|c s IH]; [reflexivity|]. cbn [all_lower_hex all_hex].
  intros H. apply andb_prop in H as [Hc Hs]. rewrite (IH Hs), andb_true_r.
  destruct (lower_hex_digit c Hc) as (v & Hv & _). unfold is_hex. now rewrite Hv.
Qed.

Lemma save_id_hex (id : string) (n i : nat) :
  all_hex id = true -> String.length id = (2 * (i + n))%nat ->
  save_id id i n = (hex_pairs (substr_from (i * 2) id), None).
Proof.
  intros Hhex. revert i. induction n as [|n IH]; intros i Hlen.
  - cbn [save_id].
    assert (E : substr_from (i * 2) id = EmptyString).
    { pose proof (substr_from_length id (i * 2)) as L.
      destruct (substr_from (i * 2) id); [reflexivity|simpl in L; lia]. }
    rewrite E. reflexivity.
  - cbn [save_id].
    destruct (Nat.ltb_spec (String.length id) (i * 2)) as [Hlt|_]; [lia|].
    pose proof (IH (S i)) as IHr. rewrite IHr by lia. clear IHr.
    pose proof (all_hex_substr_from (i * 2) id Hhex) as Hh.
    pose proof (substr_from_length id (i * 2)) as L.
    replace (S i * 2)%nat with (S (S (i * 2))) by lia.
    rewrite (substr_from_S (S (i * 2))), (substr_from_S (i * 2)).
    unfold substr.
    destruct (substr_from (i * 2) id) as [|c [|d rest]];
      cbn [String.length] in L; try lia.
    cbn [all_hex] in Hh. apply andb_prop in Hh as [Hc Hh].
    apply andb_prop in Hh as [Hd _].
    unfold is_hex in Hc, Hd.
    cbn [substr_to stoi16_byte hex_pairs substr_from].
    destruct (hex_value c) as [v|]; [|discriminate].
    destruct (hex_value d) as [u|]; [|discriminate].
    reflexivity.
Qed.

Lemma hex_of_hex_pairs (n : nat) (id : string) :
  String.length id = (2 * n)%nat -> all_lower_hex id = true ->
  SHA1.binary_to_hex (bytes_of_string (hex_pairs id)) = id /\
  String.length (hex_pairs id) = n.
Proof.
  revert id. induction n as [|n IH]; intros id Hlen Hhex.
  - destruct id; [split; reflexivity|discriminate Hlen].
  - destruct id as [|c [|d rest]]; cbn [String.length] in Hlen; try lia.
    cbn [all_lower_hex] in Hhex. apply andb_prop in Hhex as [Hc Hhex].
    apply andb_prop in Hhex as [Hd Hrest].
    destruct (lower_hex_digit c Hc) as (v & Hv & Hvr & Hvc).
    destruct (lower_hex_digit d Hd) as (u & Hu & Hur & Hud).
    destruct (IH rest) as [IH1 IH2]; [lia|exact Hrest|].
    cbn [hex_pairs]. rewrite Hv, Hu.
    unfold bytes_of_string in *.
    cbn [list_ascii_of_string map SHA1.binary_to_hex String.length].
    rewrite byte_of_char_of_byte by (unfold is_byte; lia).
    replace ((16 * v + u) / 16) with v
      by (apply Z.div_unique with u; lia).
    replace ((16 * v + u) mod 16) with u
      by (apply Z.mod_unique with v; lia).
    rewrite Hvc, Hud, IH1, IH2. split; reflexivity.
Qed.

Lemma substr_to_all (s : string) (n : nat) :
  (String.length s <= n)%nat -> substr_to n s = s.
Proof.
  revert n. induction s as [|c s IH]; intros n Hn; destruct n; cbn in *;
    try reflexivity; try lia. now rewrite IH by lia.
Qed.

Lemma substr_to_exact (s rest : string) : substr_to (String.length s) (s +:+ rest) = s.
Proof. induction s as [|c s IH]; cbn; [now destruct rest|now rewrite IH]. Qed.

Lemma substr_from_exact (s rest : string) :
  substr_from (String.length s) (s +:+ rest) = rest.
Proof. induction s as [|c s IH]; cbn; [reflexivity|exact IH]. Qed.

Lemma read_u16_bytes (o : SHA1.byte_order) (n : Z) :
  0 <= n < 65536 ->
  exists b0 b1,
    u16_bytes o n = [b0; b1] /\ is_byte b0 /\ is_byte b1 /\ read_u16 o b0 b1 = n.
Proof.
  intros Hn. unfold is_byte.
  assert (H1 : 0 <= n mod 256 < 256) by (apply Z.mod_pos_bound; lia).
  assert (H2 : (n / 256) mod 256 = n / 256).
  { apply Z.mod_small. split; [apply Z.div_pos; lia|].
    apply Z.div_lt_upper_bound; lia. }
  assert (H3 : 0 <= n / 256 < 256)
    by (split; [apply Z.div_pos; lia|apply Z.div_lt_upper_bound; lia]).
  pose proof (Z.div_mod n 256 ltac:(lia)) as Hdm.
  destruct o; cbn [u16_bytes read_u16]; rewrite H2;
    eexists _, _; (split; [reflexivity|]); repeat split; lia.
Qed.

Lemma read_u32_bytes (o : SHA1.byte_order) (n : Z) :
  0 <= n < 2 ^ 32 ->
  exists b0 b1 b2 b3,
    SHA1.word_bytes o n = [b0; b1; b2; b3] /\
    is_byte b0 /\ is_byte b1 /\ is_byte b2 /\ is_byte b3 /\
    read_u32 o b0 b1 b2 b3 = n.
Proof.
  intros Hn. unfold is_byte.
  assert (Hb : forall k, 0 <= k mod 256 < 256) by (intros; apply Z.mod_pos_bound; lia).
  assert (E : n = n mod 256 + 256 * ((n / 2 ^ 8) mod 256)
                  + 65536 * ((n / 2 ^ 16) mod 256)
                  + 16777216 * ((n / 2 ^ 24) mod 256)).
  { change (2 ^ 8) with 256. change (2 ^ 16) with (256 * 256).
    change (2 ^ 24) with (256 * 256 * 256).
    rewrite <- !Z.div_div by lia.
    pose proof (Z.div_mod n 256 ltac:(lia)).
    pose proof (Z.div_mod (n / 256) 256 ltac:(lia)).
    pose proof (Z.div_mod (n / 256 / 256) 256 ltac:(lia)).
    assert (n / 256 / 256 / 256 < 256).
    { repeat (apply Z.div_lt_upper_bound; [lia|]). lia. }
    assert (0 <= n / 256 / 256 / 256) by (repeat apply Z.div_pos; lia).
    rewrite (Z.mod_small (n / 256 / 256 / 256)) by lia. lia. }
  destruct o; cbn [SHA1.word_bytes read_u32];
    eexists _, _, _, _; (split; [reflexivity|]);
    repeat (split; [apply Hb|]); lia.
Qed.

Lemma load_entry_two_bytes (host : SHA1.byte_order) (c0 c1 : ascii) (s1 : string) :
  load_entry host (String c0 (String c1 s1)) =
  let path_len := Z.to_nat (read_u16 host (byte_of_char c0) (byte_of_char c1)) in
  if (String.length s1 <? path_len + 1 + 20)%nat then None
  else
    Some (mkIndexEntry (substr_to path_len s1)
            (SHA1.binary_to_hex
               (bytes_of_string (substr_to 20 (substr_from (path_len + 1) s1))))
            Regular 0 0,
          substr_from 20 (substr_from (path_len + 1) s1)).
Proof. reflexivity. Qed.

Lemma load_entry_of_save_entry (host : SHA1.byte_order) (e : IndexEntry) (rest : string) :
  storable e ->
  exists written,
    save_entry host e = (written, None) /\
    load_entry host (written +:+ rest) = Some (reloaded e, rest).
Proof.
  intros (Hlen & Hlow & Hplen).
  pose proof (all_lower_hex_all_hex _ Hlow) as Hhex.
  destruct (hex_of_hex_pairs 20 (blob_id e) Hlen Hlow) as [Hback Hraw].
  unfold save_entry.
  rewrite (save_id_hex (blob_id e) 20 0 Hhex) by (rewrite Hlen; reflexivity).
  cbn [substr_from Nat.mul].
  rewrite Z.mod_small by lia. rewrite Nat2Z.id.
  unfold substr at 1. cbn [substr_from]. rewrite substr_to_all by lia.
  destruct (read_u16_bytes host (Z.of_nat (String.length (path e))))
    as (b0 & b1 & Hbytes & Hb0 & Hb1 & Hread); [lia|].
  rewrite Hbytes. eexists. split; [reflexivity|].
  unfold string_of_bytes. cbn [map string_of_list_ascii].
  rewrite !append_assoc. cbn [String.append].
  rewrite load_entry_two_bytes.
  rewrite !byte_of_char_of_byte by assumption. rewrite Hread, Nat2Z.id.
  cbv zeta.
  set (tail := hex_pairs (blob_id e) +:+ rest).
  assert (Hlt : (String.length (path e +:+ String NUL tail)
                 <? String.length (path e) + 1 + 20)%nat = false).
  { apply Nat.ltb_ge. unfold tail. rewrite !length_append. cbn [String.length].
    rewrite length_append, Hraw. lia. }
  rewrite Hlt.
  rewrite substr_to_exact.
  rewrite substr_from_app.
  change (substr_from 1 (String NUL tail)) with tail. unfold tail.
  rewrite <- Hraw. rewrite substr_to_exact. rewrite substr_from_exact, Hback.
  reflexivity.
Qed.

Lemma load_entries_of_save_entries
      (host : SHA1.byte_order) (es : list IndexEntry) (rest : string) :
  Forall storable es ->
  exists body,
    save_entries host es = (body, None) /\
    load_entries host (length es) (body +:+ rest) = Some (map reloaded es).
Proof.
  induction 1 as [|e es He _ IH].
  - exists EmptyString. split; reflexivity.
  - destruct IH as (body & Hsave & Hload).
    destruct (load_entry_of_save_entry host e (body +:+ rest) He)
      as (written & Hw & Hl).
    exists (written +:+ body). split.
    + cbn [save_entries]. rewrite Hw, Hsave. reflexivity.
    + cbn [length load_entries map]. rewrite append_assoc, Hl, Hload. reflexivity.
Qed.

Lemma append_empty (s : string) : s +:+ EmptyString = s.
Proof. induction s as [|c s IH]; cbn; [reflexivity|now rewrite IH]. Qed.

Lemma index_load_header (host : SHA1.byte_order) (w : World) (index_file : string)
      (ix : Index) (v0 v1 v2 v3 c0 c1 c2 c3 : ascii) (body : string) :
  files w !! index_file
    = Some (String "D" (String "I" (String "R" (String "C"
              (String v0 (String v1 (String v2 (String v3
                 (String c0 (String c1 (String c2 (String c3 body)))))))))))) ->
  index_load host w index_file ix =
  match load_entries host
          (Z.to_nat (read_u32 host (byte_of_char c0) (byte_of_char c1)
                              (byte_of_char c2) (byte_of_char c3))) body with
  | None => None
  | Some es => Some (Ok (update_path_index es))
  end.
Proof. intros H. unfold index_load. rewrite H. reflexivity. Qed.

(** X23: an index whose blob ids are 40 lower-case hexadecimal digits
    and whose paths are shorter than 65536 bytes is saved without an
    exception, and loading the file gives the same paths with the same
    blob ids, in the same order; the mode comes back as [Regular] and the
    modification time and the size as zero. *)
Theorem index_save_then_load
        (host : SHA1.byte_order) (w : World) (index_file : string) (ix ix0 : Index) :
  writable w index_file = true ->
  Forall storable (index_entries_ ix) ->
  Z.of_nat (length (index_entries_ ix)) < 2 ^ 32 ->
  exists w1,
    index_save host w index_file ix = (Ok tt, w1) /\
    index_load host w1 index_file ix0
      = Some (Ok (update_path_index (map reloaded (index_entries_ ix)))).
Proof.
  intros Hw Hes Hcount. unfold index_save. rewrite Hw.
  destruct (load_entries_of_save_entries host (index_entries_ ix) EmptyString Hes)
    as (body & Hsave & Hload).
  rewrite append_empty in Hload.
  rewrite Hsave. eexists. split; [reflexivity|].
  rewrite Z.mod_small by lia.
  destruct (read_u32_bytes host 2) as (v0 & v1 & v2 & v3 & Hv & _); [lia|].
  destruct (read_u32_bytes host (Z.of_nat (length (index_entries_ ix))))
    as (c0 & c1 & c2 & c3 & Hc & H0 & H1 & H2 & H3 & Hread); [lia|].
  rewrite Hv, Hc.
  erewrite index_load_header.
  2:{ unfold write_file, set_files. cbn [files]. rewrite lookup_insert_eq.
      unfold string_of_bytes. cbn [map string_of_list_ascii String.append].
      reflexivity. }
  rewrite !byte_of_char_of_byte by assumption. rewrite Hread, Nat2Z.id, Hload.
  reflexivity.
Qed.

Lemma index_save_then_load_witness :
  exists w1,
    index_save SHA1.LittleEndian (hello_world 1700000000) ".git/index"
      (update_path_index [mkIndexEntry "hello.txt" sample_id_a Executable 1700000000 6])
      = (Ok tt, w1) /\
    index_load SHA1.LittleEndian w1 ".git/index" empty_index
      = Some (Ok (update_path_index
                    (map reloaded
                       (index_entries_
                          (update_path_index
                             [mkIndexEntry "hello.txt" sample_id_a Executable
                                           1700000000 6]))))).
Proof.
  apply (index_save_then_load SHA1.LittleEndian (hello_world 1700000000) ".git/index"
           (update_path_index
              [mkIndexEntry "hello.txt" sample_id_a Executable 1700000000 6])
           empty_index).
  - reflexivity.
  - repeat constructor.
  - cbn. lia.
Defined.

(** ** Index: staging a file *)

(** X24: [add_file] on a file that can be read and that [stat] knows
    stages it under the SHA-1 of its raw content (no object header is
    hashed), with the file's modification time and size and a mode that is
    [Directory], [Executable] or [Regular]; the index stays in step and
    [get_modified_files] does not list the file. *)
Theorem add_file_stages_an_unmodified_entry
        (host : SHA1.byte_order) (w : World) (ix : Index) (f content : string)
        (st : Stat) :
  index_ok ix ->
  files w !! f = Some content ->
  stats w !! f = Some st ->
  exists ix' m,
    add_file host w ix f = Ok ix' /\
    index_ok ix' /\
    get_entry ix' f
      = Some (Ok (mkIndexEntry f (SHA1.hash host content) m (st_mtime st) (st_size st))) /\
    m <> Symlink /\
    In f (list_files ix') /\
    ~ In f (get_modified_files w ix').
Proof.
  intros Hok Hf Hst. unfold add_file, hash_file. rewrite Hf.
  rewrite hash_file_chunks_all by lia. cbn [bindR]. rewrite Hst.
  set (m := if S_ISDIR (st_mode st) then Directory
            else if negb (Z.land (st_mode st) S_IXUSR =? 0) then Executable
                 else Regular).
  unfold index_add_entry. rewrite Hst.
  destruct (entries_without ix f Hok) as (Hnd & Hnp & _).
  set (es := match path_index_ ix !! f with
             | Some i => delete i (index_entries_ ix)
             | None => index_entries_ ix
             end) in *.
  change (fst (SHA1.final host
                 (fold_left SHA1.update_byte (bytes_of_string content) SHA1.new)))
    with (SHA1.hash host content).
  set (new := mkIndexEntry f (SHA1.hash host content) m (st_mtime st) (st_size st)).
  exists (update_path_index (es ++ [new])), m. split; [reflexivity|].
  split; [|split; [|split; [|split]]].
  - apply update_path_index_ok. rewrite map_app. cbn [map path].
    apply NoDup_app. split; [exact Hnd|]. split; [|apply NoDup_singleton].
    intros x Hx Hx'. apply list_elem_of_In in Hx. apply list_elem_of_In in Hx'.
    destruct Hx' as [<-|[]]. contradiction.
  - unfold get_entry. rewrite path_index_snoc. cbn [path].
    rewrite lookup_insert_eq. cbn [update_path_index index_entries_].
    rewrite lookup_app_r by lia. now rewrite Nat.sub_diag.
  - unfold m. destruct (S_ISDIR _); [discriminate|].
    destruct (negb _); discriminate.
  - unfold list_files. cbn [update_path_index index_entries_].
    rewrite map_app, in_app_iff. right. left. reflexivity.
  - unfold get_modified_files. cbn [update_path_index index_entries_].
    intros Hin. apply in_map_iff in Hin as (e & Hpath & He).
    apply list_elem_of_In, list_elem_of_filter in He as [Hmod He].
    apply elem_of_app in He as [He|He].
    + apply Hnp. rewrite <- Hpath. apply in_map, list_elem_of_In, He.
    + apply list_elem_of_singleton in He. subst e. unfold new, is_file_modified in Hmod. cbn [path] in Hmod.
      rewrite Hst in Hmod. cbn [mtime size] in Hmod.
      rewrite !Z.eqb_refl in Hmod. discriminate Hmod.
Qed.

Lemma add_file_stages_an_unmodified_entry_witness :
  exists ix' m,
    add_file SHA1.LittleEndian (hello_world 1700000000) empty_index "hello.txt" = Ok ix' /\
    index_ok ix' /\
    get_entry ix' "hello.txt"
      = Some (Ok (mkIndexEntry "hello.txt"
                    (SHA1.hash SHA1.LittleEndian ("hello" +:+ newline)) m
                    (st_mtime (hello_stat 1700000000))
                    (st_size (hello_stat 1700000000)))) /\
    m <> Symlink /\
    In "hello.txt"%string (list_files ix') /\
    ~ In "hello.txt"%string (get_modified_files (hello_world 1700000000) ix').
Proof.
  apply (add_file_stages_an_unmodified_entry SHA1.LittleEndian
           (hello_world 1700000000) empty_index "hello.txt" ("hello" +:+ newline)
           (hello_stat 1700000000)).
  - split; [reflexivity|constructor].
  - reflexivity.
  - reflexivity.
Defined.

(** ** Index: the textual form of an entry *)

(** X25: [serialize_entry] joins the path and the blob id with the string
    literal of a NUL, which appends nothing; so the text of an entry whose
    path and blob id hold no NUL is the two run together, and
    [deserialize_entry] refuses it. *)
Theorem serialized_entry_is_not_deserialized (e : IndexEntry) :
  find_char NUL (path e) = None ->
  find_char NUL (blob_id e) = None ->
  serialize_entry e = path e +:+ blob_id e /\
  deserialize_entry (serialize_entry e) = Throw "Invalid index entry format".
Proof.
  intros Hp Hid.
  assert (E : serialize_entry e = path e +:+ blob_id e) by reflexivity.
  split; [exact E|]. rewrite E. unfold deserialize_entry.
  rewrite find_char_app, Hp, Hid. reflexivity.
Qed.

Lemma serialized_entry_is_not_deserialized_witness :
  serialize_entry (mkIndexEntry "hello.txt" sample_id_a Regular 0 0)
    = ("hello.txt" +:+ sample_id_a)%string /\
  deserialize_entry (serialize_entry (mkIndexEntry "hello.txt" sample_id_a Regular 0 0))
    = Throw "Invalid index entry format".
Proof.
  apply (serialized_entry_is_not_deserialized
           (mkIndexEntry "hello.txt" sample_id_a Regular 0 0)); reflexivity.
Defined.
